(** * kineticstoolkit_extensions.timeseries: [ui_draw]

    A shallow embedding of
    [src/kineticstoolkit_extensions/timeseries/__init__.py] and the
    properties of [ui_draw] that its specification states.

    Numbers.  The coordinates returned by [plt.ginput] and the values of
    [time_range] / [value_range] are float64.  A finite float64 is
    modelled as the rational number it is ([Q]), next to the three
    non-finite values of numpy (+inf, -inf, NaN).  Comparison and negation
    are exact; addition, subtraction, multiplication and division round
    their exact result to the nearest float64, ties to even, and overflow
    to an infinity ([Np.round64]); division by zero and the arithmetic of
    the non-finite values are numpy's.  The sign of zero is not
    modelled. *)

From Stdlib Require Import ZArith QArith Qminmax Qround Qabs Qpower Lqa Lia.
From Stdlib Require Import List String Bool Arith.
From Stdlib Require Import Sorted SetoidList.
From Stdlib Require Import Permutation.
Import ListNotations.
Open Scope Q_scope.

(** ** numpy float64 values *)

Module Np.

Inductive npfloat : Type :=
| Fin (q : Q)
| PosInf
| NegInf
| NaN.

Definition is_finite (x : npfloat) : bool :=
  match x with Fin _ => true | _ => false end.

Definition neg (x : npfloat) : npfloat :=
  match x with
  | Fin q => Fin (- q)
  | PosInf => NegInf
  | NegInf => PosInf
  | NaN => NaN
  end.

(** The integer nearest to [x]; the even one of the two when [x] is half
    way between two integers. *)
Definition rne (x : Q) : Z :=
  let fl := Qfloor x in
  match (x - inject_Z fl ?= 1 # 2)%Q with
  | Lt => fl
  | Gt => (fl + 1)%Z
  | Eq => if Z.even fl then fl else (fl + 1)%Z
  end.

(** [floor (log2 |x|)], for [x] other than zero. *)
Definition ilog2 (x : Q) : Z :=
  let e0 := (Z.log2 (Z.abs (Qnum x)) - Z.log2 (Zpos (Qden x)))%Z in
  if Qle_bool (2 ^ e0)%Q (Qabs x) then e0 else (e0 - 1)%Z.

(** The exponent of the last bit of the float64 nearest to [x]: 53
    significant bits, and no bit below 2^-1074 (subnormal numbers). *)
Definition quantum (x : Q) : Z := Z.max (ilog2 x - 52) (-1074).

(** The multiple of [2^k] nearest to [x], ties to even. *)
Definition round_to (k : Z) (x : Q) : Q := inject_Z (rne (x / 2 ^ k)) * 2 ^ k.

(** The number that [x] is rounded to: the nearest number with the bits
    of a float64, ties to even. *)
Definition rounded (x : Q) : Q :=
  if Qeq_bool x 0 then 0 else round_to (quantum x) x.

(** The float64 that an arithmetic operation returns for the exact result
    [x]: the nearest float64, ties to even; an infinity from 2^1024 on. *)
Definition round64 (x : Q) : npfloat :=
  let v := rounded x in
  if Qle_bool (2 ^ 1024) v then PosInf
  else if Qle_bool v (- 2 ^ 1024) then NegInf
  else Fin (Qred v).

Definition add (x y : npfloat) : npfloat :=
  match x, y with
  | NaN, _ | _, NaN => NaN
  | Fin a, Fin b => round64 (a + b)
  | PosInf, NegInf | NegInf, PosInf => NaN
  | PosInf, _ | _, PosInf => PosInf
  | NegInf, _ | _, NegInf => NegInf
  end.

Definition sub (x y : npfloat) : npfloat := add x (neg y).

(** The sign of a rational, as a comparison with zero. *)
Definition sgn (q : Q) : comparison := q ?= 0.

(** An infinity of the given sign; [Eq] stands for the undefined
    product or quotient (0 * inf, 0 / 0). *)
Definition inf_of (c : comparison) : npfloat :=
  match c with Gt => PosInf | Lt => NegInf | Eq => NaN end.

Definition flip (c : comparison) : comparison := CompOpp c.

Definition mul (x y : npfloat) : npfloat :=
  match x, y with
  | NaN, _ | _, NaN => NaN
  | Fin a, Fin b => round64 (a * b)
  | Fin a, PosInf | PosInf, Fin a => inf_of (sgn a)
  | Fin a, NegInf | NegInf, Fin a => inf_of (flip (sgn a))
  | PosInf, PosInf | NegInf, NegInf => PosInf
  | PosInf, NegInf | NegInf, PosInf => NegInf
  end.

(** numpy division: a zero divisor raises nothing (a RuntimeWarning is
    issued) and gives an infinity of the sign of the dividend, or NaN for
    0 / 0. *)
Definition div (x y : npfloat) : npfloat :=
  match x, y with
  | NaN, _ | _, NaN => NaN
  | Fin a, Fin b =>
      if Qeq_bool b 0 then inf_of (sgn a) else round64 (a / b)
  | Fin _, PosInf | Fin _, NegInf => Fin 0
  | PosInf, Fin b =>
      match sgn b with Lt => NegInf | _ => PosInf end
  | NegInf, Fin b =>
      match sgn b with Lt => PosInf | _ => NegInf end
  | _, _ => NaN
  end.

(** [x < y] on float64: false as soon as one side is NaN. *)
Definition ltb (x y : npfloat) : bool :=
  match x, y with
  | NaN, _ | _, NaN => false
  | Fin a, Fin b => match a ?= b with Lt => true | _ => false end
  | NegInf, NegInf => false
  | NegInf, _ => true
  | _, PosInf => match x with PosInf => false | _ => true end
  | _, _ => false
  end.

(** [x == y] on float64. *)
Definition eqb (x y : npfloat) : bool :=
  match x, y with
  | Fin a, Fin b => Qeq_bool a b
  | PosInf, PosInf | NegInf, NegInf => true
  | _, _ => false
  end.

(** Python's builtin [min(a, b)] and [max(a, b)]: the first argument is
    kept unless the second is strictly smaller (resp. larger). *)
Definition py_min (a b : npfloat) : npfloat := if ltb b a then b else a.
Definition py_max (a b : npfloat) : npfloat := if ltb a b then b else a.

End Np.

Import Np.

(** ** Linear rescale

    The expression used twice by [ui_draw] (lines 202-208 for the values,
    lines 219-221 for the time):
    [(pixel - pixel_low) * (real_high - real_low)
       / (pixel_high - pixel_low) + real_low]. *)
Definition rescale (pixel pixel_low pixel_high real_low real_high : npfloat)
  : npfloat :=
  Np.add
    (Np.div (Np.mul (Np.sub pixel pixel_low) (Np.sub real_high real_low))
            (Np.sub pixel_high pixel_low))
    real_low.

(** ** Python values, exceptions and effects *)

(** The dynamically typed arguments of [ui_draw] ([filename], [data_keys],
    [data_units]). *)
#[warnings="-register-all"]
Inductive pyval : Type :=
| PyNone
| PyInt (z : Z)
| PyStr (s : string)
| PyList (l : list pyval).

(** The exceptions a call can end with. *)
Inductive exn : Type :=
| InvalidArgument (name : string)
    (* raised by [check_param name ...] *)
| NoImageAvailable
    (* [TypeError("The clipboard does not contain an image.")], line 107 *)
| ImageLibraryError
    (* any other exception of [ImageGrab.grabclipboard] / [Image.open] *)
| DisplayLibraryError
    (* the exception of [plt.imshow] on an object that is not an image *)
| IndexError
| TypeErrorNone
    (* ['NoneType' object is not subscriptable] *)
| ValueError
| KeyError.

(** An image object, opaque to [ui_draw]. *)
Inductive image : Type := Image (id : nat).

(** What the call does to the outside: the clipboard and the file system
    are read, a figure is created and closed, and the user is asked for
    clicks. *)
Inductive event : Type :=
| EvGrabClipboard
| EvImageOpen (filename : string)
| EvFigure
| EvImshow (img : image)
| EvGinputCurve (data_key : string)
| EvGinputTimeAxis
| EvGinputValueAxis
| EvCloseFigure.

(** Outcome of [ImageGrab.grabclipboard()]: an image, the value [None]
    (what Pillow documents for a clipboard that holds no image), a
    TypeError or another exception. *)
Inductive grab_result : Type :=
| GrabImage (img : image)
| GrabNone
| GrabTypeError
| GrabOtherError.

(** Everything [ui_draw] reads from outside its arguments. A click is a
    pair (x, y) of pixel coordinates. *)
Record world : Type := {
  grabclipboard : grab_result;
  image_open : string -> option image;        (* [None]: [Image.open] raises *)
  ginput_curve : nat -> list (Q * Q);         (* clicks of the n-th [ginput(-1)] *)
  ginput_time : list (Q * Q);                 (* clicks of [ginput(2)], time axis *)
  ginput_value : list (Q * Q)                 (* clicks of [ginput(2)], value axis *)
}.

(** A computation: the events it performed and either the exception it
    raised or its value. *)
Definition M (A : Type) : Type := (list event * (exn + A))%type.

Definition ret {A : Type} (a : A) : M A := ([], inr a).
Definition raise {A : Type} (e : exn) : M A := ([], inl e).
Definition emit (ev : event) : M unit := ([ev], inr tt).

Definition bind {A B : Type} (m : M A) (k : A -> M B) : M B :=
  match m with
  | (t, inl e) => (t, inl e)
  | (t, inr a) => let r := k a in (t ++ fst r, snd r)
  end.

Notation "x <- m ;; k" := (bind m (fun x => k))
  (at level 61, m at next level, right associativity).
Notation "m ;;; k" := (bind m (fun _ => k))
  (at level 61, right associativity).

Definition trace {A : Type} (m : M A) : list event := fst m.
Definition result {A : Type} (m : M A) : exn + A := snd m.

(** ** [check_param] *)

Definition check_str (name : string) (v : pyval) : M string :=
  match v with
  | PyStr s => ret s
  | _ => raise (InvalidArgument name)
  end.

Fixpoint all_str (l : list pyval) : option (list string) :=
  match l with
  | [] => Some []
  | PyStr s :: r => option_map (cons s) (all_str r)
  | _ :: _ => None
  end.

(** [check_param(name, v, list, contents_type=str)] *)
Definition check_list_str (name : string) (v : pyval) : M (list string) :=
  match v with
  | PyList l =>
      match all_str l with
      | Some ss => ret ss
      | None => raise (InvalidArgument name)
      end
  | _ => raise (InvalidArgument name)
  end.

(** Sequence indexing [l[i]] and subscripting of a possibly-[None] range. *)
Definition index {A : Type} (l : list A) (i : nat) : M A :=
  match nth_error l i with
  | Some a => ret a
  | None => raise IndexError
  end.

Definition subscript {A : Type} (o : option A) : M A :=
  match o with
  | Some a => ret a
  | None => raise TypeErrorNone
  end.

(** ** Python dicts (insertion ordered) *)

Fixpoint dict_set {V : Type} (d : list (string * V)) (k : string) (v : V)
  : list (string * V) :=
  match d with
  | [] => [(k, v)]
  | (k', v') :: r =>
      if String.eqb k' k then (k', v) :: r else (k', v') :: dict_set r k v
  end.

Fixpoint dict_get {V : Type} (d : list (string * V)) (k : string) : option V :=
  match d with
  | [] => None
  | (k', v') :: r => if String.eqb k' k then Some v' else dict_get r k
  end.

Definition dict_keys {V : Type} (d : list (string * V)) : list string :=
  map fst d.

(** ** Sorting and sets of floats *)

Definition Qltb (a b : Q) : bool :=
  match a ?= b with Lt => true | _ => false end.

(** Insertion of [x] after the elements that are smaller. *)
Fixpoint insert_by {A : Type} (key : A -> Q) (x : A) (l : list A) : list A :=
  match l with
  | [] => [x]
  | y :: r => if Qltb (key y) (key x) then y :: insert_by key x r
              else x :: y :: r
  end.

Definition sort_by {A : Type} (key : A -> Q) (l : list A) : list A :=
  fold_right (insert_by key) [] l.

(** [point_array[point_array[:, 0].argsort(), :]]: the clicks in ascending
    order of x, clicks of equal x in the order in which they were made. *)
Definition sort_points (point_array : list (Q * Q)) : list (Q * Q) :=
  sort_by fst point_array.

(** [sorted(l)] and [a.sort()] on floats. *)
Definition sorted (l : list Q) : list Q := sort_by (fun x => x) l.

Definition mem (x : Q) (s : list Q) : bool := existsb (Qeq_bool x) s.

(** A Python [set] of floats: a list without two equal numbers. *)
Fixpoint set_add_all (s : list Q) (l : list Q) : list Q :=
  match l with
  | [] => s
  | x :: r => set_add_all (if mem x s then s else s ++ [x]) r
  end.

(** [set(l)] *)
Definition py_set (l : list Q) : list Q := set_add_all [] l.

(** [s.union(t)] *)
Definition set_union (s t : list Q) : list Q := set_add_all s t.

(** Python's builtin [min] / [max] over a sequence: [None] stands for the
    [ValueError] raised on an empty one. *)
Definition iter_min (l : list Q) : option Q :=
  match l with
  | [] => None
  | x :: r => Some (fold_left (fun m y => if Qltb y m then y else m) r x)
  end.

Definition iter_max (l : list Q) : option Q :=
  match l with
  | [] => None
  | x :: r => Some (fold_left (fun m y => if Qltb m y then y else m) r x)
  end.

Definition of_option {A : Type} (e : exn) (o : option A) : M A :=
  match o with
  | Some a => ret a
  | None => raise e
  end.

(** ** The time-indexed container ([ktk.TimeSeries]) *)

(** Modelled from the spec: a container of the library (kineticstoolkit,
    a dependency that is not part of this repository): instants, named
    channels, and the info attached to the time and to the channels. *)
Record TimeSeries : Type := {
  time : list npfloat;
  data : list (string * list npfloat);
  info : list (string * list (string * string))
}.

(** Modelled from the spec: the info that every container of the library
    (kineticstoolkit, a dependency that is not part of this repository) is
    created with, the unit of its time. *)
Definition time_info : list (string * list (string * string)) :=
  [("Time"%string, [("Unit"%string, "s"%string)])].

(** Modelled from the spec: [ktk.TimeSeries(time=t)] and
    [ktk.TimeSeries(time=t, data={key: v})]. *)
Definition new_TimeSeries (t : list npfloat)
  (d : list (string * list npfloat)) : TimeSeries :=
  {| time := t; data := d; info := time_info |}.

(** Modelled from the spec: [ts.add_info(key, info_key, value,
    in_place=True)].  The library does not overwrite an entry that is
    there already: it raises ValueError. *)
Definition add_info (ts : TimeSeries) (key info_key value : string)
  : M TimeSeries :=
  let i := match dict_get (info ts) key with
           | Some i => i
           | None => []
           end in
  match dict_get i info_key with
  | Some _ => raise ValueError
  | None =>
      ret {| time := time ts;
             data := data ts;
             info := dict_set (info ts) key (dict_set i info_key value) |}
  end.

(** The unit annotation of a channel. *)
Definition unit_of (ts : TimeSeries) (key : string) : option string :=
  match dict_get (info ts) key with
  | Some i => dict_get i "Unit"%string
  | None => None
  end.

(** Modelled from the spec: the test of the library for two equal time
    vectors, in which case a merge does not resample. *)
Fixpoint same_time (a b : list npfloat) : bool :=
  match a, b with
  | [], [] => true
  | x :: a', y :: b' => Np.eqb x y && same_time a' b'
  | _, _ => false
  end.

(** Modelled from the spec: the test of the library for instants that
    can be resampled, every instant being before the next one. *)
Fixpoint increasing (t : list npfloat) : bool :=
  match t with
  | x :: (y :: _) as r => Np.ltb x y && increasing r
  | _ => true
  end.

(** Modelled from the spec: the info that a merge leaves in the
    container [out_ts], the info of each merged channel of [ts] being
    copied with the channel. *)
Definition merge_info (out_ts ts : TimeSeries)
  : list (string * list (string * string)) :=
  fold_left (fun inf kv => match dict_get (info ts) (fst kv) with
                           | Some i => dict_set inf (fst kv) i
                           | None => inf
                           end) (data ts) (info out_ts).

Section Digitizer.

(** Modelled from the spec: the interpolation of the container library
    (kineticstoolkit, a dependency that is not part of this repository).
    [interp src_time src_values t] is the value the library gives to a
    channel at the instant [t] when it resamples it; section 4.5 calls it
    linear interpolation. Nothing below depends on how it is computed. *)
Variable interp : list npfloat -> list npfloat -> npfloat -> npfloat.

(** Modelled from the spec: [ts.resample(target)] gives every channel one
    value per instant of [target]. *)
Definition resample (src_time src_values target : list npfloat)
  : list npfloat :=
  map (interp src_time src_values) target.

(** Modelled from the spec: [out_ts.merge(ts, resample=True,
    in_place=True)].  The time of [out_ts] is kept; the channels of [ts]
    are added to it with their info, resampled onto the time of [out_ts]
    when the two time vectors differ.  The library resamples a container
    only when its instants are strictly increasing, and raises ValueError
    otherwise.  The keys merged by [ui_draw] come from the keys of a dict,
    so a merged key is never present already. *)
Definition merge (out_ts ts : TimeSeries) : M TimeSeries :=
  channels <-
    (if same_time (time out_ts) (time ts) then ret (data ts)
     else if increasing (time ts)
          then ret (map (fun kv =>
                           (fst kv,
                            resample (time ts) (snd kv) (time out_ts)))
                        (data ts))
          else raise ValueError) ;;
  ret {| time := time out_ts;
         data := data out_ts ++ channels;
         info := merge_info out_ts ts |}.

(** ** [ui_draw], step by step *)

(** Lines 102-109. *)
Definition load_image (w : world) (filename : pyval) : M (option image) :=
  match filename with
  | PyNone =>
      emit EvGrabClipboard ;;;
      match grabclipboard w with
      | GrabImage img => ret (Some img)
      | GrabNone => ret None
      | GrabTypeError => raise NoImageAvailable
      | GrabOtherError => raise ImageLibraryError
      end
  | PyStr f =>
      emit (EvImageOpen f) ;;;
      img <- of_option ImageLibraryError (image_open w f) ;;
      ret (Some img)
  | _ => raise (InvalidArgument "filename")
  end.

(** Line 119, [plt.imshow(img)]; [img] is [None] when the clipboard gave
    no image, and the display library refuses it. *)
Definition imshow (img : option image) : M unit :=
  match img with
  | Some i => emit (EvImshow i)
  | None => raise DisplayLibraryError
  end.

(** The local variables of lines 112-115 and 124-125. *)
Record curves : Type := {
  time_in_pixels_dict : list (string * list Q);
  value_in_pixels_dict : list (string * list Q);
  min_time_in_pixels : npfloat;
  max_time_in_pixels : npfloat;
  min_value_in_pixels : npfloat;
  max_value_in_pixels : npfloat
}.

Definition no_curves : curves :=
  {| time_in_pixels_dict := [];
     value_in_pixels_dict := [];
     min_time_in_pixels := PosInf;
     max_time_in_pixels := NegInf;
     min_value_in_pixels := PosInf;
     max_value_in_pixels := NegInf |}.

(** One round of the loop of lines 127-160; [i] counts the capture
    sessions. [point_array[:, 0]] raises IndexError on the 1-dimensional
    empty array that [np.array([])] is. *)
Definition draw_curve (w : world) (i : nat) (data_key : string)
  (st : curves) : M curves :=
  emit (EvGinputCurve data_key) ;;;
  match ginput_curve w i with
  | [] => raise IndexError
  | point_array =>
      let sorted_points := sort_points point_array in
      let t := map fst sorted_points in
      let v := map (fun p => - snd p) sorted_points in
      tmin <- of_option ValueError (iter_min t) ;;
      tmax <- of_option ValueError (iter_max t) ;;
      vmin <- of_option ValueError (iter_min v) ;;
      vmax <- of_option ValueError (iter_max v) ;;
      ret {| time_in_pixels_dict := dict_set (time_in_pixels_dict st) data_key t;
             value_in_pixels_dict := dict_set (value_in_pixels_dict st) data_key v;
             min_time_in_pixels := py_min (min_time_in_pixels st) (Fin tmin);
             max_time_in_pixels := py_max (max_time_in_pixels st) (Fin tmax);
             min_value_in_pixels := py_min (min_value_in_pixels st) (Fin vmin);
             max_value_in_pixels := py_max (max_value_in_pixels st) (Fin vmax) |}
  end.

Fixpoint draw_curves (w : world) (i : nat) (data_keys : list string)
  (st : curves) : M curves :=
  match data_keys with
  | [] => ret st
  | data_key :: rest =>
      st' <- draw_curve w i data_key st ;;
      draw_curves w (S i) rest st'
  end.

(** Lines 162-172. [ginput(2)] returns at most two clicks. *)
Definition get_time_range (w : world) (time_range : option (Q * Q))
  (st : curves) : M (list npfloat) :=
  match time_range with
  | Some _ =>
      emit EvGinputTimeAxis ;;;
      match firstn 2 (ginput_time w) with
      | [] => raise IndexError
      | pts => ret (map Fin (sorted (map fst pts)))
      end
  | None => ret [min_time_in_pixels st; max_time_in_pixels st]
  end.

(** Lines 174-186. *)
Definition get_value_range (w : world) (value_range : option (Q * Q))
  (st : curves) : M (list npfloat) :=
  match value_range with
  | Some _ =>
      emit EvGinputValueAxis ;;;
      match firstn 2 (ginput_value w) with
      | [] => raise IndexError
      | pts => ret (map Fin (sorted (map (fun p => - snd p) pts)))
      end
  | None => ret [min_value_in_pixels st; max_value_in_pixels st]
  end.

(** Lines 191-195: the union of the sets of the curves' x pixels, sorted. *)
Definition new_time (d : list (string * list Q)) : list Q :=
  sorted (fold_left (fun s kv => set_union s (py_set (snd kv))) d []).

(** One round of the loop of lines 197-216. *)
Definition scale_and_merge (st : curves) (value_range : option (Q * Q))
  (value_range_in_pixels : list npfloat) (data_units : option (list string))
  (i_key : nat) (key : string) (value_in_pixels : list Q)
  (out_ts : TimeSeries) : M TimeSeries :=
  time_in_pixels <- of_option KeyError (dict_get (time_in_pixels_dict st) key) ;;
  p0 <- index value_range_in_pixels 0 ;;
  r <- subscript value_range ;;
  p1 <- index value_range_in_pixels 1 ;;
  let value :=
    map (fun v => rescale (Fin v) p0 p1 (Fin (fst r)) (Fin (snd r)))
        value_in_pixels in
  let temp_ts := new_TimeSeries (map Fin time_in_pixels) [(key, value)] in
  temp_ts <- match data_units with
             | Some units =>
                 u <- index units i_key ;;
                 add_info temp_ts key "Unit" u
             | None => ret temp_ts
             end ;;
  merge out_ts temp_ts.

Fixpoint merge_curves (st : curves) (value_range : option (Q * Q))
  (value_range_in_pixels : list npfloat) (data_units : option (list string))
  (i_key : nat) (items : list (string * list Q)) (out_ts : TimeSeries)
  : M TimeSeries :=
  match items with
  | [] => ret out_ts
  | (key, value_in_pixels) :: rest =>
      out_ts' <- scale_and_merge st value_range value_range_in_pixels
                   data_units i_key key value_in_pixels out_ts ;;
      merge_curves st value_range value_range_in_pixels data_units
        (S i_key) rest out_ts'
  end.

(** Lines 218-221. *)
Definition scale_time (time_range : option (Q * Q))
  (time_range_in_pixels : list npfloat) (out_ts : TimeSeries)
  : M TimeSeries :=
  p0 <- index time_range_in_pixels 0 ;;
  r <- subscript time_range ;;
  p1 <- index time_range_in_pixels 1 ;;
  ret {| time := map (fun t => rescale t p0 p1 (Fin (fst r)) (Fin (snd r)))
                     (time out_ts);
         data := data out_ts;
         info := info out_ts |}.

(** Lines 85-100: the checked and normalised [data_keys] and
    [data_units]. *)
Definition check_arguments (filename data_keys data_units : pyval)
  : M (list string * option (list string)) :=
  match filename with
  | PyNone => ret tt
  | _ => check_str "filename" filename ;;; ret tt
  end ;;;
  let data_keys :=
    match data_keys with PyStr s => PyList [PyStr s] | _ => data_keys end in
  data_keys <- check_list_str "data_keys" data_keys ;;
  let data_units :=
    match data_units with
    | PyStr u => PyList (map (fun _ => PyStr u) data_keys)
    | _ => data_units
    end in
  data_units <- match data_units with
                | PyNone => ret None
                | _ => units <- check_list_str "data_units" data_units ;;
                       ret (Some units)
                end ;;
  ret (data_keys, data_units).

Definition ui_draw (w : world) (filename : pyval)
  (time_range value_range : option (Q * Q)) (data_keys data_units : pyval)
  : M TimeSeries :=
  args <- check_arguments filename data_keys data_units ;;
  let data_keys := fst args in
  let data_units := snd args in
  img <- load_image w filename ;;
  emit EvFigure ;;;
  imshow img ;;;
  st <- draw_curves w 0 data_keys no_curves ;;
  time_range_in_pixels <- get_time_range w time_range st ;;
  value_range_in_pixels <- get_value_range w value_range st ;;
  emit EvCloseFigure ;;;
  let out_ts :=
    new_TimeSeries (map Fin (new_time (time_in_pixels_dict st))) [] in
  out_ts <- merge_curves st value_range value_range_in_pixels data_units 0
              (value_in_pixels_dict st) out_ts ;;
  scale_time time_range time_range_in_pixels out_ts.

(** The channel that the loop of lines 197-216 adds for one item of
    [value_in_pixels_dict], once the subscripts have succeeded. *)
Definition channel (tdict : list (string * list Q)) (p0 p1 : npfloat)
  (r : Q * Q) (base : list npfloat) (kv : string * list Q)
  : string * list npfloat :=
  let value :=
    map (fun v => rescale (Fin v) p0 p1 (Fin (fst r)) (Fin (snd r)))
        (snd kv) in
  let t := map Fin (match dict_get tdict (fst kv) with
                    | Some t => t
                    | None => []
                    end) in
  (fst kv, if same_time base t then value else resample t value base).

End Digitizer.

(** The info that the loop of lines 197-216 attaches, item by item. *)
Fixpoint unit_info {V : Type} (units : list string) (i : nat)
  (items : list (string * V)) : list (string * list (string * string)) :=
  match items with
  | [] => []
  | (k, _) :: r =>
      match nth_error units i with
      | Some u => (k, [("Unit"%string, u)]) :: unit_info units (S i) r
      | None => []
      end
  end.

(** Modelled from the spec: linear interpolation between the two samples
    that surround [t] (section 4.5, glossary "Resample"); no value (NaN)
    outside the sampled span. An instance for [interp]. *)
Fixpoint linear_interp (ts vs : list npfloat) (t : npfloat) : npfloat :=
  match ts, vs with
  | t0 :: ts', v0 :: vs' =>
      if Np.ltb t t0 then NaN
      else if Np.eqb t t0 then v0
      else match ts', vs' with
           | t1 :: _, v1 :: _ =>
               if Np.ltb t t1
               then Np.add v0 (Np.div (Np.mul (Np.sub t t0) (Np.sub v1 v0))
                                      (Np.sub t1 t0))
               else linear_interp ts' vs' t
           | _, _ => NaN
           end
  | _, _ => NaN
  end.

(** The scenario of section 8 of the specification. *)
Definition scenario : world :=
  {| grabclipboard := GrabImage (Image 0);
     image_open := fun _ => Some (Image 0);
     ginput_curve := fun i =>
       match i with
       | O => [(20, 40); (10, 50); (30, 30)]
       | S O => [(15, 45); (25, 35)]
       | _ => []
       end;
     ginput_time := [(30, 60); (10, 60)];
     ginput_value := [(5, 30); (5, 50)] |}.

(** A session started while the clipboard holds no image. *)
Definition empty_clipboard : world :=
  {| grabclipboard := GrabNone;
     image_open := fun _ => None;
     ginput_curve := fun _ => [(10, 50); (20, 40); (30, 45)];
     ginput_time := [(10, 60); (30, 60)];
     ginput_value := [(5, 50); (5, 30)] |}.

(** A session in which both pairs of calibration clicks coincide on the
    calibrated coordinate. *)
Definition degenerate : world :=
  {| grabclipboard := GrabImage (Image 1);
     image_open := fun _ => None;
     ginput_curve := fun _ => [(10, 50); (20, 40); (30, 45)];
     ginput_time := [(12, 60); (12, 70)];
     ginput_value := [(5, 30); (6, 30)] |}.

(** A session in which the two curves have a click at the same x. *)
Definition shared_instant : world :=
  {| grabclipboard := GrabImage (Image 0);
     image_open := fun _ => Some (Image 0);
     ginput_curve := fun i =>
       match i with
       | O => [(20, 40); (10, 50); (30, 30)]
       | S O => [(20, 45); (25, 35)]
       | _ => []
       end;
     ginput_time := [(30, 60); (10, 60)];
     ginput_value := [(5, 30); (5, 50)] |}.

(** A session in which two clicks of the curve are at neighbouring
    float64 x: 100.25 and the next float64, 100.25 + 2^-46. *)
Definition neighbouring_clicks : world :=
  {| grabclipboard := GrabImage (Image 0);
     image_open := fun _ => Some (Image 0);
     ginput_curve := fun _ =>
       [(401 # 4, 50); (7054466603810817 # 70368744177664, 40)];
     ginput_time := [(0, 60); (800, 60)];
     ginput_value := [(5, 100); (5, 0)] |}.

(** A session in which two clicks of the curve are at the same x. *)
Definition doubled_click : world :=
  {| grabclipboard := GrabImage (Image 0);
     image_open := fun _ => Some (Image 0);
     ginput_curve := fun _ => [(10, 50); (10, 40); (20, 45)];
     ginput_time := [(30, 60); (10, 60)];
     ginput_value := [(5, 30); (5, 50)] |}.

(** The float64 that the literals [0.2], [0.9] and [-0.1] denote. *)
Definition float_0_2 : Q := 3602879701896397 # 18014398509481984.
Definition float_0_9 : Q := 8106479329266893 # 9007199254740992.

(** ** Notions used by the statements *)

(** The rescale map as section 4.4 writes it, on rationals. *)
Definition rescaleQ (pixel pixel_low pixel_high real_low real_high : Q) : Q :=
  (pixel - pixel_low) * (real_high - real_low) / (pixel_high - pixel_low)
  + real_low.

(** How many entries of [l] are the number [x]. *)
Definition count (x : Q) (l : list Q) : nat :=
  List.length (filter (Qeq_bool x) l).

(** The entries of a list of names, each kept at its first occurrence. *)
Fixpoint first_occurrences (seen l : list string) : list string :=
  match l with
  | [] => []
  | k :: r =>
      if existsb (String.eqb k) seen then first_occurrences seen r
      else k :: first_occurrences (seen ++ [k]) r
  end.

(** The curve a call keeps under the name [k]: the clicks of the last
    capture session run for [k]. *)
Definition captured_curve (w : world) (data_keys : list string)
  (k : string) (clicks : list (Q * Q)) : Prop :=
  exists i,
    nth_error data_keys i = Some k /\
    clicks = ginput_curve w i /\
    forall j, (i < j)%nat -> nth_error data_keys j <> Some k.

(** Ascending order of the sort key. *)
Definition key_le {A : Type} (key : A -> Q) (a b : A) : Prop :=
  key a <= key b.

Definition all_nonfinite (l : list npfloat) : Prop :=
  Forall (fun x => Np.is_finite x = false) l.

(** The x pixels and the (negated) y pixels a capture session stores for
    its clicks (lines 141-146). *)
Definition xs_of (clicks : list (Q * Q)) : list Q :=
  map fst (sort_points clicks).

Definition vs_of (clicks : list (Q * Q)) : list Q :=
  map (fun p => - snd p) (sort_points clicks).

Definition on_snd {K V W : Type} (g : V -> W) (kv : K * V) : K * W :=
  (fst kv, g (snd kv)).

(** The dict the capture loop builds from [d], session [i] onwards. *)
Fixpoint stored {V : Type} (f : list (Q * Q) -> V) (w : world) (i : nat)
  (data_keys : list string) (d : list (string * V)) : list (string * V) :=
  match data_keys with
  | [] => d
  | k :: r => stored f w (S i) r (dict_set d k (f (ginput_curve w i)))
  end.

(** The channel of the curve drawn with the clicks [snd kp]: its values
    rescaled with the calibration [(p0, p1)] to [r], taken as they are
    when the curve's own instants are the time base [base], resampled
    onto [base] otherwise. *)
Definition curve_channel
  (interp : list npfloat -> list npfloat -> npfloat -> npfloat)
  (p0 p1 : npfloat) (r : Q * Q) (base : list npfloat)
  (kp : string * list (Q * Q)) : string * list npfloat :=
  (fst kp,
   let value :=
     map (fun v => rescale (Fin v) p0 p1 (Fin (fst r)) (Fin (snd r)))
         (vs_of (snd kp)) in
   if same_time base (map Fin (xs_of (snd kp))) then value
   else resample interp (map Fin (xs_of (snd kp))) value base).

(** The clicks kept for each name. *)
Definition captured (w : world) (data_keys : list string)
  : list (string * list (Q * Q)) :=
  stored (fun c => c) w 0 data_keys [].

(** ** Notions used by the further properties *)

(** The event of loading the image (lines 103-109). *)
Definition load_event (filename : pyval) : list event :=
  match filename with
  | PyNone => [EvGrabClipboard]
  | PyStr f => [EvImageOpen f]
  | _ => []
  end.

(** The events of a complete call, in order: the image is loaded and
    shown, one capture session is run per entry of [data_keys], the axes
    given a range are calibrated, the figure is closed. *)
Definition protocol (filename : pyval) (img : image)
  (data_keys : list string) (time_range value_range : option (Q * Q))
  : list event :=
  load_event filename ++ [EvFigure; EvImshow img] ++
  map EvGinputCurve data_keys ++
  match time_range with Some _ => [EvGinputTimeAxis] | None => [] end ++
  match value_range with Some _ => [EvGinputValueAxis] | None => [] end ++
  [EvCloseFigure].

(** [m] performs a prefix of the events [l], and all of them when it
    returns a value. *)
Definition runs {A : Type} (m : M A) (l : list event) : Prop :=
  (exists rest, l = trace m ++ rest) /\
  (forall a, result m = inr a -> trace m = l).

(** The same world with other clicks. *)
Definition with_time_clicks (w : world) (clicks : list (Q * Q)) : world :=
  {| grabclipboard := grabclipboard w;
     image_open := image_open w;
     ginput_curve := ginput_curve w;
     ginput_time := clicks;
     ginput_value := ginput_value w |}.

Definition with_value_clicks (w : world) (clicks : list (Q * Q)) : world :=
  {| grabclipboard := grabclipboard w;
     image_open := image_open w;
     ginput_curve := ginput_curve w;
     ginput_time := ginput_time w;
     ginput_value := clicks |}.

Definition with_curve_clicks (w : world) (clicks : nat -> list (Q * Q))
  : world :=
  {| grabclipboard := grabclipboard w;
     image_open := image_open w;
     ginput_curve := clicks;
     ginput_time := ginput_time w;
     ginput_value := ginput_value w |}.

(** Strictly ascending sort keys, and equal sort keys. *)
Definition key_lt {A : Type} (key : A -> Q) (a b : A) : Prop :=
  key a < key b.

Definition key_eq {A : Type} (key : A -> Q) (a b : A) : Prop :=
  key a == key b.

(** [m] is the least (resp. greatest) of the numbers that satisfy [P];
    the infinity it starts from when there is none. *)
Definition is_min (m : npfloat) (P : Q -> Prop) : Prop :=
  (m = PosInf /\ forall x, ~ P x) \/
  (exists q, m = Fin q /\ P q /\ forall x, P x -> q <= x).

Definition is_max (m : npfloat) (P : Q -> Prop) : Prop :=
  (m = NegInf /\ forall x, ~ P x) \/
  (exists q, m = Fin q /\ P q /\ forall x, P x -> x <= q).


(** The coordinate [g] of a click of one of the first [n] capture
    sessions. *)
Definition clicked (w : world) (n : nat) (g : Q * Q -> Q) (x : Q) : Prop :=
  exists j c, (j < n)%nat /\ In c (ginput_curve w j) /\ x = g c.

(** * Properties *)

(** ** Rounding to float64 *)

Lemma Qeq_bool_false (a b : Q) : ~ a == b -> Qeq_bool a b = false.
Proof.
  intros H. destruct (Qeq_bool a b) eqn:E; [|reflexivity].
  apply Qeq_bool_eq in E. contradiction.
Qed.

Lemma rne_floor (x : Q) : rne x = Qfloor x \/ rne x = (Qfloor x + 1)%Z.
Proof.
  unfold rne. destruct (_ ?= _); auto. destruct (Z.even _); auto.
Qed.

Lemma rne_mono (x y : Q) : x <= y -> (rne x <= rne y)%Z.
Proof.
  intros H. pose proof (Qfloor_resp_le x y H) as Hf.
  destruct (Z.eq_dec (Qfloor x) (Qfloor y)) as [E|E].
  - unfold rne. rewrite E.
    destruct (Qcompare_spec (x - inject_Z (Qfloor y)) (1 # 2)) as [C|C|C];
    destruct (Qcompare_spec (y - inject_Z (Qfloor y)) (1 # 2)) as [D|D|D];
    try lia; try (destruct (Z.even (Qfloor y)); lia); exfalso; lra.
  - destruct (rne_floor x) as [-> | ->], (rne_floor y) as [-> | ->]; lia.
Qed.

Lemma rne_Z (n : Z) : rne (inject_Z n) = n.
Proof.
  unfold rne. rewrite Qfloor_Z.
  destruct (Qcompare_spec (inject_Z n - inject_Z n) (1 # 2)) as [C|C|C];
    try reflexivity; exfalso; lra.
Qed.

Lemma rne_comp (x y : Q) : x == y -> rne x = rne y.
Proof.
  intros E. unfold rne. rewrite (Qfloor_comp x y E).
  assert (E' : x - inject_Z (Qfloor y) == y - inject_Z (Qfloor y))
    by now rewrite E.
  now rewrite (Qcompare_comp _ _ E' (1#2) (1#2) (Qeq_refl _)).
Qed.

Lemma two_neq_0 : ~ 2 == 0.
Proof. discriminate. Qed.

Lemma pow2_pos (e : Z) : 0 < 2 ^ e.
Proof. apply Qpower_0_lt. reflexivity. Qed.

Lemma pow2_le (a b : Z) : (a <= b)%Z -> 2 ^ a <= 2 ^ b.
Proof. intros H. apply Qpower_le_compat_l; [exact H|discriminate]. Qed.

Lemma pow2_lt (a b : Z) : (a < b)%Z -> 2 ^ a < 2 ^ b.
Proof. intros H. apply Qpower_lt_compat_l; [exact H|reflexivity]. Qed.

Lemma pow2_div (k e : Z) : (k <= e)%Z -> 2 ^ e / 2 ^ k == inject_Z (2 ^ (e - k)).
Proof.
  intros H. rewrite <- Qpower_minus by exact two_neq_0.
  rewrite Zpower_Qpower by lia. reflexivity.
Qed.

Lemma round_to_mono (k : Z) (x y : Q) : x <= y -> round_to k x <= round_to k y.
Proof.
  intros H. unfold round_to. pose proof (pow2_pos k) as Hk.
  apply Qmult_le_compat_r; [|lra].
  rewrite <- Zle_Qle. apply rne_mono.
  apply Qmult_le_compat_r; [exact H|].
  apply Qlt_le_weak, Qinv_lt_0_compat, Hk.
Qed.

Lemma round_to_comp (k : Z) (x y : Q) : x == y -> round_to k x == round_to k y.
Proof.
  intros E. unfold round_to.
  rewrite (rne_comp (x / 2 ^ k) (y / 2 ^ k)); [reflexivity|]. now rewrite E.
Qed.

Lemma round_to_pow2 (k e : Z) : (k <= e)%Z -> round_to k (2 ^ e) == 2 ^ e.
Proof.
  intros H. unfold round_to.
  rewrite (rne_comp _ _ (pow2_div k e H)), rne_Z.
  rewrite <- (pow2_div k e H). field. pose proof (pow2_pos k). lra.
Qed.

Lemma round_to_0 (k : Z) : round_to k 0 == 0.
Proof.
  unfold round_to. rewrite (rne_comp (0 / 2 ^ k) (inject_Z 0)), rne_Z.
  - ring.
  - unfold Qdiv. ring.
Qed.

Lemma rne_opp (x : Q) : rne (- x) = (- rne x)%Z.
Proof.
  unfold rne.
  pose proof (Qfloor_le x) as H1. pose proof (Qlt_floor x) as H2.
  pose proof (Qfloor_le (- x)) as H3. pose proof (Qlt_floor (- x)) as H4.
  rewrite inject_Z_plus in H2, H4.
  destruct (Qeq_dec x (inject_Z (Qfloor x))) as [E|E].
  - assert (F : Qfloor (- x) = (- Qfloor x)%Z).
    { rewrite (Qfloor_comp (- x) (inject_Z (- Qfloor x))).
      - apply Qfloor_Z.
      - rewrite inject_Z_opp. now rewrite <- E. }
    rewrite F.
    destruct (Qcompare_spec (x - inject_Z (Qfloor x)) (1 # 2)) as [C|C|C];
      try (exfalso; lra).
    destruct (Qcompare_spec (- x - inject_Z (- Qfloor x)) (1 # 2)) as [D|D|D];
      try reflexivity; exfalso; rewrite inject_Z_opp in D; lra.
  - assert (F : Qfloor (- x) = (- Qfloor x - 1)%Z).
    { assert (L : (Qfloor (- x) < - Qfloor x)%Z).
      { rewrite Zlt_Qlt, inject_Z_opp.
        destruct (Qlt_le_dec (inject_Z (Qfloor (- x))) (- inject_Z (Qfloor x)))
          as [L|L]; [exact L|].
        exfalso. apply E. lra. }
      assert (G : (- Qfloor x - 1 <= Qfloor (- x))%Z).
      { apply Z.lt_succ_r. unfold Z.succ.
        rewrite Zlt_Qlt, inject_Z_plus. unfold Zminus.
        rewrite inject_Z_plus, !inject_Z_opp.
        change (inject_Z 1) with 1 in *. lra. }
      lia. }
    rewrite F. unfold Zminus. rewrite inject_Z_plus, !inject_Z_opp.
    change (inject_Z 1) with 1.
    destruct (Qcompare_spec (x - inject_Z (Qfloor x)) (1 # 2)) as [C|C|C];
    destruct (Qcompare_spec (- x - (- inject_Z (Qfloor x) + - (1)))
                (1 # 2)) as [D|D|D];
      try (exfalso; lra); try lia.
    replace (- Qfloor x + - (1))%Z with (- (Qfloor x + 1))%Z by lia.
    rewrite Z.even_opp, Z.even_add. simpl (Z.even 1).
    destruct (Z.even (Qfloor x)); simpl; lia.
Qed.

Lemma round_to_opp (k : Z) (x : Q) : round_to k (- x) == - round_to k x.
Proof.
  unfold round_to.
  rewrite (rne_comp (- x / 2 ^ k) (- (x / 2 ^ k))), rne_opp, inject_Z_opp.
  - ring.
  - unfold Qdiv. ring.
Qed.

Lemma Zlog2_pow2 (n : Z) : (0 < n)%Z ->
  inject_Z 2 ^ Z.log2 n <= inject_Z n /\ inject_Z n < inject_Z 2 ^ (Z.log2 n + 1).
Proof.
  intros H. pose proof (Z.log2_nonneg n) as Hn.
  destruct (Z.log2_spec n H) as [L U].
  rewrite <- !Zpower_Qpower by lia.
  split; [now rewrite <- Zle_Qle|].
  rewrite <- Zlt_Qlt. now rewrite Z.add_1_r.
Qed.


Lemma frac_lt (n d a b : Q) :
  0 < d -> 0 < b -> n * b < a * d -> n / d < a / b.
Proof.
  intros Hd Hb H. apply Qlt_shift_div_l; [exact Hb|].
  setoid_replace (n / d * b) with (n * b / d) by (field; lra).
  apply Qlt_shift_div_r; [exact Hd|exact H].
Qed.

Lemma ilog2_spec (x : Q) :
  ~ x == 0 -> 2 ^ ilog2 x <= Qabs x /\ Qabs x < 2 ^ (ilog2 x + 1).
Proof.
  intros Hx. unfold ilog2.
  set (n := Z.abs (Qnum x)). set (d := Zpos (Qden x)).
  assert (Hn : (0 < n)%Z).
  { unfold n. destruct x as [[|p|p] q]; simpl; try lia.
    exfalso. apply Hx. reflexivity. }
  assert (Hd : (0 < d)%Z) by (unfold d; lia).
  assert (Ex : Qabs x == inject_Z n / inject_Z d).
  { unfold n, d. destruct x as [a q]. unfold Qabs. simpl Qnum. simpl Qden.
    rewrite (Qmake_Qdiv (Z.abs a) q). reflexivity. }
  destruct (Zlog2_pow2 n Hn) as [Ln Un].
  destruct (Zlog2_pow2 d Hd) as [Ld Ud].
  change (inject_Z 2) with 2 in *.
  set (a := Z.log2 n) in *. set (b := Z.log2 d) in *.
  assert (Dpos : 0 < inject_Z d).
  { change 0 with (inject_Z 0). now rewrite <- Zlt_Qlt. }
  assert (Npos : 0 < inject_Z n).
  { change 0 with (inject_Z 0). now rewrite <- Zlt_Qlt. }
  pose proof (pow2_pos a) as Pa. pose proof (pow2_pos b) as Pb.
  assert (Ea : 2 ^ (a + 1) == 2 * 2 ^ a).
  { rewrite Qpower_plus by exact two_neq_0. rewrite Qpower_1_r. ring. }
  assert (Eb : 2 ^ (b + 1) == 2 * 2 ^ b).
  { rewrite Qpower_plus by exact two_neq_0. rewrite Qpower_1_r. ring. }
  rewrite Ea in Un. rewrite Eb in Ud.
  assert (U : Qabs x < 2 ^ (a - b + 1)).
  { rewrite Ex. replace (a - b + 1)%Z with ((a + 1) - b)%Z by lia.
    rewrite Qpower_minus by exact two_neq_0. rewrite Ea.
    apply frac_lt; [exact Dpos|exact Pb|]. nra. }
  assert (L : 2 ^ (a - b - 1) < Qabs x).
  { rewrite Ex. replace (a - b - 1)%Z with (a - (b + 1))%Z by lia.
    rewrite Qpower_minus by exact two_neq_0. rewrite Eb.
    apply frac_lt; [lra|exact Dpos|]. nra. }
  destruct (Qle_bool (2 ^ (a - b)) (Qabs x)) eqn:T.
  - apply Qle_bool_iff in T. split; assumption.
  - assert (T' : Qabs x < 2 ^ (a - b)).
    { destruct (Qlt_le_dec (Qabs x) (2 ^ (a - b))) as [H|H]; [exact H|].
      apply Qle_bool_iff in H. congruence. }
    replace (a - b - 1 + 1)%Z with (a - b)%Z by lia.
    split; [lra|exact T'].
Qed.

Lemma ilog2_mono (x y : Q) :
  ~ x == 0 -> ~ y == 0 -> Qabs x <= Qabs y -> (ilog2 x <= ilog2 y)%Z.
Proof.
  intros Hx Hy H.
  destruct (ilog2_spec x Hx) as [Lx Ux]. destruct (ilog2_spec y Hy) as [Ly Uy].
  destruct (Z_le_gt_dec (ilog2 x) (ilog2 y)) as [L|G]; [exact L|].
  exfalso. assert (P : 2 ^ (ilog2 y + 1) <= 2 ^ ilog2 x) by (apply pow2_le; lia).
  lra.
Qed.

Lemma quantum_le_ilog2 (x : Q) : (quantum x < ilog2 x \/ quantum x = -1074)%Z.
Proof. unfold quantum. lia. Qed.

Lemma rounded_pos_mono (x y : Q) :
  0 < x -> x <= y -> rounded x <= rounded y.
Proof.
  intros Hx H. unfold rounded.
  assert (Nx : ~ x == 0) by lra. assert (Ny : ~ y == 0) by lra.
  rewrite (Qeq_bool_false x 0 Nx), (Qeq_bool_false y 0 Ny).
  destruct (ilog2_spec x Nx) as [Lx Ux]. destruct (ilog2_spec y Ny) as [Ly Uy].
  rewrite (Qabs_pos x) in * by lra. rewrite (Qabs_pos y) in * by lra.
  assert (He : (ilog2 x <= ilog2 y)%Z).
  { apply ilog2_mono; trivial. rewrite !Qabs_pos by lra. exact H. }
  destruct (Z.eq_dec (quantum x) (quantum y)) as [E|E].
  - rewrite E. now apply round_to_mono.
  - assert (Hq : (quantum x < quantum y)%Z) by (unfold quantum in *; lia).
    assert (Hy : (quantum y = ilog2 y - 52)%Z) by (unfold quantum in *; lia).
    assert (Hlt : (ilog2 x < ilog2 y)%Z) by (unfold quantum in *; lia).
    apply Qle_trans with (2 ^ ilog2 y).
    + rewrite <- (round_to_pow2 (quantum x) (ilog2 y)) by lia.
      apply round_to_mono.
      assert (P : 2 ^ (ilog2 x + 1) <= 2 ^ ilog2 y) by (apply pow2_le; lia).
      lra.
    + rewrite <- (round_to_pow2 (quantum y) (ilog2 y)) at 1 by lia.
      now apply round_to_mono.
Qed.

Lemma ilog2_opp (x : Q) : ilog2 (- x) = ilog2 x.
Proof.
  unfold ilog2. destruct x as [a q]. simpl Qnum. simpl Qden.
  rewrite Z.abs_opp. rewrite Qabs_opp. reflexivity.
Qed.

Lemma rounded_opp (x : Q) : rounded (- x) == - rounded x.
Proof.
  unfold rounded.
  destruct (Qeq_bool x 0) eqn:E.
  - apply Qeq_bool_eq in E.
    assert (E' : Qeq_bool (- x) 0 = true) by (apply Qeq_eq_bool; lra).
    rewrite E'. reflexivity.
  - assert (E' : Qeq_bool (- x) 0 = false).
    { apply Qeq_bool_false. intros F.
      assert (G : Qeq_bool x 0 = true) by (apply Qeq_eq_bool; lra).
      congruence. }
    rewrite E'. unfold quantum. rewrite ilog2_opp. apply round_to_opp.
Qed.

Lemma rounded_nonneg (x : Q) : 0 <= x -> 0 <= rounded x.
Proof.
  intros H. unfold rounded. destruct (Qeq_bool x 0); [lra|].
  rewrite <- (round_to_0 (quantum x)). now apply round_to_mono.
Qed.

Lemma rounded_mono (x y : Q) : x <= y -> rounded x <= rounded y.
Proof.
  intros H.
  destruct (Qlt_le_dec 0 x) as [Px|Nx].
  - now apply rounded_pos_mono.
  - destruct (Qlt_le_dec y 0) as [Ny|Py].
    + assert (G : rounded (- y) <= rounded (- x))
        by (apply rounded_pos_mono; lra).
      rewrite !rounded_opp in G. lra.
    + pose proof (rounded_nonneg y Py).
      assert (G : 0 <= rounded (- x)) by (apply rounded_nonneg; lra).
      rewrite rounded_opp in G. lra.
Qed.

Lemma ilog2_unique (x : Q) (e : Z) :
  2 ^ e <= Qabs x -> Qabs x < 2 ^ (e + 1) -> ~ x == 0 -> ilog2 x = e.
Proof.
  intros L U Hx. destruct (ilog2_spec x Hx) as [L' U'].
  destruct (Z.lt_trichotomy (ilog2 x) e) as [H|[H|H]]; [|exact H|]; exfalso.
  - assert (P : 2 ^ (ilog2 x + 1) <= 2 ^ e) by (apply pow2_le; lia). lra.
  - assert (P : 2 ^ (e + 1) <= 2 ^ ilog2 x) by (apply pow2_le; lia). lra.
Qed.

Lemma ilog2_comp (x y : Q) : x == y -> ~ x == 0 -> ilog2 x = ilog2 y.
Proof.
  intros E Hx. assert (Hy : ~ y == 0) by (rewrite <- E; exact Hx).
  destruct (ilog2_spec y Hy) as [L U].
  apply ilog2_unique; [now rewrite E|now rewrite E|exact Hx].
Qed.

Lemma rounded_comp (x y : Q) : x == y -> rounded x == rounded y.
Proof.
  intros E. unfold rounded.
  destruct (Qeq_bool x 0) eqn:Hx.
  - apply Qeq_bool_eq in Hx.
    assert (Hy : Qeq_bool y 0 = true) by (apply Qeq_eq_bool; lra).
    now rewrite Hy.
  - assert (Nx : ~ x == 0).
    { intros F. apply Qeq_eq_bool in F. congruence. }
    assert (Hy : Qeq_bool y 0 = false) by (apply Qeq_bool_false; lra).
    rewrite Hy. unfold quantum. rewrite (ilog2_comp x y E Nx).
    now apply round_to_comp.
Qed.

Lemma Qle_bool_comp (a b c d : Q) : a == c -> b == d -> Qle_bool a b = Qle_bool c d.
Proof.
  intros E F. destruct (Qle_bool a b) eqn:H, (Qle_bool c d) eqn:G; trivial.
  - apply Qle_bool_iff in H. rewrite E, F in H. apply Qle_bool_iff in H. congruence.
  - apply Qle_bool_iff in G. rewrite <- E, <- F in G. apply Qle_bool_iff in G. congruence.
Qed.

Lemma round64_Fin (x v : Q) : round64 x = Fin v -> v == rounded x.
Proof.
  unfold round64.
  destruct (Qle_bool _ _); [discriminate|].
  destruct (Qle_bool _ _); [discriminate|].
  intros H. injection H as <-. apply Qred_correct.
Qed.

(** Rounding keeps the order. *)
Lemma round64_mono (x y u v : Q) :
  x <= y -> round64 x = Fin u -> round64 y = Fin v -> u <= v.
Proof.
  intros H Hx Hy. apply round64_Fin in Hx, Hy. rewrite Hx, Hy.
  now apply rounded_mono.
Qed.

Lemma round64_comp (x y : Q) : x == y -> round64 x = round64 y.
Proof.
  intros E. unfold round64.
  pose proof (rounded_comp x y E) as R.
  rewrite (Qle_bool_comp _ _ _ _ (Qeq_refl (2 ^ 1024)) R).
  rewrite (Qle_bool_comp _ _ _ _ R (Qeq_refl (- 2 ^ 1024))).
  now rewrite (Qred_complete _ _ R).
Qed.


Lemma round64_zero (x : Q) : x == 0 -> round64 x = Fin 0.
Proof. intros E. rewrite (round64_comp x 0 E). reflexivity. Qed.

Lemma round64_nonneg (x v : Q) : 0 <= x -> round64 x = Fin v -> 0 <= v.
Proof.
  intros H E. apply (round64_mono 0 x 0 v H); [reflexivity|exact E].
Qed.

Lemma round64_nonpos (x v : Q) : x <= 0 -> round64 x = Fin v -> v <= 0.
Proof.
  intros H E. apply (round64_mono x 0 v 0 H); [exact E|reflexivity].
Qed.

(** ** The arithmetic of float64 *)

Lemma add_Fin (x y : npfloat) (v : Q) :
  Np.add x y = Fin v ->
  exists a b, x = Fin a /\ y = Fin b /\ round64 (a + b) = Fin v.
Proof. destruct x, y; simpl; try discriminate; eauto. Qed.

Lemma sub_Fin (x y : npfloat) (v : Q) :
  Np.sub x y = Fin v ->
  exists a b, x = Fin a /\ y = Fin b /\ round64 (a - b) = Fin v.
Proof.
  unfold Np.sub. intros H. apply add_Fin in H as (a & b & -> & Hy & H).
  destruct y as [c| | |]; simpl in Hy; try discriminate.
  injection Hy as <-. eauto.
Qed.

Lemma mul_Fin (x y : npfloat) (v : Q) :
  Np.mul x y = Fin v ->
  exists a b, x = Fin a /\ y = Fin b /\ round64 (a * b) = Fin v.
Proof.
  destruct x as [a| | |], y as [b| | |]; simpl; try discriminate; eauto;
    unfold Np.inf_of, Np.flip; destruct (Np.sgn _); discriminate.
Qed.

Lemma div_Fin (x y : npfloat) (v : Q) :
  Np.div x y = Fin v ->
  exists a, x = Fin a /\
    ((exists b, y = Fin b /\ ~ b == 0 /\ round64 (a / b) = Fin v) \/
     ((y = PosInf \/ y = NegInf) /\ v = 0)).
Proof.
  destruct x as [a| | |], y as [b| | |]; simpl; try discriminate.
  - destruct (Qeq_bool b 0) eqn:E.
    + unfold Np.inf_of. destruct (Np.sgn a); discriminate.
    + intros H. exists a. split; [reflexivity|]. left. exists b.
      split; [reflexivity|]. split; [|exact H].
      intros F. apply Qeq_eq_bool in F. congruence.
  - intros H. injection H as <-. eauto 6.
  - intros H. injection H as <-. eauto 6.
  - destruct (Np.sgn b); discriminate.
  - destruct (Np.sgn b); discriminate.
Qed.

Lemma add_nonfinite (x y : npfloat) :
  Np.is_finite x = false -> Np.is_finite (Np.add x y) = false.
Proof. destruct x, y; simpl; congruence. Qed.

Lemma div_by_zero (x : npfloat) (b : Q) :
  b == 0 -> Np.is_finite (Np.div x (Fin b)) = false.
Proof.
  intros E. destruct x as [a| | |]; simpl.
  - rewrite (Qeq_eq_bool _ _ E). unfold Np.inf_of. now destruct (Np.sgn a).
  - now destruct (Np.sgn b).
  - now destruct (Np.sgn b).
  - reflexivity.
Qed.

(** ** The rescale map *)

(** What a finite result of the rescale is made of: every operation has
    given a finite number, and the pixel span is not zero. *)
Lemma rescale_Fin (p pl ph rl rh v : Q) :
  rescale (Fin p) (Fin pl) (Fin ph) (Fin rl) (Fin rh) = Fin v ->
  exists u dr m q,
    round64 (p - pl) = Fin u /\ round64 (rh - rl) = Fin dr /\
    round64 (u * dr) = Fin m /\
    ((exists dp, round64 (ph - pl) = Fin dp /\ ~ dp == 0 /\
                 round64 (m / dp) = Fin q) \/
     ((round64 (ph - pl) = PosInf \/ round64 (ph - pl) = NegInf) /\ q = 0)) /\
    round64 (q + rl) = Fin v.
Proof.
  unfold rescale. intros H.
  apply add_Fin in H as (q & rl' & Hq & Hrl & H). injection Hrl as <-.
  apply div_Fin in Hq as (m & Hm & Hd).
  apply mul_Fin in Hm as (u & dr & Hu & Hdr & Hm).
  apply sub_Fin in Hu as (p' & pl' & Ep & Epl & Hu).
  injection Ep as <-. injection Epl as <-.
  apply sub_Fin in Hdr as (rh' & rl' & Erh & Erl & Hdr).
  injection Erh as <-. injection Erl as <-.
  exists u, dr, m, q.
  split; [exact Hu|]. split; [exact Hdr|]. split; [exact Hm|].
  split; [|exact H].
  destruct Hd as [(dp & Hdp & Hn & Hd)|[Hd ->]].
  - left. exists dp. apply sub_Fin in Hdp as (ph' & pl' & Eph & Epl & Hdp).
    injection Eph as <-. injection Epl as <-. auto.
  - right. split; [|reflexivity]. exact Hd.
Qed.

(** The rescale, as float64 computes it, keeps the order of the pixels
    when the real range is increasing, and reverses it when the real
    range is decreasing. *)
Lemma rescale_mono (p q pl ph rl rh v vq : Q) :
  pl <= ph -> p <= q ->
  rescale (Fin p) (Fin pl) (Fin ph) (Fin rl) (Fin rh) = Fin v ->
  rescale (Fin q) (Fin pl) (Fin ph) (Fin rl) (Fin rh) = Fin vq ->
  (rl <= rh -> v <= vq) /\ (rh <= rl -> vq <= v).
Proof.
  intros Hspan Hpq Hp Hq.
  apply rescale_Fin in Hp as (u & dr & m & t & Hu & Hdr & Hm & Hd & Hv).
  apply rescale_Fin in Hq as (u' & dr' & m' & t' & Hu' & Hdr' & Hm' & Hd' & Hv').
  assert (dr' = dr) by congruence. subst dr'.
  assert (Lu : u <= u').
  { apply (round64_mono (p - pl) (q - pl)); [lra|assumption|assumption]. }
  assert (Hdiv : forall a b, a <= b ->
            round64 (u * dr) = Fin a \/ round64 (u' * dr) = Fin a ->
            round64 (u * dr) = Fin b \/ round64 (u' * dr) = Fin b ->
            forall ta tb,
              ((exists dp, round64 (ph - pl) = Fin dp /\ ~ dp == 0 /\
                           round64 (a / dp) = Fin ta) \/
               ((round64 (ph - pl) = PosInf \/ round64 (ph - pl) = NegInf) /\
                ta = 0)) ->
              ((exists dp, round64 (ph - pl) = Fin dp /\ ~ dp == 0 /\
                           round64 (b / dp) = Fin tb) \/
               ((round64 (ph - pl) = PosInf \/ round64 (ph - pl) = NegInf) /\
                tb = 0)) ->
              ta <= tb).
  { intros a b Hab _ _ ta tb
      [(dp & Hdp & Hn & Ha)|[Hi ->]] [(dp' & Hdp' & Hn' & Hb)|[Hi' ->]].
    - assert (dp' = dp) by congruence. subst dp'.
      assert (Pd : 0 < dp).
      { pose proof (round64_nonneg (ph - pl) dp ltac:(lra) Hdp).
        destruct (Qlt_le_dec 0 dp) as [L|L]; [exact L|].
        exfalso. apply Hn. lra. }
      apply (round64_mono (a / dp) (b / dp)); [|assumption|assumption].
      apply Qmult_le_compat_r; [exact Hab|].
      apply Qlt_le_weak, Qinv_lt_0_compat, Pd.
    - destruct Hi' as [Hi'|Hi']; congruence.
    - destruct Hi as [Hi|Hi]; congruence.
    - lra. }
  split; intros Hr.
  - pose proof (round64_nonneg (rh - rl) dr ltac:(lra) Hdr) as Pdr.
    assert (Lm : m <= m').
    { apply (round64_mono (u * dr) (u' * dr)); [nra|assumption|assumption]. }
    assert (Lt : t <= t') by (apply (Hdiv m m' Lm); auto).
    apply (round64_mono (t + rl) (t' + rl)); [lra|assumption|assumption].
  - pose proof (round64_nonpos (rh - rl) dr ltac:(lra) Hdr) as Pdr.
    assert (Lm : m' <= m).
    { apply (round64_mono (u' * dr) (u * dr)); [nra|assumption|assumption]. }
    assert (Lt : t' <= t) by (apply (Hdiv m' m Lm); auto).
    apply (round64_mono (t' + rl) (t + rl)); [lra|assumption|assumption].
Qed.


Lemma rescale_zero_span (p pl ph rl rh : Q) :
  ph == pl ->
  Np.is_finite (rescale (Fin p) (Fin pl) (Fin ph) (Fin rl) (Fin rh)) = false.
Proof.
  intros H. unfold rescale. apply add_nonfinite.
  assert (E : Np.sub (Fin ph) (Fin pl) = Fin 0).
  { unfold Np.sub. simpl. apply round64_zero. lra. }
  rewrite E. apply div_by_zero. reflexivity.
Qed.

(** Pixels in ascending order are mapped, when the real range is
    increasing, to numbers in ascending order. *)
Lemma rescale_sorted (a b rl rh : Q) (base ts : list Q) :
  a <= b -> rl <= rh -> StronglySorted Qlt base ->
  map (fun x => rescale (Fin x) (Fin a) (Fin b) (Fin rl) (Fin rh)) base
  = map Fin ts ->
  StronglySorted Qle ts.
Proof.
  intros Hab Hr Hs. revert ts.
  induction Hs as [|x base Hs IH Hall]; intros [|t ts] E; try discriminate.
  - constructor.
  - simpl in E. injection E as Ex E. constructor; [now apply IH|].
    rewrite Forall_forall in *. intros t' Ht'.
    apply (in_map Fin) in Ht'. rewrite <- E in Ht'.
    apply in_map_iff in Ht' as (x' & Ex' & Hx').
    specialize (Hall x' Hx').
    apply (rescale_mono x x' a b rl rh t t' Hab (Qlt_le_weak _ _ Hall)
             Ex Ex'), Hr.
Qed.



Lemma rescaleQ_affine (p pl ph rl rh : Q) :
  ~ ph == pl ->
  rescaleQ p pl ph rl rh * (ph - pl) == (p - pl) * (rh - rl) + rl * (ph - pl).
Proof. intros H. unfold rescaleQ. field. intros E. apply H. lra. Qed.






(** ** Sorting *)

Lemma Qltb_true (a b : Q) : Qltb a b = true <-> a < b.
Proof.
  unfold Qltb. rewrite Qlt_alt. destruct (a ?= b); split; congruence.
Qed.

Lemma Qltb_false (a b : Q) : Qltb a b = false <-> b <= a.
Proof.
  split; intros H.
  - destruct (Qlt_le_dec a b) as [L|L]; [|exact L].
    apply Qltb_true in L. congruence.
  - destruct (Qltb a b) eqn:E; [|reflexivity].
    apply Qltb_true in E. lra.
Qed.

Section SortBy.

Context {A : Type} (key : A -> Q).

Lemma insert_by_In (a x : A) (l : list A) :
  In x (insert_by key a l) <-> x = a \/ In x l.
Proof.
  induction l as [|y r IH]; simpl.
  - intuition.
  - destruct (Qltb (key y) (key a)); simpl; [|intuition].
    rewrite IH. intuition.
Qed.

Lemma sort_by_In (x : A) (l : list A) : In x (sort_by key l) <-> In x l.
Proof.
  induction l as [|a r IH]; simpl; [tauto|].
  rewrite insert_by_In, IH. intuition.
Qed.

Lemma insert_by_length (a : A) (l : list A) :
  List.length (insert_by key a l) = S (List.length l).
Proof.
  induction l as [|y r IH]; simpl; [reflexivity|].
  destruct (Qltb (key y) (key a)); simpl; [|reflexivity].
  now rewrite IH.
Qed.

Lemma sort_by_length (l : list A) :
  List.length (sort_by key l) = List.length l.
Proof.
  induction l as [|a r IH]; simpl; [reflexivity|].
  now rewrite insert_by_length, IH.
Qed.

Lemma sort_by_nonempty (l : list A) : l <> [] -> sort_by key l <> [].
Proof.
  intros H E. apply (f_equal (@List.length A)) in E.
  rewrite sort_by_length in E. destruct l; [congruence|discriminate].
Qed.

Lemma insert_by_sorted (a : A) (l : list A) :
  StronglySorted (key_le key) l ->
  StronglySorted (key_le key) (insert_by key a l).
Proof.
  induction 1 as [|y r Hs IH Hall]; simpl.
  - constructor; constructor.
  - destruct (Qltb (key y) (key a)) eqn:E.
    + apply Qltb_true in E. constructor; [exact IH|].
      rewrite Forall_forall in *. intros z Hz.
      apply insert_by_In in Hz. destruct Hz as [->|Hz];
        [unfold key_le; lra|].
      now apply Hall.
    + apply Qltb_false in E. constructor.
      * constructor; assumption.
      * constructor; [exact E|].
        rewrite Forall_forall in *. intros z Hz.
        specialize (Hall z Hz). unfold key_le in *. lra.
Qed.

Lemma sort_by_sorted (l : list A) :
  StronglySorted (key_le key) (sort_by key l).
Proof.
  induction l as [|a r IH]; simpl; [constructor|].
  now apply insert_by_sorted.
Qed.

End SortBy.

Section SortPermutation.

Context {A : Type} (key : A -> Q).

Lemma insert_by_perm (a : A) (l : list A) :
  Permutation (insert_by key a l) (a :: l).
Proof.
  induction l as [|y r IH]; simpl; [reflexivity|].
  destruct (Qltb (key y) (key a)); [|reflexivity].
  rewrite IH. apply perm_swap.
Qed.

Lemma sort_by_perm (l : list A) : Permutation (sort_by key l) l.
Proof.
  induction l as [|a r IH]; simpl; [reflexivity|].
  rewrite insert_by_perm. now constructor.
Qed.

Lemma insert_by_strict (a : A) (l : list A) :
  StronglySorted (key_lt key) l ->
  (forall y, In y l -> ~ key a == key y) ->
  StronglySorted (key_lt key) (insert_by key a l).
Proof.
  induction 1 as [|y r Hs IH Hall]; simpl; intros Hne.
  - constructor; constructor.
  - destruct (Qltb (key y) (key a)) eqn:E.
    + apply Qltb_true in E. constructor.
      * apply IH. intros z Hz. apply Hne. now right.
      * rewrite Forall_forall in *. intros z Hz.
        apply insert_by_In in Hz. destruct Hz as [->|Hz]; [exact E|].
        now apply Hall.
    + apply Qltb_false in E.
      assert (L : key a < key y).
      { specialize (Hne y (or_introl eq_refl)).
        destruct (Qlt_le_dec (key a) (key y)) as [L|L]; [exact L|].
        exfalso. apply Hne. lra. }
      constructor; [now constructor|].
      constructor; [exact L|].
      rewrite Forall_forall in *. intros z Hz.
      specialize (Hall z Hz). unfold key_lt in *. lra.
Qed.

Lemma sort_by_strict (l : list A) :
  NoDupA (key_eq key) l -> StronglySorted (key_lt key) (sort_by key l).
Proof.
  induction 1 as [|a r Ha Hr IH]; simpl; [constructor|].
  apply insert_by_strict; [exact IH|].
  intros y Hy E. apply Ha. rewrite InA_alt. exists y. split; [exact E|].
  exact (proj1 (sort_by_In key y r) Hy).
Qed.

Lemma strictly_sorted_unique (l1 l2 : list A) :
  StronglySorted (key_lt key) l1 -> StronglySorted (key_lt key) l2 ->
  Permutation l1 l2 -> l1 = l2.
Proof.
  intros H1. revert l2. induction H1 as [|a r1 Hs1 IH Hall1];
    intros l2 H2 Hp.
  - apply Permutation_nil in Hp. now subst.
  - destruct H2 as [|b r2 Hs2 Hall2].
    + apply Permutation_sym, Permutation_nil in Hp. discriminate.
    + assert (a = b).
      { rewrite Forall_forall in Hall1, Hall2.
        assert (Ha : In a (b :: r2))
          by (apply (Permutation_in _ Hp); now left).
        assert (Hb : In b (a :: r1))
          by (apply (Permutation_in _ (Permutation_sym Hp)); now left).
        destruct Ha as [Ha|Ha]; [now symmetry|].
        destruct Hb as [Hb|Hb]; [exact Hb|].
        specialize (Hall1 b Hb). specialize (Hall2 a Ha).
        unfold key_lt in *. lra. }
      subst b. f_equal. apply IH; [exact Hs2|].
      now apply Permutation_cons_inv in Hp.
Qed.

Lemma NoDupA_key_perm (l l' : list A) :
  Permutation l l' -> NoDupA (key_eq key) l -> NoDupA (key_eq key) l'.
Proof.
  assert (Hin : forall x l l', Permutation l l' ->
            InA (key_eq key) x l -> InA (key_eq key) x l').
  { intros x m m' Hp. rewrite !InA_alt. intros (y & E & Hy).
    exists y. split; [exact E|]. now apply (Permutation_in _ Hp). }
  induction 1 as [|x m m' Hp IH|x y m|m m' m'' Hp1 IH1 Hp2 IH2]; intros Hd.
  - constructor.
  - inversion Hd as [|? ? Hx Hm]; subst. constructor; [|now apply IH].
    intros H. apply Hx. now apply (Hin x m' m (Permutation_sym Hp)).
  - inversion Hd as [|? ? Hy Hm]; subst.
    inversion Hm as [|? ? Hx Hm']; subst.
    constructor; [|constructor; [|exact Hm']].
    + intros H. inversion H; subst; [|contradiction].
      apply Hy. constructor. unfold key_eq in *. now symmetry.
    + intros H. apply Hy. now constructor 2.
  - auto.
Qed.

(** Sorting forgets the order of a list whose keys are pairwise
    different. *)
Lemma sort_by_order_free (l l' : list A) :
  NoDupA (key_eq key) l -> Permutation l l' ->
  sort_by key l = sort_by key l'.
Proof.
  intros Hd Hp. apply strictly_sorted_unique.
  - now apply sort_by_strict.
  - apply sort_by_strict. now apply (NoDupA_key_perm l l').
  - rewrite !sort_by_perm. exact Hp.
Qed.

End SortPermutation.

Lemma sorted_keys_map {A : Type} (key : A -> Q) (l : list A) :
  StronglySorted (key_le key) l -> StronglySorted Qle (map key l).
Proof.
  induction 1 as [|a r Hs IH Hall]; simpl; constructor; [exact IH|].
  rewrite Forall_forall in *. intros y Hy.
  apply in_map_iff in Hy as (x & <- & Hx). now apply Hall.
Qed.

Lemma strictly_sorted_keys_map {A : Type} (key : A -> Q) (l : list A) :
  StronglySorted (key_lt key) l -> StronglySorted Qlt (map key l).
Proof.
  induction 1 as [|a r Hs IH Hall]; simpl; constructor; [exact IH|].
  rewrite Forall_forall in *. intros y Hy.
  apply in_map_iff in Hy as (x & <- & Hx). now apply Hall.
Qed.


Lemma increasing_sorted (l : list Q) :
  StronglySorted Qlt l -> increasing (map Fin l) = true.
Proof.
  induction 1 as [|a r Hs IH Hall]; [reflexivity|].
  destruct r as [|y r']; [reflexivity|].
  change (increasing (map Fin (a :: y :: r')))
    with (Np.ltb (Fin a) (Fin y) && increasing (map Fin (y :: r'))).
  rewrite IH, andb_true_r.
  inversion Hall as [|? ? Hy _]; subst.
  unfold Np.ltb. rewrite (proj1 (Qlt_alt a y) Hy). reflexivity.
Qed.


Lemma sorted_InA (x : Q) (l : list Q) :
  InA Qeq x (sorted l) <-> InA Qeq x l.
Proof.
  unfold sorted. rewrite !InA_alt.
  split; intros (y & E & H); exists y; split; trivial.
  - exact (proj1 (sort_by_In (fun x => x) y l) H).
  - exact (proj2 (sort_by_In (fun x => x) y l) H).
Qed.

Lemma insert_NoDupA (a : Q) (l : list Q) :
  ~ InA Qeq a l -> NoDupA Qeq l ->
  NoDupA Qeq (insert_by (fun x => x) a l).
Proof.
  induction l as [|y r IH]; simpl; intros Hn Hd.
  - constructor; [intros H; inversion H | constructor].
  - destruct (Qltb y a).
    + inversion Hd as [|? ? Hy Hr]; subst.
      constructor.
      * rewrite InA_alt. intros (z & E & Hz).
        apply insert_by_In in Hz. destruct Hz as [->|Hz].
        -- apply Hn. constructor. now symmetry.
        -- apply Hy. rewrite InA_alt. now exists z.
      * apply IH; [|exact Hr]. intros H. apply Hn. now constructor 2.
    + constructor; assumption.
Qed.

Lemma sorted_NoDupA (l : list Q) : NoDupA Qeq l -> NoDupA Qeq (sorted l).
Proof.
  induction 1 as [|a r Ha Hr IH]; simpl; [constructor|].
  apply insert_NoDupA; [|exact IH].
  fold (sorted r). now rewrite sorted_InA.
Qed.

Lemma sorted_le (l : list Q) : StronglySorted Qle (sorted l).
Proof. exact (sort_by_sorted (fun x => x) l). Qed.

Lemma strictly_sorted (l : list Q) :
  StronglySorted Qle l -> NoDupA Qeq l -> StronglySorted Qlt l.
Proof.
  induction 1 as [|a r Hs IH Hall]; intros Hd; [constructor|].
  inversion Hd as [|? ? Ha Hr]; subst.
  constructor; [now apply IH|].
  rewrite Forall_forall in *. intros y Hy.
  specialize (Hall y Hy).
  destruct (Qeq_dec a y) as [E|E].
  - exfalso. apply Ha. rewrite InA_alt. now exists y.
  - destruct (Qlt_le_dec a y) as [L|L]; [exact L|].
    exfalso. apply E. lra.
Qed.

Lemma count_strictly_sorted (x : Q) (l : list Q) :
  StronglySorted Qlt l -> InA Qeq x l -> count x l = 1%nat.
Proof.
  unfold count.
  induction 1 as [|a r Hs IH Hall]; intros Hin; [inversion Hin|].
  simpl. destruct (Qeq_bool x a) eqn:E.
  - apply Qeq_bool_eq in E. simpl. f_equal.
    rewrite Forall_forall in Hall.
    clear IH Hin Hs. induction r as [|b r IH]; [reflexivity|].
    simpl. rewrite Qeq_bool_false.
    + apply IH. intros y Hy. apply Hall. now right.
    + intros E'. specialize (Hall b (or_introl eq_refl)). lra.
  - apply IH. inversion Hin; subst; [|assumption].
    apply Qeq_eq_bool in H0. congruence.
Qed.

(** ** Sets of floats *)

Lemma mem_InA (x : Q) (s : list Q) : mem x s = true <-> InA Qeq x s.
Proof.
  unfold mem. rewrite existsb_exists, InA_alt.
  split; intros (y & H1 & H2); exists y.
  - split; [now apply Qeq_bool_eq | exact H1].
  - split; [exact H2 | now apply Qeq_eq_bool].
Qed.

Lemma InA_app_Q (x : Q) (l1 l2 : list Q) :
  InA Qeq x (l1 ++ l2) <-> InA Qeq x l1 \/ InA Qeq x l2.
Proof. apply InA_app_iff. Qed.

Lemma set_add_all_InA (x : Q) (l s : list Q) :
  InA Qeq x (set_add_all s l) <-> InA Qeq x s \/ InA Qeq x l.
Proof.
  revert s. induction l as [|a r IH]; intros s; simpl.
  - split; [auto|]. intros [H|H]; [exact H|inversion H].
  - rewrite IH. destruct (mem a s) eqn:E.
    + apply mem_InA in E. rewrite InA_cons. split; [tauto|].
      intros [H|[H|H]]; auto. left. now rewrite H.
    + rewrite InA_app_Q, !InA_cons, InA_nil. tauto.
Qed.

Lemma set_add_all_NoDupA (l s : list Q) :
  NoDupA Qeq s -> NoDupA Qeq (set_add_all s l).
Proof.
  revert s. induction l as [|a r IH]; intros s Hs; simpl; [exact Hs|].
  apply IH. destruct (mem a s) eqn:E; [exact Hs|].
  assert (Hn : ~ InA Qeq a s).
  { intros H. apply mem_InA in H. congruence. }
  clear E. induction Hs as [|b s' Hb Hs' IHs]; simpl.
  - constructor; [intros H; inversion H | constructor].
  - constructor.
    + rewrite InA_app_Q, InA_cons, InA_nil.
      intros [H|[H|[]]]; [now apply Hb|].
      apply Hn. constructor. now symmetry.
    + apply IHs. intros H. apply Hn. now constructor 2.
Qed.

Lemma union_fold_InA (x : Q) (d : list (string * list Q)) (s : list Q) :
  InA Qeq x (fold_left (fun s kv => set_union s (py_set (snd kv))) d s) <->
  InA Qeq x s \/ exists kv, In kv d /\ InA Qeq x (snd kv).
Proof.
  revert s. induction d as [|kv d IH]; intros s; simpl.
  - split; [auto|]. intros [H|(kv & [] & _)]. exact H.
  - rewrite IH. unfold set_union, py_set. rewrite !set_add_all_InA.
    split.
    + intros [[H|[H|H]]|(kv' & H1 & H2)].
      * now left.
      * inversion H.
      * right. exists kv. auto.
      * right. exists kv'. auto.
    + intros [H|(kv' & [->|H1] & H2)].
      * auto.
      * left. right. now right.
      * right. exists kv'. auto.
Qed.

Lemma union_fold_NoDupA (d : list (string * list Q)) (s : list Q) :
  NoDupA Qeq s ->
  NoDupA Qeq (fold_left (fun s kv => set_union s (py_set (snd kv))) d s).
Proof.
  revert s. induction d as [|kv d IH]; intros s Hs; simpl; [exact Hs|].
  apply IH. now apply set_add_all_NoDupA.
Qed.

Lemma new_time_sorted (d : list (string * list Q)) :
  StronglySorted Qlt (new_time d).
Proof.
  unfold new_time. apply strictly_sorted; [apply sorted_le|].
  apply sorted_NoDupA, union_fold_NoDupA. constructor.
Qed.

Lemma new_time_InA (x : Q) (d : list (string * list Q)) :
  InA Qeq x (new_time d) <-> exists kv, In kv d /\ InA Qeq x (snd kv).
Proof.
  unfold new_time. rewrite sorted_InA, union_fold_InA.
  split; [|auto]. intros [H|H]; [inversion H|exact H].
Qed.

(** ** Computations *)

Lemma result_bind_inr {A B : Type} (m : M A) (k : A -> M B) (b : B) :
  result (bind m k) = inr b ->
  exists a, result m = inr a /\ result (k a) = inr b.
Proof.
  unfold result. destruct m as [t [e|a]]; simpl; intros H; [discriminate|].
  exists a. split; [reflexivity|exact H].
Qed.

Lemma result_bind_ok {A B : Type} (m : M A) (k : A -> M B) (a : A) :
  result m = inr a -> result (bind m k) = result (k a).
Proof.
  unfold result. destruct m as [t [e|a']]; simpl; intros H; congruence.
Qed.

Lemma result_bind_err {A B : Type} (m : M A) (k : A -> M B) (e : exn) :
  result m = inl e -> result (bind m k) = inl e.
Proof.
  unfold result. destruct m as [t [e'|a]]; simpl; intros H; congruence.
Qed.

Lemma result_of_option {A : Type} (e : exn) (o : option A) (a : A) :
  result (of_option e o) = inr a <-> o = Some a.
Proof. unfold result. destruct o; simpl; split; intros H; congruence. Qed.

Lemma result_index {A : Type} (l : list A) (i : nat) (a : A) :
  result (index l i) = inr a <-> nth_error l i = Some a.
Proof.
  unfold result, index.
  destruct (nth_error l i); simpl; split; intros H; congruence.
Qed.

Lemma result_subscript {A : Type} (o : option A) (a : A) :
  result (subscript o) = inr a <-> o = Some a.
Proof. unfold result. destruct o; simpl; split; intros H; congruence. Qed.

(** ** Dicts *)

Lemma existsb_eqb_In (k : string) (l : list string) :
  existsb (String.eqb k) l = true <-> In k l.
Proof.
  rewrite existsb_exists. split.
  - intros (x & H & E). apply String.eqb_eq in E. now subst.
  - intros H. exists k. split; [exact H|apply String.eqb_refl].
Qed.

Lemma dict_keys_set {V : Type} (d : list (string * V)) (k : string) (v : V) :
  dict_keys (dict_set d k v) =
  if existsb (String.eqb k) (dict_keys d) then dict_keys d
  else dict_keys d ++ [k].
Proof.
  induction d as [|[k' v'] r IH]; simpl; [reflexivity|].
  rewrite (String.eqb_sym k k').
  destruct (String.eqb k' k) eqn:E; simpl; [reflexivity|].
  fold (dict_keys r). fold (dict_keys (dict_set r k v)). rewrite IH.
  destruct (existsb (String.eqb k) (dict_keys r)); reflexivity.
Qed.

Lemma dict_set_In {V : Type} (d : list (string * V)) (k k0 : string)
  (v v0 : V) :
  NoDup (dict_keys d) ->
  In (k, v) (dict_set d k0 v0) <->
  (k = k0 /\ v = v0) \/ (k <> k0 /\ In (k, v) d).
Proof.
  induction d as [|[k' v'] r IH]; simpl; intros Hd.
  - split.
    + intros [H|[]]. left. split; congruence.
    + intros [[-> ->]|[_ []]]. now left.
  - inversion Hd as [|? ? Hk Hr]; subst.
    destruct (String.eqb k' k0) eqn:E.
    + apply String.eqb_eq in E. subst k'. simpl. split.
      * intros [H|H].
        -- left. split; congruence.
        -- right. split; [|now right].
           intros ->. apply Hk. unfold dict_keys.
           change k0 with (fst (k0, v)). now apply in_map.
      * intros [[-> ->]|[Hne [H|H]]]; [now left| |now right].
        exfalso. apply Hne. congruence.
    + apply String.eqb_neq in E. simpl. rewrite (IH Hr). split.
      * intros [H|[H|H]]; [|tauto|tauto].
        right. split; [|now left]. intros ->. apply E. congruence.
      * intros [H|[Hne [H|H]]]; tauto.
Qed.

Lemma dict_get_In {V : Type} (d : list (string * V)) (k : string) (v : V) :
  NoDup (dict_keys d) -> dict_get d k = Some v <-> In (k, v) d.
Proof.
  induction d as [|[k' v'] r IH]; simpl; intros Hd.
  - split; [discriminate|tauto].
  - inversion Hd as [|? ? Hk Hr]; subst.
    destruct (String.eqb k' k) eqn:E.
    + apply String.eqb_eq in E. subst k'. split.
      * intros H. left. congruence.
      * intros [H|H]; [congruence|].
        exfalso. apply Hk. unfold dict_keys.
        change k with (fst (k, v)). now apply in_map.
    + apply String.eqb_neq in E. rewrite (IH Hr). split; [tauto|].
      intros [H|H]; [|exact H]. exfalso. apply E. congruence.
Qed.

Lemma dict_get_key {V : Type} (d : list (string * V)) (k : string) :
  In k (dict_keys d) -> exists v, dict_get d k = Some v.
Proof.
  induction d as [|[k' v'] r IH]; simpl; [tauto|].
  intros [H|H].
  - subst. rewrite String.eqb_refl. eauto.
  - destruct (String.eqb k' k); eauto.
Qed.

Lemma dict_set_fresh {V : Type} (d : list (string * V)) (k : string) (v : V) :
  ~ In k (dict_keys d) -> dict_set d k v = d ++ [(k, v)].
Proof.
  induction d as [|[k' v'] r IH]; simpl; intros H; [reflexivity|].
  destruct (String.eqb k' k) eqn:E.
  - apply String.eqb_eq in E. tauto.
  - f_equal. apply IH. tauto.
Qed.

Lemma dict_set_same {V : Type} (d : list (string * V)) (k : string) (v : V) :
  dict_get d k = Some v -> dict_set d k v = d.
Proof.
  induction d as [|[k' v'] r IH]; simpl; [discriminate|].
  destruct (String.eqb k' k) eqn:E.
  - apply String.eqb_eq in E. intros H. congruence.
  - intros H. f_equal. now apply IH.
Qed.

Lemma dict_get_app {V : Type} (d e : list (string * V)) (k : string) :
  dict_get (d ++ e) k =
  match dict_get d k with
  | Some v => Some v
  | None => dict_get e k
  end.
Proof.
  induction d as [|[k' v'] r IH]; simpl; [reflexivity|].
  destruct (String.eqb k' k); [reflexivity|exact IH].
Qed.

(** ** First occurrences *)

Lemma first_occurrences_In (k : string) (l seen : list string) :
  In k (first_occurrences seen l) <-> In k l /\ ~ In k seen.
Proof.
  revert seen. induction l as [|a r IH]; intros seen; simpl; [tauto|].
  destruct (existsb (String.eqb a) seen) eqn:E.
  - apply existsb_eqb_In in E. rewrite IH. split; [tauto|].
    intros [[->|H] Hn]; tauto.
  - assert (Ha : ~ In a seen).
    { intros H. apply existsb_eqb_In in H. congruence. }
    simpl. rewrite IH, in_app_iff. simpl. split.
    + intros [->|[H Hn]]; [tauto|]. split; [tauto|]. tauto.
    + intros [[->|H] Hn]; [tauto|].
      destruct (string_dec a k); [tauto|]. right. tauto.
Qed.

Lemma first_occurrences_NoDup (l seen : list string) :
  NoDup seen -> NoDup (seen ++ first_occurrences seen l).
Proof.
  revert seen. induction l as [|a r IH]; intros seen Hs; simpl.
  - now rewrite app_nil_r.
  - destruct (existsb (String.eqb a) seen) eqn:E; [now apply IH|].
    assert (Ha : ~ In a seen).
    { intros H. apply existsb_eqb_In in H. congruence. }
    change (a :: first_occurrences (seen ++ [a]) r)
      with ([a] ++ first_occurrences (seen ++ [a]) r).
    rewrite app_assoc. apply IH.
    apply NoDup_app; [exact Hs|repeat constructor; simpl; tauto|].
    intros x Hx [->|[]]. contradiction.
Qed.

Lemma first_occurrences_id (l seen : list string) :
  NoDup l -> (forall k, In k l -> ~ In k seen) ->
  first_occurrences seen l = l.
Proof.
  revert seen. induction l as [|a r IH]; intros seen Hd Hs; simpl;
    [reflexivity|].
  inversion Hd as [|? ? Ha Hr]; subst.
  destruct (existsb (String.eqb a) seen) eqn:E.
  - apply existsb_eqb_In in E. exfalso. apply (Hs a); simpl; auto.
  - f_equal. apply IH; [exact Hr|].
    intros k Hk. rewrite in_app_iff. simpl.
    intros [H|[->|[]]]; [|contradiction].
    apply (Hs k); simpl; auto.
Qed.

(** ** The dicts built by the capture loop *)

Lemma stored_keys {V : Type} (f : list (Q * Q) -> V) (w : world)
  (data_keys : list string) (i : nat) (d : list (string * V)) :
  dict_keys (stored f w i data_keys d) =
  dict_keys d ++ first_occurrences (dict_keys d) data_keys.
Proof.
  revert i d. induction data_keys as [|k r IH]; intros i d; simpl.
  - now rewrite app_nil_r.
  - rewrite IH, dict_keys_set.
    destruct (existsb (String.eqb k) (dict_keys d)); [reflexivity|].
    now rewrite <- app_assoc.
Qed.

Lemma stored_keys_NoDup {V : Type} (f : list (Q * Q) -> V) (w : world)
  (data_keys : list string) (i : nat) (d : list (string * V)) :
  NoDup (dict_keys d) -> NoDup (dict_keys (stored f w i data_keys d)).
Proof. intros H. rewrite stored_keys. now apply first_occurrences_NoDup. Qed.

Lemma dict_set_keys_NoDup {V : Type} (d : list (string * V)) (k : string)
  (v : V) : NoDup (dict_keys d) -> NoDup (dict_keys (dict_set d k v)).
Proof.
  intros H. rewrite dict_keys_set.
  destruct (existsb (String.eqb k) (dict_keys d)) eqn:E; [exact H|].
  apply NoDup_app; [exact H|repeat constructor; simpl; tauto|].
  intros x Hx [->|[]]. apply existsb_eqb_In in Hx. congruence.
Qed.

Lemma stored_In {V : Type} (f : list (Q * Q) -> V) (w : world)
  (data_keys : list string) (i : nat) (d : list (string * V))
  (k : string) (v : V) :
  NoDup (dict_keys d) ->
  In (k, v) (stored f w i data_keys d) <->
  (exists j, nth_error data_keys j = Some k /\
             v = f (ginput_curve w (i + j)) /\
             forall j', (j < j')%nat -> nth_error data_keys j' <> Some k)
  \/ (In (k, v) d /\ ~ In k data_keys).
Proof.
  revert i d. induction data_keys as [|k0 r IH]; intros i d Hd; simpl.
  - split.
    + intros H. right. tauto.
    + intros [(j & H & _)|[H _]]; [|exact H]. destruct j; discriminate.
  - rewrite (IH (S i) _ (dict_set_keys_NoDup d k0 _ Hd)).
    rewrite (dict_set_In d k k0 v _ Hd). split.
    + intros [(j & H1 & H2 & H3)|[[[-> ->]|[Hne H]] Hr]].
      * left. exists (S j). simpl. split; [exact H1|]. split.
        -- rewrite H2. f_equal. f_equal. lia.
        -- intros [|j'] Hj; [lia|]. simpl. apply H3. lia.
      * left. exists 0%nat. simpl. split; [reflexivity|]. split.
        -- f_equal. f_equal. lia.
        -- intros [|j'] Hj; [lia|]. simpl. intros E.
           apply Hr. eapply nth_error_In. exact E.
      * right. split; [exact H|]. intros [E|E]; [congruence|tauto].
    + intros [([|j] & H1 & H2 & H3)|[H Hn]].
      * simpl in H1. injection H1 as ->. right. split.
        -- left. split; [reflexivity|]. rewrite H2. f_equal. f_equal. lia.
        -- intros Hin. apply In_nth_error in Hin as (n & Hn).
           apply (H3 (S n)); [lia|exact Hn].
      * left. exists j. simpl in H1. split; [exact H1|]. split.
        -- rewrite H2. f_equal. f_equal. lia.
        -- intros j' Hj. apply (H3 (S j')). lia.
      * right. split; [|tauto]. right. split; [|exact H].
        intros ->. tauto.
Qed.

(** ** The stages of [ui_draw] *)

Lemma iter_min_some (l : list Q) : l <> [] -> exists m, iter_min l = Some m.
Proof. destruct l; [congruence|]. simpl. eauto. Qed.

Lemma iter_max_some (l : list Q) : l <> [] -> exists m, iter_max l = Some m.
Proof. destruct l; [congruence|]. simpl. eauto. Qed.

Lemma map_nonempty {A B : Type} (f : A -> B) (l : list A) :
  l <> [] -> map f l <> [].
Proof. destruct l; [congruence|]. discriminate. Qed.

Lemma draw_curve_result (w : world) (i : nat) (k : string) (st : curves) :
  (ginput_curve w i = [] /\ result (draw_curve w i k st) = inl IndexError)
  \/
  (ginput_curve w i <> [] /\
   exists st', result (draw_curve w i k st) = inr st' /\
     time_in_pixels_dict st' =
       dict_set (time_in_pixels_dict st) k (xs_of (ginput_curve w i)) /\
     value_in_pixels_dict st' =
       dict_set (value_in_pixels_dict st) k (vs_of (ginput_curve w i))).
Proof.
  unfold draw_curve.
  destruct (ginput_curve w i) as [|c cs] eqn:E.
  - left. split; reflexivity.
  - right. split; [discriminate|].
    assert (Hne : sort_points (c :: cs) <> []).
    { apply sort_by_nonempty. discriminate. }
    destruct (iter_min_some (map fst (sort_points (c :: cs))))
      as (tmin & E1); [now apply map_nonempty|].
    destruct (iter_max_some (map fst (sort_points (c :: cs))))
      as (tmax & E2); [now apply map_nonempty|].
    destruct (iter_min_some (map (fun p => - snd p) (sort_points (c :: cs))))
      as (vmin & E3); [now apply map_nonempty|].
    destruct (iter_max_some (map (fun p => - snd p) (sort_points (c :: cs))))
      as (vmax & E4); [now apply map_nonempty|].
    rewrite E1, E2, E3, E4.
    eexists. split; [reflexivity|]. split; reflexivity.
Qed.

Lemma draw_curves_cons (w : world) (i : nat) (k : string) (r : list string)
  (st : curves) :
  draw_curves w i (k :: r) st =
  bind (draw_curve w i k st) (fun st' => draw_curves w (S i) r st').
Proof. reflexivity. Qed.

Lemma draw_curves_ok (w : world) (data_keys : list string) (i : nat)
  (st st' : curves) :
  result (draw_curves w i data_keys st) = inr st' ->
  time_in_pixels_dict st' =
    stored xs_of w i data_keys (time_in_pixels_dict st) /\
  value_in_pixels_dict st' =
    stored vs_of w i data_keys (value_in_pixels_dict st) /\
  forall j, (j < List.length data_keys)%nat -> ginput_curve w (i + j) <> [].
Proof.
  revert i st. induction data_keys as [|k r IH]; intros i st H.
  - unfold result in H. simpl in H. injection H as <-.
    repeat split. intros j Hj. simpl in Hj. lia.
  - rewrite draw_curves_cons in H. cbn [List.length stored].
    apply result_bind_inr in H as (st1 & H1 & H2).
    destruct (draw_curve_result w i k st) as [[_ E]|(Hne & st2 & E & Et & Ev)];
      [congruence|].
    assert (st2 = st1) by congruence. subst st2.
    apply IH in H2 as (Ht & Hv & Hs).
    rewrite Ht, Hv, Et, Ev. repeat split.
    intros [|j] Hj.
    + now rewrite Nat.add_0_r.
    + replace (i + S j)%nat with (S i + j)%nat by lia. apply Hs. lia.
Qed.

Lemma draw_curves_progress (w : world) (data_keys : list string) (i : nat)
  (st : curves) :
  (forall j, (j < List.length data_keys)%nat -> ginput_curve w (i + j) <> []) ->
  exists st', result (draw_curves w i data_keys st) = inr st'.
Proof.
  revert i st. induction data_keys as [|k r IH]; intros i st H.
  - eexists. reflexivity.
  - rewrite draw_curves_cons. cbn [List.length] in H.
    destruct (draw_curve_result w i k st) as [[E _]|(_ & st1 & E & _)].
    + exfalso. apply (H 0%nat); [lia|]. now rewrite Nat.add_0_r.
    + destruct (IH (S i) st1) as (st' & E').
      * intros j Hj. replace (S i + j)%nat with (i + S j)%nat by lia.
        apply H. lia.
      * exists st'. now rewrite (result_bind_ok _ _ _ E).
Qed.

Lemma draw_curves_empty_session (w : world) (data_keys : list string)
  (i : nat) (st : curves) :
  (exists j, (j < List.length data_keys)%nat /\ ginput_curve w (i + j) = []) ->
  result (draw_curves w i data_keys st) = inl IndexError.
Proof.
  revert i st. induction data_keys as [|k r IH]; intros i st (j & Hj & E);
    [simpl in Hj; lia|].
  rewrite draw_curves_cons. cbn [List.length] in Hj.
  destruct (draw_curve_result w i k st) as [[_ E1]|(Hne & st1 & E1 & _)].
  - now apply result_bind_err.
  - rewrite (result_bind_ok _ _ _ E1). apply IH.
    destruct j as [|j].
    + rewrite Nat.add_0_r in E. contradiction.
    + exists j. split; [lia|].
      now replace (S i + j)%nat with (i + S j)%nat by lia.
Qed.

Lemma get_time_range_ok (w : world) (r : Q * Q) (st : curves)
  (trp : list npfloat) :
  result (get_time_range w (Some r) st) = inr trp ->
  trp = map Fin (sorted (map fst (firstn 2 (ginput_time w)))).
Proof.
  unfold get_time_range.
  destruct (firstn 2 (ginput_time w)) as [|c cs]; unfold result; simpl;
    intros H; congruence.
Qed.

Lemma get_value_range_ok (w : world) (r : Q * Q) (st : curves)
  (vrp : list npfloat) :
  result (get_value_range w (Some r) st) = inr vrp ->
  vrp = map Fin (sorted (map (fun p => - snd p) (firstn 2 (ginput_value w)))).
Proof.
  unfold get_value_range.
  destruct (firstn 2 (ginput_value w)) as [|c cs]; unfold result; simpl;
    intros H; congruence.
Qed.

Lemma scale_time_ok (time_range : option (Q * Q)) (trp : list npfloat)
  (out1 out : TimeSeries) :
  result (scale_time time_range trp out1) = inr out ->
  exists p0 p1 r,
    nth_error trp 0 = Some p0 /\ nth_error trp 1 = Some p1 /\
    time_range = Some r /\
    time out = map (fun t => rescale t p0 p1 (Fin (fst r)) (Fin (snd r)))
                   (time out1) /\
    data out = data out1 /\ info out = info out1.
Proof.
  unfold scale_time. intros H.
  apply result_bind_inr in H as (p0 & H0 & H).
  apply result_bind_inr in H as (r & Hr & H).
  apply result_bind_inr in H as (p1 & H1 & H).
  apply result_index in H0, H1. apply result_subscript in Hr.
  unfold result in H. simpl in H. injection H as <-.
  exists p0, p1, r. simpl. repeat split; assumption.
Qed.

Section Stages.

Variable interp : list npfloat -> list npfloat -> npfloat -> npfloat.

(** The unit of a channel is added to a container that has just been
    created, unless the channel is named as the time is. *)
Lemma add_info_new (t : list npfloat) (d : list (string * list npfloat))
  (k u : string) :
  (k = "Time"%string /\
   result (add_info (new_TimeSeries t d) k "Unit" u) = inl ValueError) \/
  (k <> "Time"%string /\
   result (add_info (new_TimeSeries t d) k "Unit" u) =
   inr {| time := t; data := d;
          info := time_info ++ [(k, [("Unit"%string, u)])] |}).
Proof.
  unfold add_info, new_TimeSeries, time_info. cbn [info dict_get].
  destruct (String.eqb "Time" k) eqn:E.
  - left. apply String.eqb_eq in E. split; [now symmetry|].
    cbn [dict_get]. rewrite String.eqb_refl. reflexivity.
  - right. apply String.eqb_neq in E. split; [congruence|].
    cbn [dict_get dict_set time data]. 
    assert (E' : String.eqb "Time" k = false) by (apply String.eqb_neq; exact E).
    rewrite E'. reflexivity.
Qed.

(** The container that is merged for one curve (lines 210-213). *)
Lemma annotate_ok (t : list npfloat) (d : list (string * list npfloat))
  (units : option (list string)) (i : nat) (k : string) (ts : TimeSeries) :
  result (match units with
          | Some us => u <- index us i ;;
                       add_info (new_TimeSeries t d) k "Unit" u
          | None => ret (new_TimeSeries t d)
          end) = inr ts ->
  time ts = t /\ data ts = d /\
  match units with
  | Some us =>
      exists u, nth_error us i = Some u /\ k <> "Time"%string /\
                info ts = time_info ++ [(k, [("Unit"%string, u)])]
  | None => info ts = time_info
  end.
Proof.
  destruct units as [us|]; intros H.
  - apply result_bind_inr in H as (u & Hu & H). apply result_index in Hu.
    destruct (add_info_new t d k u) as [[_ E]|[Hne E]]; [congruence|].
    rewrite E in H. injection H as <-. cbn [time data info]. eauto 6.
  - unfold result in H. simpl in H. injection H as <-. auto.
Qed.

Lemma merge_ok (out ts out' : TimeSeries) :
  result (merge interp out ts) = inr out' ->
  time out' = time out /\
  data out' =
    data out ++
    (if same_time (time out) (time ts) then data ts
     else map (fun kv => (fst kv, resample interp (time ts) (snd kv) (time out)))
              (data ts)) /\
  info out' = merge_info out ts /\
  (same_time (time out) (time ts) = true \/ increasing (time ts) = true).
Proof.
  unfold merge. intros H. apply result_bind_inr in H as (ch & Hch & H).
  unfold result in H. simpl in H. injection H as <-. cbn [time data info].
  destruct (same_time (time out) (time ts)).
  - unfold result in Hch. simpl in Hch. injection Hch as <-. auto.
  - destruct (increasing (time ts)); [|discriminate].
    unfold result in Hch. simpl in Hch. injection Hch as <-. auto.
Qed.

Lemma scale_and_merge_ok (st : curves) (vr : option (Q * Q))
  (vrp : list npfloat) (units : option (list string)) (i : nat)
  (k : string) (v : list Q) (out out' : TimeSeries) :
  result (scale_and_merge interp st vr vrp units i k v out) = inr out' ->
  In k (dict_keys (time_in_pixels_dict st)) /\
  exists p0 p1 r,
    nth_error vrp 0 = Some p0 /\ nth_error vrp 1 = Some p1 /\ vr = Some r /\
    time out' = time out /\
    data out' =
      data out ++ [channel interp (time_in_pixels_dict st) p0 p1 r (time out) (k, v)] /\
    info out' =
      match units with
      | Some us => match nth_error us i with
                   | Some u => dict_set (info out) k [("Unit"%string, u)]
                   | None => info out
                   end
      | None => if String.eqb "Time" k
                then dict_set (info out) k [("Unit"%string, "s"%string)]
                else info out
      end /\
    match units with
    | Some us => (exists u, nth_error us i = Some u) /\ k <> "Time"%string
    | None => True
    end.
Proof.
  unfold scale_and_merge. intros H.
  apply result_bind_inr in H as (tpx & Ht & H).
  apply result_bind_inr in H as (p0 & H0 & H).
  apply result_bind_inr in H as (r & Hr & H).
  apply result_bind_inr in H as (p1 & H1 & H).
  apply result_bind_inr in H as (temp & Hu & H).
  apply result_of_option in Ht. apply result_index in H0, H1.
  apply result_subscript in Hr.
  apply annotate_ok in Hu as (Et & Ed & Ei).
  apply merge_ok in H as (Etime & Edata & Einfo & _).
  split.
  { clear - Ht. induction (time_in_pixels_dict st) as [|[k' v'] d IH];
      simpl in *; [discriminate|].
    destruct (String.eqb k' k) eqn:E; [|right; now apply IH].
    left. now apply String.eqb_eq. }
  exists p0, p1, r. repeat (split; [assumption|]).
  split.
  { rewrite Edata, Et, Ed. unfold channel. cbv zeta. cbn [fst snd].
    rewrite Ht.
    destruct (same_time (time out) (map Fin tpx)); reflexivity. }
  unfold merge_info in Einfo. rewrite Ed in Einfo. cbn [fold_left fst] in Einfo.
  destruct units as [us|].
  - destruct Ei as (u & Hu & Hne & Ei). rewrite Hu. split; [|eauto].
    rewrite Einfo, Ei. unfold time_info. cbn [app dict_get].
    assert (E : String.eqb "Time" k = false) by (apply String.eqb_neq; congruence).
    rewrite E, String.eqb_refl. reflexivity.
  - split; [|exact I]. rewrite Einfo, Ei. unfold time_info. cbn [dict_get].
    destruct (String.eqb "Time" k); reflexivity.
Qed.

Lemma merge_curves_ok (st : curves) (vr : option (Q * Q))
  (vrp : list npfloat) (units : option (list string))
  (items : list (string * list Q)) (i : nat) (out out' : TimeSeries) :
  result (merge_curves interp st vr vrp units i items out) = inr out' ->
  time out' = time out /\
  (forall j, (j < List.length items)%nat ->
     match units with
     | Some us => exists u, nth_error us (i + j) = Some u
     | None => True
     end) /\
  (units <> None -> ~ In "Time"%string (dict_keys items)) /\
  ((items = [] /\ data out' = data out) \/
   exists p0 p1 r,
     nth_error vrp 0 = Some p0 /\ nth_error vrp 1 = Some p1 /\ vr = Some r /\
     data out' =
       data out ++
       map (channel interp (time_in_pixels_dict st) p0 p1 r (time out)) items).
Proof.
  revert i out. induction items as [|[k v] items IH]; intros i out H;
    simpl in H.
  - unfold result in H. simpl in H. injection H as <-.
    split; [reflexivity|].
    split; [intros j Hj; simpl in Hj; lia|].
    split; [intros _ []|]. left. split; reflexivity.
  - apply result_bind_inr in H as (out1 & H1 & H2).
    apply scale_and_merge_ok in H1
      as (_ & p0 & p1 & r & E0 & E1 & Er & Et & Ed & _ & Eu).
    apply IH in H2 as (Ht' & Hu' & Hn' & Hd').
    split; [congruence|]. split.
    { intros [|j] Hj.
      - rewrite Nat.add_0_r. destruct units; [apply Eu|exact I].
      - replace (i + S j)%nat with (S i + j)%nat by lia.
        apply Hu'. simpl in Hj. lia. }
    split.
    { intros Hs [E|Hin]; [|now apply Hn'].
      destruct units as [us|]; [|congruence]. simpl in E. now apply Eu. }
    right. exists p0, p1, r. repeat split; try assumption.
    destruct Hd' as [[-> Hd']|(q0 & q1 & r' & F0 & F1 & Fr & Hd')].
    + rewrite Hd', Ed. reflexivity.
    + assert (q0 = p0) by congruence. assert (q1 = p1) by congruence.
      assert (r' = r) by congruence. subst.
      rewrite Hd', Ed, Et, <- app_assoc. reflexivity.
Qed.

(** The info left by the merges: the unit of every curve is appended to
    the info of the container, in the order of the curves. *)
Lemma merge_curves_info (st : curves) (vr : option (Q * Q))
  (vrp : list npfloat) (units : option (list string))
  (items : list (string * list Q)) (i : nat) (out out' : TimeSeries) :
  NoDup (dict_keys items) ->
  dict_get (info out) "Time" = Some [("Unit"%string, "s"%string)] ->
  (forall k, In k (dict_keys items) -> k <> "Time"%string ->
     ~ In k (dict_keys (info out))) ->
  result (merge_curves interp st vr vrp units i items out) = inr out' ->
  info out' = info out ++ match units with
                          | Some us => unit_info us i items
                          | None => []
                          end.
Proof.
  revert i out. induction items as [|[k v] items IH];
    intros i out Hd Htime Hfresh H; simpl in H.
  - unfold result in H. simpl in H. injection H as <-.
    destruct units; simpl; now rewrite app_nil_r.
  - apply result_bind_inr in H as (out1 & H1 & H2).
    apply scale_and_merge_ok in H1
      as (_ & p0 & p1 & r & _ & _ & _ & _ & _ & Ei & Eu).
    simpl in Hd. inversion Hd as [|? ? Hk Hr]; subst.
    destruct units as [us|].
    + destruct Eu as ((u & Hu) & Hne). rewrite Hu in Ei.
      rewrite (dict_set_fresh (info out) k) in Ei
        by (apply Hfresh; [now left|exact Hne]).
      rewrite (IH (S i) out1 Hr); [| | |exact H2].
      * rewrite Ei, <- app_assoc. simpl. now rewrite Hu.
      * rewrite Ei, dict_get_app, Htime. reflexivity.
      * intros k' Hin Hne'. rewrite Ei. unfold dict_keys.
        rewrite map_app, in_app_iff. simpl.
        intros [F|[F|[]]].
        -- apply (Hfresh k'); [now right|exact Hne'|exact F].
        -- subst k'. contradiction.
    + assert (E : info out1 = info out).
      { rewrite Ei. destruct (String.eqb "Time" k) eqn:E; [|reflexivity].
        apply String.eqb_eq in E. subst k. now apply dict_set_same. }
      rewrite (IH (S i) out1 Hr); [| | |exact H2].
      * now rewrite E.
      * now rewrite E.
      * intros k' Hin Hne'. rewrite E. apply Hfresh; [now right|exact Hne'].
Qed.

Lemma ui_draw_returns (w : world) (filename : pyval)
  (time_range value_range : option (Q * Q)) (data_keys data_units : pyval)
  (out : TimeSeries) :
  result (ui_draw interp w filename time_range value_range data_keys
            data_units) = inr out ->
  exists keys units img st trp vrp out1,
    result (check_arguments filename data_keys data_units)
      = inr (keys, units) /\
    result (load_image w filename) = inr img /\
    result (draw_curves w 0 keys no_curves) = inr st /\
    result (get_time_range w time_range st) = inr trp /\
    result (get_value_range w value_range st) = inr vrp /\
    result (merge_curves interp st value_range vrp units 0
              (value_in_pixels_dict st)
              (new_TimeSeries
                 (map Fin (new_time (time_in_pixels_dict st))) []))
      = inr out1 /\
    result (scale_time time_range trp out1) = inr out.
Proof.
  unfold ui_draw. intros H.
  apply result_bind_inr in H as ([keys units] & Hc & H).
  apply result_bind_inr in H as (img & Hl & H).
  apply result_bind_inr in H as (_ & _ & H).
  apply result_bind_inr in H as (_ & _ & H).
  apply result_bind_inr in H as (st & Hd & H).
  apply result_bind_inr in H as (trp & Ht & H).
  apply result_bind_inr in H as (vrp & Hv & H).
  apply result_bind_inr in H as (_ & _ & H).
  apply result_bind_inr in H as (out1 & Hm & H).
  exists keys, units, img, st, trp, vrp, out1. simpl in *.
  repeat split; assumption.
Qed.

End Stages.

(** ** Argument checking *)



Lemma trace_bind_nil {A B : Type} (m : M A) (k : A -> M B) :
  trace m = [] -> (forall a, trace (k a) = []) -> trace (bind m k) = [].
Proof.
  unfold trace. destruct m as [t [e|a]]; simpl; intros -> H; [reflexivity|].
  apply H.
Qed.

Lemma check_list_str_trace (name : string) (v : pyval) :
  trace (check_list_str name v) = [].
Proof.
  destruct v as [| | |l]; simpl; try reflexivity. now destruct (all_str l).
Qed.

Lemma check_arguments_trace (filename data_keys data_units : pyval) :
  trace (check_arguments filename data_keys data_units) = [].
Proof.
  unfold check_arguments.
  apply trace_bind_nil; [destruct filename; reflexivity|]. intros _.
  apply trace_bind_nil; [apply check_list_str_trace|]. intros ks.
  apply trace_bind_nil; [|reflexivity].
  destruct data_units as [| |u|l]; try reflexivity;
    (apply trace_bind_nil; [apply check_list_str_trace|reflexivity]).
Qed.

Lemma result_emit {B : Type} (ev : event) (k : unit -> M B) :
  result (bind (emit ev) k) = result (k tt).
Proof. reflexivity. Qed.

Lemma check_arguments_filename (filename data_keys data_units : pyval)
  (args : list string * option (list string)) :
  result (check_arguments filename data_keys data_units) = inr args ->
  filename = PyNone \/ exists f, filename = PyStr f.
Proof.
  unfold check_arguments, result.
  destruct filename; simpl; eauto; discriminate.
Qed.

(** The list of names that [data_keys] stands for. *)
Lemma check_arguments_keys (filename data_keys data_units : pyval)
  (keys : list string) (units : option (list string)) :
  result (check_arguments filename data_keys data_units) = inr (keys, units) ->
  match data_keys with
  | PyStr s => keys = [s]
  | PyList l => all_str l = Some keys
  | _ => False
  end.
Proof.
  unfold check_arguments. intros H.
  apply result_bind_inr in H as (_ & _ & H).
  apply result_bind_inr in H as (ks & Hk & H).
  apply result_bind_inr in H as (us & Hu & H).
  unfold result in H. simpl in H. injection H as <- <-.
  unfold result in Hk.
  destruct data_keys as [| |s|l]; simpl in Hk; try discriminate.
  - congruence.
  - destruct (all_str l); simpl in Hk; congruence.
Qed.


Lemma check_arguments_bare_string (filename data_units : pyval) (s : string) :
  check_arguments filename (PyStr s) data_units =
  check_arguments filename (PyList [PyStr s]) data_units.
Proof. reflexivity. Qed.

(** ** Captured curves *)

Lemma dict_set_map {V W : Type} (g : V -> W) (d : list (string * V))
  (k : string) (v : V) :
  dict_set (map (on_snd g) d) k (g v) = map (on_snd g) (dict_set d k v).
Proof.
  induction d as [|[k' v'] r IH]; simpl; [reflexivity|].
  destruct (String.eqb k' k); simpl; [reflexivity|].
  now rewrite IH.
Qed.

Lemma stored_map {V W : Type} (g : V -> W) (f : list (Q * Q) -> V)
  (w : world) (data_keys : list string) (i : nat) (d : list (string * V)) :
  stored (fun c => g (f c)) w i data_keys (map (on_snd g) d) =
  map (on_snd g) (stored f w i data_keys d).
Proof.
  revert i d. induction data_keys as [|k r IH]; intros i d; simpl;
    [reflexivity|].
  now rewrite dict_set_map, IH.
Qed.

Lemma captured_values {V : Type} (f : list (Q * Q) -> V) (w : world)
  (data_keys : list string) :
  stored f w 0 data_keys [] = map (on_snd f) (captured w data_keys).
Proof. exact (stored_map f (fun c => c) w data_keys 0 []). Qed.

Lemma captured_NoDup (w : world) (data_keys : list string) :
  NoDup (dict_keys (captured w data_keys)).
Proof. apply stored_keys_NoDup. constructor. Qed.

Lemma captured_In (w : world) (data_keys : list string) (k : string)
  (pts : list (Q * Q)) :
  In (k, pts) (captured w data_keys) <-> captured_curve w data_keys k pts.
Proof.
  unfold captured, captured_curve.
  rewrite stored_In by constructor. simpl. split.
  - intros [H|[[] _]]. exact H.
  - intros H. now left.
Qed.

(** With pairwise distinct names every capture session is kept. *)
Lemma captured_curve_distinct (w : world) (data_keys : list string)
  (k : string) (clicks : list (Q * Q)) :
  NoDup data_keys ->
  captured_curve w data_keys k clicks <->
  exists i, nth_error data_keys i = Some k /\ clicks = ginput_curve w i.
Proof.
  intros Hd. split.
  - intros (i & H1 & H2 & _). eauto.
  - intros (i & H1 & H2). exists i. repeat split; trivial.
    intros j Hj E.
    assert (Hi : (i < List.length data_keys)%nat).
    { apply nth_error_Some. congruence. }
    rewrite NoDup_nth_error in Hd.
    specialize (Hd i j Hi (eq_trans H1 (eq_sym E))). lia.
Qed.

Lemma dict_get_map {V W : Type} (g : V -> W) (d : list (string * V))
  (k : string) :
  dict_get (map (on_snd g) d) k = option_map g (dict_get d k).
Proof.
  induction d as [|[k' v'] r IH]; simpl; [reflexivity|].
  destruct (String.eqb k' k); simpl; [reflexivity|exact IH].
Qed.

Lemma xs_of_length (pts : list (Q * Q)) :
  List.length (xs_of pts) = List.length pts.
Proof. unfold xs_of, sort_points. now rewrite length_map, sort_by_length. Qed.

Lemma vs_of_length (pts : list (Q * Q)) :
  List.length (vs_of pts) = List.length pts.
Proof. unfold vs_of, sort_points. now rewrite length_map, sort_by_length. Qed.

Lemma xs_of_InA (x : Q) (pts : list (Q * Q)) :
  InA Qeq x (xs_of pts) <-> exists c, In c pts /\ fst c == x.
Proof.
  unfold xs_of, sort_points. rewrite InA_alt. split.
  - intros (y & E & H). apply in_map_iff in H as (c & <- & H).
    exists c. split; [|now symmetry].
    exact (proj1 (sort_by_In fst c pts) H).
  - intros (c & H & E). exists (fst c). split; [now symmetry|].
    apply in_map. exact (proj2 (sort_by_In fst c pts) H).
Qed.

Lemma same_time_length (a b : list npfloat) :
  same_time a b = true -> List.length a = List.length b.
Proof.
  revert b. induction a as [|x a IH]; intros [|y b]; simpl; try discriminate;
    [reflexivity|].
  intros H. apply andb_true_iff in H as [_ H]. f_equal. now apply IH.
Qed.

Section Channels.

Variable interp : list npfloat -> list npfloat -> npfloat -> npfloat.

Lemma channel_captured (w : world) (data_keys : list string)
  (p0 p1 : npfloat) (r : Q * Q) (base : list npfloat) :
  map (channel interp (stored xs_of w 0 data_keys []) p0 p1 r base)
      (stored vs_of w 0 data_keys []) =
  map (curve_channel interp p0 p1 r base) (captured w data_keys).
Proof.
  rewrite (captured_values vs_of), map_map.
  apply map_ext_in. intros [k pts] Hin.
  unfold channel, curve_channel. simpl.
  rewrite (captured_values xs_of), dict_get_map.
  apply (dict_get_In _ _ _ (captured_NoDup w data_keys)) in Hin.
  rewrite Hin. reflexivity.
Qed.

Lemma curve_channel_length (p0 p1 : npfloat) (r : Q * Q)
  (base : list npfloat) (kp : string * list (Q * Q)) :
  List.length (snd (curve_channel interp p0 p1 r base kp))
  = List.length base.
Proof.
  unfold curve_channel. simpl.
  destruct (same_time base (map Fin (xs_of (snd kp)))) eqn:E.
  - apply same_time_length in E.
    rewrite length_map, vs_of_length, E, length_map, xs_of_length.
    reflexivity.
  - unfold resample. now rewrite length_map.
Qed.

Lemma curve_channel_keys (p0 p1 : npfloat) (r : Q * Q)
  (base : list npfloat) (d : list (string * list (Q * Q))) :
  dict_keys (map (curve_channel interp p0 p1 r base) d) = dict_keys d.
Proof. unfold dict_keys. rewrite map_map. reflexivity. Qed.

End Channels.


Lemma captured_keys (w : world) (data_keys : list string) :
  dict_keys (captured w data_keys) = first_occurrences [] data_keys.
Proof. unfold captured. now rewrite stored_keys. Qed.

Lemma pair_of_clicks (l : list Q) (q0 q1 : npfloat) :
  (List.length l <= 2)%nat ->
  nth_error (map Fin l) 0 = Some q0 -> nth_error (map Fin l) 1 = Some q1 ->
  exists a b, l = [a; b] /\ q0 = Fin a /\ q1 = Fin b.
Proof.
  destruct l as [|a [|b [|c l]]]; simpl; intros Hl H0 H1;
    try discriminate; [|lia].
  exists a, b. repeat split; congruence.
Qed.

Lemma sorted_pair_length {A : Type} (f : A -> Q) (l : list A) :
  (List.length (sorted (map f (firstn 2 l))) <= 2)%nat.
Proof.
  unfold sorted. rewrite sort_by_length, length_map. apply firstn_le_length.
Qed.

Section Returned.

Variable interp : list npfloat -> list npfloat -> npfloat -> npfloat.

(** What a returned container is made of. *)
Lemma returned_container (w : world) (filename : pyval)
  (time_range value_range : option (Q * Q)) (data_keys data_units : pyval)
  (keys : list string) (units : option (list string)) (out : TimeSeries) :
  result (check_arguments filename data_keys data_units) = inr (keys, units) ->
  result (ui_draw interp w filename time_range value_range data_keys
            data_units) = inr out ->
  exists a b r,
    time_range = Some r /\
    sorted (map fst (firstn 2 (ginput_time w))) = [a; b] /\
    time out =
      map (fun x => rescale (Fin x) (Fin a) (Fin b) (Fin (fst r)) (Fin (snd r)))
          (new_time (map (on_snd xs_of) (captured w keys))) /\
    info out = time_info ++ match units with
                            | Some us => unit_info us 0 (captured w keys)
                            | None => []
                            end /\
    (forall j, (j < List.length (captured w keys))%nat ->
       match units with
       | Some us => exists u, nth_error us j = Some u
       | None => True
       end) /\
    ((captured w keys = [] /\ data out = []) \/
     exists c d rv,
       value_range = Some rv /\
       sorted (map (fun p => - snd p) (firstn 2 (ginput_value w))) = [c; d] /\
       data out =
         map (curve_channel interp (Fin c) (Fin d) rv
                (map Fin (new_time (map (on_snd xs_of) (captured w keys)))))
             (captured w keys)).
Proof.
  intros Hc H.
  apply ui_draw_returns in H
    as (keys' & units' & img & st & trp & vrp & out1
        & Hc' & Hl & Hd & Ht & Hv & Hm & Hs).
  assert (keys' = keys) by congruence.
  assert (units' = units) by congruence. subst keys' units'.
  apply draw_curves_ok in Hd as (Et & Ev & _). simpl in Et, Ev.
  assert (Hinfo : info out1 =
            time_info ++ match units with
                         | Some us => unit_info us 0 (value_in_pixels_dict st)
                         | None => []
                         end).
  { refine (merge_curves_info interp st value_range vrp units
              (value_in_pixels_dict st) 0
              (new_TimeSeries (map Fin (new_time (time_in_pixels_dict st))) [])
              out1 _ _ _ Hm).
    - rewrite Ev. apply stored_keys_NoDup. constructor.
    - reflexivity.
    - intros k _ Hne Hin. simpl in Hin. destruct Hin as [E|[]].
      apply Hne. now symmetry. }
  apply merge_curves_ok in Hm as (Htime & Hunits & _ & Hdata).
  apply scale_time_ok in Hs as (q0 & q1 & r & F0 & F1 & Fr & Etime & Ed & Ei).
  cbn [time data info new_TimeSeries app] in Htime, Hdata.
  rewrite Et in Htime, Hdata. rewrite Ev in Hdata, Hinfo, Hunits.
  rewrite (captured_values xs_of) in Htime, Hdata.
  subst time_range. apply get_time_range_ok in Ht. subst trp.
  destruct (pair_of_clicks _ q0 q1 (sorted_pair_length _ _) F0 F1)
    as (a & b & Eab & -> & ->).
  exists a, b, r. split; [reflexivity|]. split; [exact Eab|]. split.
  { rewrite Etime, Htime, map_map. reflexivity. }
  split.
  { rewrite Ei, Hinfo. f_equal. destruct units as [us|]; [|reflexivity].
    clear. rewrite (captured_values vs_of). generalize 0%nat.
    induction (captured w keys) as [|[k v] d IH]; intros i; simpl;
      [reflexivity|].
    destruct (nth_error us i); [|reflexivity]. now rewrite IH. }
  split.
  { intros j Hj. apply (Hunits j).
    now rewrite (captured_values vs_of), length_map. }
  destruct Hdata as [[E E']|(p0 & p1 & rv & E0 & E1 & Er & E)].
  - left. split; [|congruence].
    rewrite (captured_values vs_of) in E.
    destruct (captured w keys); [reflexivity|discriminate].
  - right. subst value_range. apply get_value_range_ok in Hv. subst vrp.
    destruct (pair_of_clicks _ p0 p1 (sorted_pair_length _ _) E0 E1)
      as (c & d & Ecd & -> & ->).
    exists c, d, rv. split; [reflexivity|]. split; [exact Ecd|].
    rewrite Ed, E. simpl.
    rewrite <- (captured_values xs_of). apply channel_captured.
Qed.


End Returned.

Lemma sorted_two (x y : Q) :
  exists a b, sorted [x; y] = [a; b] /\ (a = x \/ a = y) /\ (b = x \/ b = y).
Proof.
  unfold sorted, sort_by. simpl. destruct (Qltb y x); eauto 8.
Qed.

Lemma xs_of_increasing (clicks : list (Q * Q)) :
  NoDupA (key_eq fst) clicks -> increasing (map Fin (xs_of clicks)) = true.
Proof.
  intros H. apply increasing_sorted. unfold xs_of, sort_points.
  apply strictly_sorted_keys_map, sort_by_strict. exact H.
Qed.

(** The curves kept by the capture loop, name by name. *)
Lemma stored_curves (w : world) (keys : list string) (st : curves) :
  result (draw_curves w 0 keys no_curves) = inr st ->
  forall kv, In kv (value_in_pixels_dict st) ->
    In (fst kv) keys /\
    exists clicks,
      captured_curve w keys (fst kv) clicks /\
      dict_get (time_in_pixels_dict st) (fst kv) = Some (xs_of clicks).
Proof.
  intros Hd kv Hin.
  apply draw_curves_ok in Hd as (Et & Ev & _). simpl in Et, Ev.
  rewrite Ev, (captured_values vs_of) in Hin.
  apply in_map_iff in Hin as ([k pts] & <- & Hin). cbn [on_snd fst snd].
  split.
  - assert (Hk : In k (dict_keys (captured w keys))).
    { unfold dict_keys. change k with (fst (k, pts)). now apply in_map. }
    rewrite captured_keys in Hk. now apply first_occurrences_In in Hk.
  - exists pts. split; [now apply captured_In|].
    rewrite Et, (captured_values xs_of), dict_get_map.
    apply (dict_get_In _ _ _ (captured_NoDup w keys)) in Hin.
    now rewrite Hin.
Qed.

Section Progress.

Variable interp : list npfloat -> list npfloat -> npfloat -> npfloat.

Lemma scale_and_merge_progress (st : curves) (vrp : list npfloat)
  (units : option (list string)) (p0 p1 : npfloat) (r : Q * Q) (i : nat)
  (k : string) (v tpx : list Q) (out : TimeSeries) :
  nth_error vrp 0 = Some p0 -> nth_error vrp 1 = Some p1 ->
  dict_get (time_in_pixels_dict st) k = Some tpx ->
  increasing (map Fin tpx) = true ->
  match units with
  | Some us => (exists u, nth_error us i = Some u) /\ k <> "Time"%string
  | None => True
  end ->
  exists out',
    result (scale_and_merge interp st (Some r) vrp units i k v out) = inr out'.
Proof.
  intros H0 H1 Et Hinc Hu. unfold scale_and_merge.
  rewrite (result_bind_ok _ _ tpx) by (apply result_of_option; exact Et).
  rewrite (result_bind_ok _ _ p0) by (apply result_index; exact H0).
  rewrite (result_bind_ok _ _ r) by reflexivity.
  rewrite (result_bind_ok _ _ p1) by (apply result_index; exact H1).
  assert (Ha : exists temp,
    result (match units with
            | Some us =>
                u <- index us i ;;
                add_info
                  (new_TimeSeries (map Fin tpx)
                     [(k, map (fun v => rescale (Fin v) p0 p1 (Fin (fst r))
                                          (Fin (snd r))) v)]) k "Unit" u
            | None =>
                ret (new_TimeSeries (map Fin tpx)
                       [(k, map (fun v => rescale (Fin v) p0 p1 (Fin (fst r))
                                            (Fin (snd r))) v)])
            end) = inr temp /\ time temp = map Fin tpx).
  { destruct units as [us|].
    - destruct Hu as ((u & Eu) & Hne).
      destruct (add_info_new (map Fin tpx)
                  [(k, map (fun v => rescale (Fin v) p0 p1 (Fin (fst r))
                                       (Fin (snd r))) v)] k u)
        as [[E _]|[_ E]]; [contradiction|].
      eexists. split.
      + rewrite (result_bind_ok _ _ u) by (apply result_index; exact Eu).
        exact E.
      + reflexivity.
    - eexists. split; reflexivity. }
  destruct Ha as (temp & Ha & Etime).
  rewrite (result_bind_ok _ _ _ Ha). unfold merge. rewrite Etime, Hinc.
  destruct (same_time (time out) (map Fin tpx)); eexists; reflexivity.
Qed.

Lemma merge_curves_progress (st : curves) (vrp : list npfloat)
  (units : option (list string)) (p0 p1 : npfloat) (r : Q * Q)
  (items : list (string * list Q)) (i : nat) (out : TimeSeries) :
  nth_error vrp 0 = Some p0 -> nth_error vrp 1 = Some p1 ->
  (forall kv, In kv items ->
     exists tpx, dict_get (time_in_pixels_dict st) (fst kv) = Some tpx /\
                 increasing (map Fin tpx) = true) ->
  (forall j, (j < List.length items)%nat ->
     match units with
     | Some us => exists u, nth_error us (i + j) = Some u
     | None => True
     end) ->
  (units <> None -> ~ In "Time"%string (dict_keys items)) ->
  exists out',
    result (merge_curves interp st (Some r) vrp units i items out) = inr out'.
Proof.
  intros H0 H1. revert i out.
  induction items as [|[k v] items IH]; intros i out Hk Hu Hn.
  - eexists. reflexivity.
  - cbn [merge_curves].
    destruct (Hk (k, v) (or_introl eq_refl)) as (tpx & Et & Hinc).
    destruct (scale_and_merge_progress st vrp units p0 p1 r i k v tpx out
                H0 H1 Et Hinc) as (out1 & Hs).
    { destruct units as [us|]; [|exact I]. split.
      - specialize (Hu 0%nat ltac:(simpl; lia)).
        now rewrite Nat.add_0_r in Hu.
      - intros E. apply Hn; [discriminate|]. left. exact E. }
    rewrite (result_bind_ok _ _ _ Hs). apply IH.
    + intros kv Hin. apply Hk. now right.
    + intros j Hj. replace (S i + j)%nat with (i + S j)%nat by lia.
      apply Hu. simpl. lia.
    + intros Hs' Hin. apply Hn; [exact Hs'|]. now right.
Qed.

Lemma first_occurrences_length (l seen : list string) :
  (List.length (first_occurrences seen l) <= List.length l)%nat.
Proof.
  revert seen. induction l as [|k r IH]; intros seen; simpl; [lia|].
  destruct (existsb (String.eqb k) seen); simpl.
  - specialize (IH seen). lia.
  - specialize (IH (seen ++ [k])). lia.
Qed.

(** The merges of a call in which every curve has clicks of pairwise
    different x and, when units are given, there are enough of them and
    no curve is named as the time is. *)
Lemma merge_captured_progress (w : world) (keys : list string)
  (units : option (list string)) (st : curves) (p0 p1 : npfloat)
  (rv : Q * Q) (out0 : TimeSeries) :
  result (draw_curves w 0 keys no_curves) = inr st ->
  (forall j, (j < List.length keys)%nat ->
     NoDupA (key_eq fst) (ginput_curve w j)) ->
  match units with
  | Some us =>
      (List.length keys <= List.length us)%nat /\ ~ In "Time"%string keys
  | None => True
  end ->
  exists out1,
    result (merge_curves interp st (Some rv) [p0; p1] units 0
              (value_in_pixels_dict st) out0) = inr out1.
Proof.
  intros Hd Hx Hu.
  pose proof (stored_curves w keys st Hd) as Hst.
  pose proof (draw_curves_ok _ _ _ _ _ Hd) as (Et & Ev & _).
  simpl in Et, Ev.
  apply (merge_curves_progress st [p0; p1] units p0 p1 rv); try reflexivity.
  - intros kv Hin. destruct (Hst kv Hin) as (_ & clicks & Hcap & Hget).
    exists (xs_of clicks). split; [exact Hget|].
    apply xs_of_increasing. destruct Hcap as (j & Hj & -> & _).
    apply Hx. apply nth_error_Some. congruence.
  - intros j Hj. destruct units as [us|]; [|exact I].
    assert (Hlt : (j < List.length us)%nat).
    { rewrite <- (length_map fst) in Hj.
      fold (dict_keys (value_in_pixels_dict st)) in Hj.
      rewrite Ev, stored_keys in Hj. simpl in Hj.
      pose proof (first_occurrences_length keys []). lia. }
    destruct (nth_error us j) as [u|] eqn:E; [eauto|].
    apply nth_error_None in E. lia.
  - intros Hs Hin. destruct units as [us|]; [|congruence].
    apply (proj2 Hu). rewrite Ev, stored_keys in Hin. simpl in Hin.
    now apply first_occurrences_In in Hin.
Qed.

(** A call with well-formed arguments, a loadable image, at least one
    click per curve, clicks of pairwise different x on every curve, two
    clicks per axis and, when units are given, as many of them as curves
    and no curve named as the time is, returns a container. *)
Lemma ui_draw_progress (w : world) (filename : pyval) (r rv : Q * Q)
  (data_keys data_units : pyval) (keys : list string)
  (units : option (list string)) (img : image) (c1 c2 d1 d2 : Q * Q) :
  result (check_arguments filename data_keys data_units) = inr (keys, units) ->
  result (load_image w filename) = inr (Some img) ->
  (forall j, (j < List.length keys)%nat -> ginput_curve w j <> []) ->
  (forall j, (j < List.length keys)%nat ->
     NoDupA (key_eq fst) (ginput_curve w j)) ->
  firstn 2 (ginput_time w) = [c1; c2] ->
  firstn 2 (ginput_value w) = [d1; d2] ->
  match units with
  | Some us =>
      (List.length keys <= List.length us)%nat /\ ~ In "Time"%string keys
  | None => True
  end ->
  exists out,
    result (ui_draw interp w filename (Some r) (Some rv) data_keys data_units)
    = inr out.
Proof.
  intros Hc Hl Hs Hx Ht Hv Hu.
  destruct (draw_curves_progress w keys 0 no_curves Hs) as (st & Hd).
  destruct (sorted_two (fst c1) (fst c2)) as (a & b & Eab & _).
  destruct (sorted_two (- snd d1) (- snd d2)) as (c & d & Ecd & _).
  assert (Htr : result (get_time_range w (Some r) st)
                = inr (map Fin [a; b])).
  { unfold get_time_range. rewrite Ht. cbv beta iota. cbn [map].
    now rewrite Eab. }
  assert (Hvr : result (get_value_range w (Some rv) st)
                = inr (map Fin [c; d])).
  { unfold get_value_range. rewrite Hv. cbv beta iota. cbn [map].
    now rewrite Ecd. }
  destruct (merge_captured_progress w keys units st (Fin c) (Fin d) rv
              (new_TimeSeries
                 (map Fin (new_time (time_in_pixels_dict st))) [])
              Hd Hx Hu) as (out1 & Hm).
  unfold ui_draw.
  rewrite (result_bind_ok _ _ _ Hc). simpl fst. simpl snd.
  rewrite (result_bind_ok _ _ _ Hl), result_emit. unfold imshow.
  rewrite result_emit.
  rewrite (result_bind_ok _ _ _ Hd).
  rewrite (result_bind_ok _ _ _ Htr).
  rewrite (result_bind_ok _ _ _ Hvr), result_emit.
  rewrite (result_bind_ok _ _ _ Hm).
  eexists. reflexivity.
Qed.

End Progress.

Lemma rescaleQ_strict (p q pl ph rl rh : Q) :
  pl < ph -> rl < rh -> p < q ->
  rescaleQ p pl ph rl rh < rescaleQ q pl ph rl rh.
Proof.
  intros Hd Hr Hpq.
  assert (Hn : ~ ph == pl) by (intros E; lra).
  pose proof (rescaleQ_affine p pl ph rl rh Hn) as Ep.
  pose proof (rescaleQ_affine q pl ph rl rh Hn) as Eq.
  nra.
Qed.

Lemma strictly_sorted_map (f : Q -> Q) (l : list Q) :
  (forall x y, x < y -> f x < f y) ->
  StronglySorted Qlt l -> StronglySorted Qlt (map f l).
Proof.
  intros Hf. induction 1 as [|a r Hs IH Hall]; simpl; constructor;
    [exact IH|].
  rewrite Forall_forall in *. intros y Hy.
  apply in_map_iff in Hy as (x & <- & Hx). apply Hf. now apply Hall.
Qed.

Section Specification.

Variable interp : list npfloat -> list npfloat -> npfloat -> npfloat.

(** C7. A [filename] that is neither omitted nor a string makes
    [ui_draw] raise the error of [check_param] at once: nothing has been
    read, no figure has been created and the user has not been asked for
    anything (the list of events is empty). *)
Theorem C7_filename_not_a_string (w : world) (filename : pyval)
  (time_range value_range : option (Q * Q)) (data_keys data_units : pyval) :
  filename <> PyNone -> (forall s, filename <> PyStr s) ->
  ui_draw interp w filename time_range value_range data_keys data_units
  = ([], inl (InvalidArgument "filename")).
Proof.
  intros Hn Hs. unfold ui_draw, check_arguments.
  destruct filename as [|z|s|l]; try reflexivity.
  - congruence.
  - exfalso. now apply (Hs s).
Qed.

(** Without a filename, and with arguments that pass the checks, when
    reading the clipboard raises TypeError [ui_draw] raises its own
    error, "The clipboard does not contain an image."; the clipboard has
    been read and nothing else has happened. *)
Lemma clipboard_raises_type_error (w : world)
  (time_range value_range : option (Q * Q)) (data_keys data_units : pyval)
  (args : list string * option (list string)) :
  grabclipboard w = GrabTypeError ->
  result (check_arguments PyNone data_keys data_units) = inr args ->
  ui_draw interp w PyNone time_range value_range data_keys data_units
  = ([EvGrabClipboard], inl NoImageAvailable).
Proof.
  intros Hg Hc. unfold ui_draw.
  pose proof (check_arguments_trace PyNone data_keys data_units) as Ht.
  unfold trace in Ht. unfold result in Hc.
  destruct (check_arguments PyNone data_keys data_units) as [t [e|a]];
    simpl in *; [discriminate|].
  subst t. unfold load_image. rewrite Hg. reflexivity.
Qed.

(** Without a filename, and with arguments that pass the checks, when
    reading the clipboard returns [None] no error is raised at line 107:
    the figure is created and the call ends with the error of the display
    library. *)
Lemma clipboard_returns_none (w : world)
  (time_range value_range : option (Q * Q)) (data_keys data_units : pyval)
  (args : list string * option (list string)) :
  grabclipboard w = GrabNone ->
  result (check_arguments PyNone data_keys data_units) = inr args ->
  ui_draw interp w PyNone time_range value_range data_keys data_units
  = ([EvGrabClipboard; EvFigure], inl DisplayLibraryError).
Proof.
  intros Hg Hc. unfold ui_draw.
  pose proof (check_arguments_trace PyNone data_keys data_units) as Ht.
  unfold trace in Ht. unfold result in Hc.
  destruct (check_arguments PyNone data_keys data_units) as [t [e|a]];
    simpl in *; [discriminate|].
  subst t. unfold load_image. rewrite Hg. reflexivity.
Qed.

(** C8 (what the code does). On the call [ui_draw()] with a clipboard
    for which [ImageGrab.grabclipboard()] returns [None], the error "The
    clipboard does not contain an image." is not raised: the clipboard
    is read, the figure is created, and the call ends with the error of
    the display library. *)
Theorem C8_clipboard_without_image :
  ui_draw interp empty_clipboard PyNone None None (PyStr "data") PyNone
  = ([EvGrabClipboard; EvFigure], inl DisplayLibraryError).
Proof. reflexivity. Qed.

(** C5. A bare string as [data_keys] gives the very same computation
    (events and result) as the one-element list of that string, and a
    container that is returned has the single channel named by it. *)
Theorem C5_bare_string_key (w : world) (filename : pyval)
  (time_range value_range : option (Q * Q)) (data_units : pyval)
  (s : string) :
  ui_draw interp w filename time_range value_range (PyStr s) data_units
  = ui_draw interp w filename time_range value_range (PyList [PyStr s])
      data_units
  /\
  forall out,
    result (ui_draw interp w filename time_range value_range (PyStr s)
              data_units) = inr out ->
    dict_keys (data out) = [s].
Proof.
  split; [reflexivity|].
  intros out H.
  apply ui_draw_returns in H
    as (keys & units & img & st & trp & vrp & out1
        & Hc & Hl & Hd & Ht & Hv & Hm & Hs).
  apply check_arguments_keys in Hc. subst keys.
  apply draw_curves_ok in Hd as (_ & Ev & _).
  apply merge_curves_ok in Hm as (_ & _ & _ & Hdata).
  apply scale_time_ok in Hs as (q0 & q1 & r' & F0 & F1 & Fr & Et & Ed & Ei).
  rewrite Ed. rewrite Ev in Hdata. simpl in Hdata.
  destruct Hdata as [[E E']|(p0 & p1 & r & E0 & E1 & Er & E)];
    [discriminate|].
  rewrite E. reflexivity.
Qed.

(** C10. When the arguments pass the checks and the image is loaded, a
    capture session that ends with no click makes [ui_draw] raise
    IndexError; so no container is ever returned for a call in which a
    requested curve has no click. *)
Theorem C10_empty_capture_session (w : world) (filename : pyval)
  (time_range value_range : option (Q * Q)) (data_keys data_units : pyval)
  (keys : list string) (units : option (list string)) (img : image)
  (i : nat) :
  result (check_arguments filename data_keys data_units) = inr (keys, units) ->
  result (load_image w filename) = inr (Some img) ->
  (i < List.length keys)%nat -> ginput_curve w i = [] ->
  result (ui_draw interp w filename time_range value_range data_keys
            data_units) = inl IndexError
  /\
  forall out,
    result (ui_draw interp w filename time_range value_range data_keys
              data_units) <> inr out.
Proof.
  intros Hc Hl Hi He.
  assert (E : result (ui_draw interp w filename time_range value_range
                        data_keys data_units) = inl IndexError).
  { unfold ui_draw.
    rewrite (result_bind_ok _ _ _ Hc). simpl fst.
    rewrite (result_bind_ok _ _ _ Hl), result_emit. unfold imshow.
    rewrite result_emit.
    apply result_bind_err. apply draw_curves_empty_session.
    exists i. split; assumption. }
  split; [exact E|]. intros out. rewrite E. discriminate.
Qed.


(** C4. A container that [ui_draw] returns has exactly one data channel
    per distinct entry of [data_keys], in the order of the first
    occurrences, so one per entry, in order, when the entries are
    pairwise distinct (as the specification takes them to be); and the
    value array of every channel has as many entries as the time base. *)
Theorem C4_channels_and_lengths (w : world) (filename : pyval)
  (time_range value_range : option (Q * Q)) (data_keys data_units : pyval)
  (keys : list string) (units : option (list string)) (out : TimeSeries) :
  result (check_arguments filename data_keys data_units) = inr (keys, units) ->
  result (ui_draw interp w filename time_range value_range data_keys
            data_units) = inr out ->
  dict_keys (data out) = first_occurrences [] keys /\
  NoDup (dict_keys (data out)) /\
  (NoDup keys -> dict_keys (data out) = keys) /\
  forall k vs, In (k, vs) (data out) ->
    List.length vs = List.length (time out).
Proof.
  intros Hc H.
  destruct (returned_container interp _ _ _ _ _ _ _ _ _ Hc H)
    as (a & b & r & _ & _ & Etime & _ & _ & Hdata).
  assert (Hkeys : dict_keys (data out) = first_occurrences [] keys).
  { rewrite <- captured_keys with (w := w).
    destruct Hdata as [[E ->]|(c & d & rv & _ & _ & ->)].
    - now rewrite E.
    - apply curve_channel_keys. }
  split; [exact Hkeys|]. split.
  { rewrite Hkeys.
    exact (first_occurrences_NoDup keys [] (NoDup_nil _)). }
  split.
  { intros Hn. rewrite Hkeys. apply first_occurrences_id; [exact Hn|].
    intros k _ []. }
  intros k vs Hin. rewrite Etime, length_map.
  destruct Hdata as [[_ E]|(c & d & rv & _ & _ & E)]; rewrite E in Hin.
  - destruct Hin.
  - apply in_map_iff in Hin as (kp & Hkp & _).
    change vs with (snd (k, vs)). rewrite <- Hkp.
    now rewrite curve_channel_length, length_map.
Qed.


(** C1 (amended). The time base of a container that [ui_draw] returns is
    the image, by the time calibration as float64 computes it
    ([(x - a) * (time_range[1] - time_range[0]) / (b - a) + time_range[0]],
    with [a <= b] the two clicked x pixels), of a list of pixel instants
    that is strictly increasing, hence free of duplicates, and that holds
    exactly the x pixels of the clicks of the captured curves; an instant
    shared by several curves is in that list once, as every instant is.
    With an increasing [time_range] the returned instants, when they are
    finite, are in ascending order; they need not be different from one
    another. *)
Theorem C1_time_base (w : world) (filename : pyval)
  (time_range value_range : option (Q * Q)) (data_keys data_units : pyval)
  (keys : list string) (units : option (list string)) (out : TimeSeries) :
  result (check_arguments filename data_keys data_units) = inr (keys, units) ->
  result (ui_draw interp w filename time_range value_range data_keys
            data_units) = inr out ->
  exists (base : list Q) (a b : Q) (r : Q * Q),
    time_range = Some r /\
    sorted (map fst (firstn 2 (ginput_time w))) = [a; b] /\ a <= b /\
    time out =
      map (fun x =>
             Np.add
               (Np.div (Np.mul (Np.sub (Fin x) (Fin a))
                               (Np.sub (Fin (snd r)) (Fin (fst r))))
                       (Np.sub (Fin b) (Fin a)))
               (Fin (fst r)))
          base /\
    StronglySorted Qlt base /\
    (forall x, InA Qeq x base <->
       exists k clicks c,
         captured_curve w keys k clicks /\ In c clicks /\ fst c == x) /\
    (forall x k1 k2 clicks1 clicks2 c1 c2,
       captured_curve w keys k1 clicks1 -> In c1 clicks1 -> fst c1 == x ->
       captured_curve w keys k2 clicks2 -> In c2 clicks2 -> fst c2 == x ->
       count x base = 1%nat) /\
    (fst r <= snd r ->
     forall ts, time out = map Fin ts -> StronglySorted Qle ts).
Proof.
  intros Hc H.
  destruct (returned_container interp _ _ _ _ _ _ _ _ _ Hc H)
    as (a & b & r & Er & Eab & Etime & _).
  exists (new_time (map (on_snd xs_of) (captured w keys))), a, b, r.
  assert (Hmem : forall x,
    InA Qeq x (new_time (map (on_snd xs_of) (captured w keys))) <->
    exists k clicks c,
      captured_curve w keys k clicks /\ In c clicks /\ fst c == x).
  { intros x. rewrite new_time_InA. split.
    - intros (kv & Hin & Hx).
      apply in_map_iff in Hin as ([k pts] & <- & Hin).
      simpl in Hx. apply xs_of_InA in Hx as (c & Hc1 & Hc2).
      exists k, pts, c. split; [now apply captured_In|]. tauto.
    - intros (k & pts & c & Hcap & Hin & Hx).
      exists (on_snd xs_of (k, pts)). split.
      + apply in_map. now apply captured_In.
      + simpl. apply xs_of_InA. eauto. }
  assert (Lab : a <= b).
  { pose proof (sorted_le (map fst (firstn 2 (ginput_time w)))) as Hs.
    rewrite Eab in Hs. inversion Hs as [|? ? _ Hall]; subst.
    now inversion Hall. }
  split; [exact Er|]. split; [exact Eab|]. split; [exact Lab|].
  split; [exact Etime|].
  split; [apply new_time_sorted|]. split; [exact Hmem|]. split.
  - intros x k1 k2 clicks1 clicks2 c1 c2 H1 H2 H3 _ _ _.
    apply count_strictly_sorted; [apply new_time_sorted|].
    apply Hmem. exists k1, clicks1, c1. tauto.
  - intros Hr ts Ets. rewrite Etime in Ets.
    apply (rescale_sorted a b (fst r) (snd r) _ ts Lab Hr
             (new_time_sorted _) Ets).
Qed.

(** C9. Nothing guards a zero pixel span. A call with well-formed
    arguments, a loadable image, at least one click per curve, clicks of
    pairwise different x on every curve, two clicks per axis, no curve
    named "Time" and, when units are given, as many of them as curves,
    returns a container, whatever the calibration clicks are, with one
    channel per distinct name. When the two time-axis clicks have the
    same x, every instant of the returned time base is non-finite (an
    infinity or NaN). When the two value-axis clicks have the same y,
    every value of every returned channel is non-finite, the container
    library being taken to give no finite value when it resamples values
    that are all non-finite. *)
Theorem C9_zero_pixel_span (w : world) (filename : pyval) (r rv : Q * Q)
  (data_keys data_units : pyval) (keys : list string)
  (units : option (list string)) (img : image) (c1 c2 d1 d2 : Q * Q) :
  result (check_arguments filename data_keys data_units) = inr (keys, units) ->
  result (load_image w filename) = inr (Some img) ->
  (forall j, (j < List.length keys)%nat -> ginput_curve w j <> []) ->
  (forall j, (j < List.length keys)%nat ->
     NoDupA (key_eq fst) (ginput_curve w j)) ->
  firstn 2 (ginput_time w) = [c1; c2] ->
  firstn 2 (ginput_value w) = [d1; d2] ->
  ~ In "Time"%string keys ->
  match units with
  | Some us => (List.length keys <= List.length us)%nat
  | None => True
  end ->
  (forall t vs x, all_nonfinite vs -> Np.is_finite (interp t vs x) = false) ->
  exists out,
    result (ui_draw interp w filename (Some r) (Some rv) data_keys data_units)
    = inr out /\
    dict_keys (data out) = first_occurrences [] keys /\
    List.length (time out) =
      List.length (new_time (map (on_snd xs_of) (captured w keys))) /\
    (fst c1 == fst c2 -> all_nonfinite (time out)) /\
    (snd d1 == snd d2 ->
     forall k vs, In (k, vs) (data out) ->
       List.length vs = List.length (time out) /\ all_nonfinite vs).
Proof.
  intros Hc Hl Hs Hx Ht Hv Hn Hu Hinterp.
  destruct (ui_draw_progress interp w filename r rv data_keys data_units
              keys units img c1 c2 d1 d2 Hc Hl Hs Hx Ht Hv) as (out & H).
  { destruct units as [us|]; [split; assumption|exact I]. }
  exists out. split; [exact H|].
  destruct (returned_container interp _ _ _ _ _ _ _ _ _ Hc H)
    as (a & b & r' & Er & Eab & Etime & _ & _ & Hdata).
  injection Er as <-.
  split.
  { rewrite <- captured_keys with (w := w).
    destruct Hdata as [[E ->]|(c & d & rv' & _ & _ & ->)].
    - now rewrite E.
    - apply curve_channel_keys. }
  split; [now rewrite Etime, length_map|].
  split.
  - intros E. rewrite Etime.
    rewrite Ht in Eab. simpl map in Eab.
    destruct (sorted_two (fst c1) (fst c2)) as (a' & b' & E' & Ha & Hb).
    rewrite E' in Eab. injection Eab as <- <-.
    assert (Eq : b' == a') by (destruct Ha, Hb; subst; lra).
    apply Forall_forall. intros x Hin.
    apply in_map_iff in Hin as (p & <- & _).
    now apply rescale_zero_span.
  - intros E k vs Hin.
    destruct Hdata as [[_ E']|(c & d & rv' & Erv & Ecd & E')];
      rewrite E' in Hin; [destruct Hin|].
    injection Erv as <-.
    apply in_map_iff in Hin as ([k' clicks] & Hch & Hin).
    split.
    { change vs with (snd (k, vs)). rewrite <- Hch.
      now rewrite curve_channel_length, Etime, !length_map. }
    unfold curve_channel in Hch. simpl in Hch. injection Hch as -> <-.
    rewrite Hv in Ecd. simpl map in Ecd.
    destruct (sorted_two (- snd d1) (- snd d2)) as (c' & d' & E'' & Ha & Hb).
    rewrite E'' in Ecd. injection Ecd as <- <-.
    assert (Eq : d' == c') by (destruct Ha, Hb; subst; lra).
    assert (Hraw : all_nonfinite
              (map (fun v => rescale (Fin v) (Fin c') (Fin d') (Fin (fst rv))
                                (Fin (snd rv))) (vs_of clicks))).
    { apply Forall_forall. intros x Hin'.
      apply in_map_iff in Hin' as (p & <- & _).
      now apply rescale_zero_span. }
    destruct (same_time _ _); [exact Hraw|].
    apply Forall_forall. intros x Hin'. unfold resample in Hin'.
    apply in_map_iff in Hin' as (t & <- & _). now apply Hinterp.
Qed.

(** When [value_range] is omitted and at least one curve is requested,
    no container is returned either. *)
Lemma omitted_value_range_raises (w : world) (filename : pyval)
  (time_range : option (Q * Q)) (data_keys data_units : pyval)
  (k : string) (keys : list string) (units : option (list string)) :
  result (check_arguments filename data_keys data_units)
    = inr (k :: keys, units) ->
  exists e,
    result (ui_draw interp w filename time_range None data_keys data_units)
    = inl e.
Proof.
  intros Hc.
  destruct (result (ui_draw interp w filename time_range None data_keys
                      data_units)) as [e|out] eqn:E; [eauto|].
  destruct (returned_container interp _ _ _ _ _ _ _ _ _ Hc E)
    as (a & b & r & _ & _ & _ & _ & _ & Hdata).
  destruct Hdata as [[E' _]|(c & d & rv & Erv & _)]; [|discriminate].
  apply (f_equal dict_keys) in E'. rewrite captured_keys in E'.
  discriminate.
Qed.

(** C3 (what the code does). A call in which [time_range] is omitted
    never returns a container: the pixel side of the calibration is
    defaulted to the observed extent, the real side stays [None] and
    subscripting it raises. On the call [ui_draw("plot.png")] with three
    clicks on the curve the result is that TypeError, raised after the
    figure has been closed. *)
Theorem C3_omitted_range_raises :
  (forall w filename value_range data_keys data_units,
     exists e,
       result (ui_draw interp w filename None value_range data_keys
                 data_units) = inl e) /\
  ui_draw interp scenario (PyStr "plot.png") None None (PyStr "data") PyNone
  = ([EvImageOpen "plot.png"; EvFigure; EvImshow (Image 0);
      EvGinputCurve "data"; EvCloseFigure],
     inl TypeErrorNone).
Proof.
  split.
  - intros w filename value_range data_keys data_units.
    destruct (result (ui_draw interp w filename None value_range data_keys
                        data_units)) as [e|out] eqn:E; [eauto|].
    apply ui_draw_returns in E
      as (keys & units & img & st & trp & vrp & out1
          & _ & _ & _ & _ & _ & _ & Hs).
    apply scale_time_ok in Hs as (_ & _ & r & _ & _ & Er & _).
    discriminate.
  - reflexivity.
Qed.

End Specification.

(** * Further properties of [ui_draw] *)

(** ** Events *)

Lemma trace_bind {A B : Type} (m : M A) (k : A -> M B) :
  trace (bind m k) =
  trace m ++ match result m with
             | inr a => trace (k a)
             | inl _ => []
             end.
Proof.
  unfold trace, result. destruct m as [t [e|a]]; simpl; [|reflexivity].
  now rewrite app_nil_r.
Qed.

Lemma runs_nil {A : Type} (m : M A) : trace m = [] -> runs m [].
Proof.
  intros H. split; [exists []; now rewrite H|]. intros a _. exact H.
Qed.

Lemma runs_raise {A : Type} (e : exn) (l : list event) :
  runs (@raise A e) l.
Proof. split; [exists l; reflexivity|]. intros a H. discriminate. Qed.

Lemma runs_emit (ev : event) : runs (emit ev) [ev].
Proof. split; [exists []; reflexivity|]. intros a _. reflexivity. Qed.

Lemma runs_bind {A B : Type} (m : M A) (k : A -> M B) (l1 l2 : list event) :
  runs m l1 -> (forall a, result m = inr a -> runs (k a) l2) ->
  runs (bind m k) (l1 ++ l2).
Proof.
  intros [(rest & Hp) Hs] Hk. unfold runs. rewrite trace_bind.
  destruct (result m) as [e|a] eqn:E.
  - split.
    + exists (rest ++ l2). rewrite Hp, app_nil_r, app_assoc. reflexivity.
    + intros b Hb. rewrite (result_bind_err _ _ _ E) in Hb. discriminate.
  - destruct (Hk a eq_refl) as [(rest' & Hp') Hs'].
    rewrite (result_bind_ok _ _ _ E). rewrite (Hs a eq_refl). split.
    + exists rest'. rewrite Hp', app_assoc. reflexivity.
    + intros b Hb. now rewrite (Hs' b Hb).
Qed.

Lemma runs_draw_curves (w : world) (data_keys : list string) (i : nat)
  (st : curves) :
  runs (draw_curves w i data_keys st) (map EvGinputCurve data_keys).
Proof.
  revert i st. induction data_keys as [|k r IH]; intros i st.
  - apply runs_nil. reflexivity.
  - rewrite draw_curves_cons.
    change (map EvGinputCurve (k :: r))
      with ([EvGinputCurve k] ++ map EvGinputCurve r).
    apply runs_bind; [|intros st' _; apply IH].
    unfold draw_curve.
    rewrite <- (app_nil_r [EvGinputCurve k]).
    apply runs_bind; [apply runs_emit|]. intros _ _.
    destruct (ginput_curve w i) as [|c cs]; [apply runs_raise|].
    apply runs_nil.
    repeat (apply trace_bind_nil; [now destruct (_ : option Q)|intros ?]).
    reflexivity.
Qed.

Lemma runs_get_time_range (w : world) (time_range : option (Q * Q))
  (st : curves) :
  runs (get_time_range w time_range st)
       match time_range with Some _ => [EvGinputTimeAxis] | None => [] end.
Proof.
  unfold get_time_range. destruct time_range as [r|];
    [|apply runs_nil; reflexivity].
  rewrite <- (app_nil_r [EvGinputTimeAxis]).
  apply runs_bind; [apply runs_emit|]. intros _ _.
  destruct (firstn 2 (ginput_time w)); [apply runs_raise|].
  apply runs_nil. reflexivity.
Qed.

Lemma runs_get_value_range (w : world) (value_range : option (Q * Q))
  (st : curves) :
  runs (get_value_range w value_range st)
       match value_range with Some _ => [EvGinputValueAxis] | None => [] end.
Proof.
  unfold get_value_range. destruct value_range as [r|];
    [|apply runs_nil; reflexivity].
  rewrite <- (app_nil_r [EvGinputValueAxis]).
  apply runs_bind; [apply runs_emit|]. intros _ _.
  destruct (firstn 2 (ginput_value w)); [apply runs_raise|].
  apply runs_nil. reflexivity.
Qed.

Lemma trace_of_option {A : Type} (e : exn) (o : option A) :
  trace (of_option e o) = [].
Proof. now destruct o. Qed.

Lemma trace_index {A : Type} (l : list A) (i : nat) : trace (index l i) = [].
Proof. unfold index. now destruct (nth_error l i). Qed.

Lemma trace_subscript {A : Type} (o : option A) : trace (subscript o) = [].
Proof. now destruct o. Qed.

Lemma trace_scale_time (time_range : option (Q * Q)) (trp : list npfloat)
  (out : TimeSeries) : trace (scale_time time_range trp out) = [].
Proof.
  unfold scale_time.
  apply trace_bind_nil; [apply trace_index|]. intros p0.
  apply trace_bind_nil; [apply trace_subscript|]. intros r.
  apply trace_bind_nil; [apply trace_index|]. intros p1. reflexivity.
Qed.

Lemma trace_add_info (ts : TimeSeries) (key info_key value : string) :
  trace (add_info ts key info_key value) = [].
Proof. unfold add_info. now destruct (dict_get _ info_key). Qed.

Lemma runs_load_image (w : world) (filename : pyval) :
  runs (load_image w filename) (load_event filename).
Proof.
  unfold load_image, load_event. destruct filename as [|z|f|l];
    try apply runs_raise.
  - rewrite <- (app_nil_r [EvGrabClipboard]).
    apply runs_bind; [apply runs_emit|]. intros _ _.
    destruct (grabclipboard w); try apply runs_raise.
    + apply runs_nil. reflexivity.
    + apply runs_nil. reflexivity.
  - rewrite <- (app_nil_r [EvImageOpen f]).
    apply runs_bind; [apply runs_emit|]. intros _ _.
    apply runs_nil. apply trace_bind_nil; [apply trace_of_option|].
    reflexivity.
Qed.

Section Events.

Variable interp : list npfloat -> list npfloat -> npfloat -> npfloat.

Lemma trace_merge (out ts : TimeSeries) : trace (merge interp out ts) = [].
Proof.
  unfold merge. apply trace_bind_nil; [|reflexivity].
  destruct (same_time _ _); [reflexivity|]. now destruct (increasing _).
Qed.

Lemma trace_merge_curves (st : curves) (vr : option (Q * Q))
  (vrp : list npfloat) (units : option (list string))
  (items : list (string * list Q)) (i : nat) (out : TimeSeries) :
  trace (merge_curves interp st vr vrp units i items out) = [].
Proof.
  revert i out. induction items as [|[k v] items IH]; intros i out;
    [reflexivity|].
  cbn [merge_curves]. apply trace_bind_nil; [|intros out'; apply IH].
  unfold scale_and_merge.
  apply trace_bind_nil; [apply trace_of_option|]. intros tpx.
  apply trace_bind_nil; [apply trace_index|]. intros p0.
  apply trace_bind_nil; [apply trace_subscript|]. intros r.
  apply trace_bind_nil; [apply trace_index|]. intros p1.
  apply trace_bind_nil; [|intros temp; apply trace_merge].
  destruct units as [us|]; [|reflexivity].
  apply trace_bind_nil; [apply trace_index|intros u; apply trace_add_info].
Qed.

(** X1. Once the arguments are checked and the image is loaded, the
    events of a call are always a prefix of: load the image, create the
    figure and show the image, one capture session per entry of
    [data_keys] in their order (repeated names included), the clicks for
    the time axis and for the value axis when their range is given, close
    the figure; and they are exactly that list when the call returns a
    container. *)
Theorem X1_event_protocol (w : world) (filename : pyval)
  (time_range value_range : option (Q * Q)) (data_keys data_units : pyval)
  (keys : list string) (units : option (list string)) (img : image) :
  result (check_arguments filename data_keys data_units) = inr (keys, units) ->
  result (load_image w filename) = inr (Some img) ->
  (exists rest,
     protocol filename img keys time_range value_range =
     trace (ui_draw interp w filename time_range value_range data_keys
              data_units) ++ rest) /\
  (forall out,
     result (ui_draw interp w filename time_range value_range data_keys
               data_units) = inr out ->
     trace (ui_draw interp w filename time_range value_range data_keys
              data_units) =
     protocol filename img keys time_range value_range).
Proof.
  intros Hc Hl.
  change (runs (ui_draw interp w filename time_range value_range data_keys
                  data_units)
               (protocol filename img keys time_range value_range)).
  unfold ui_draw, protocol.
  change (load_event filename ++ [EvFigure; EvImshow img] ++
          map EvGinputCurve keys ++
          match time_range with Some _ => [EvGinputTimeAxis] | None => [] end ++
          match value_range with Some _ => [EvGinputValueAxis] | None => [] end ++
          [EvCloseFigure])
    with ([] ++ load_event filename ++ [EvFigure] ++ [EvImshow img] ++
          map EvGinputCurve keys ++
          match time_range with Some _ => [EvGinputTimeAxis] | None => [] end ++
          match value_range with Some _ => [EvGinputValueAxis] | None => [] end ++
          [EvCloseFigure] ++ [] ++ []).
  apply runs_bind; [apply runs_nil, check_arguments_trace|].
  intros args Ha. assert (args = (keys, units)) by congruence. subst args.
  apply runs_bind; [apply runs_load_image|].
  intros oi Hi. assert (oi = Some img) by congruence. subst oi.
  apply runs_bind; [apply runs_emit|]. intros _ _.
  apply runs_bind; [apply runs_emit|]. intros _ _.
  apply runs_bind; [apply runs_draw_curves|]. intros st _.
  apply runs_bind; [apply runs_get_time_range|]. intros trp _.
  apply runs_bind; [apply runs_get_value_range|]. intros vrp _.
  apply runs_bind; [apply runs_emit|]. intros _ _.
  apply runs_bind; [apply runs_nil, trace_merge_curves|]. intros out1 _.
  apply runs_nil, trace_scale_time.
Qed.



Lemma trace_emit_bind {B : Type} (ev : event) (k : unit -> M B) :
  trace (bind (emit ev) k) = ev :: trace (k tt).
Proof. reflexivity. Qed.

Lemma trace_draw_curve (w : world) (i : nat) (k : string) (st : curves) :
  trace (draw_curve w i k st) = [EvGinputCurve k].
Proof.
  destruct (runs_draw_curves w [k] i st) as [(rest & Hp) Hs].
  destruct (draw_curve_result w i k st) as [[_ E]|(_ & st' & E & _)].
  - unfold draw_curves in Hp. rewrite trace_bind, E, app_nil_r in Hp.
    unfold draw_curve in *. rewrite trace_emit_bind in *.
    simpl in Hp. injection Hp as Hp. f_equal.
    destruct (trace _); [reflexivity|discriminate].
  - specialize (Hs st'). unfold draw_curves in Hs.
    rewrite trace_bind, E, app_nil_r in Hs. apply Hs.
    now rewrite (result_bind_ok _ _ _ E).
Qed.

Lemma trace_draw_curves_fail (w : world) (data_keys : list string)
  (i j : nat) (st : curves) :
  (j < List.length data_keys)%nat ->
  ginput_curve w (i + j) = [] ->
  (forall j', (j' < j)%nat -> ginput_curve w (i + j') <> []) ->
  trace (draw_curves w i data_keys st) =
  map EvGinputCurve (firstn (S j) data_keys).
Proof.
  revert i j st. induction data_keys as [|k r IH]; intros i j st Hj He Hn;
    [simpl in Hj; lia|].
  rewrite draw_curves_cons, trace_bind, trace_draw_curve.
  destruct (draw_curve_result w i k st) as [[E1 E]|(Hne & st' & E & _)];
    rewrite E.
  - destruct j as [|j]; [reflexivity|].
    exfalso. apply (Hn 0%nat); [lia|]. now rewrite Nat.add_0_r.
  - destruct j as [|j].
    { rewrite Nat.add_0_r in He. contradiction. }
    cbn [firstn map app]. f_equal. apply IH.
    + simpl in Hj. lia.
    + now replace (S i + j)%nat with (i + S j)%nat by lia.
    + intros j' Hj'. replace (S i + j')%nat with (i + S j')%nat by lia.
      apply Hn. lia.
Qed.

(** X2. When the capture session of index [i] is the first to end
    without a click, the call stops there: its events are the loading of
    the image, the figure, the image shown and the capture sessions up to
    that one; the figure is never closed. *)
Theorem X2_capture_failure_leaves_figure_open (w : world) (filename : pyval)
  (time_range value_range : option (Q * Q)) (data_keys data_units : pyval)
  (keys : list string) (units : option (list string)) (img : image)
  (i : nat) :
  result (check_arguments filename data_keys data_units) = inr (keys, units) ->
  result (load_image w filename) = inr (Some img) ->
  (i < List.length keys)%nat -> ginput_curve w i = [] ->
  (forall j, (j < i)%nat -> ginput_curve w j <> []) ->
  trace (ui_draw interp w filename time_range value_range data_keys
           data_units) =
  load_event filename ++ [EvFigure; EvImshow img] ++
  map EvGinputCurve (firstn (S i) keys)
  /\
  ~ In EvCloseFigure
      (trace (ui_draw interp w filename time_range value_range data_keys
                data_units)).
Proof.
  intros Hc Hl Hi He Hn.
  assert (E : trace (ui_draw interp w filename time_range value_range
                       data_keys data_units) =
              load_event filename ++ [EvFigure; EvImshow img] ++
              map EvGinputCurve (firstn (S i) keys)).
  { unfold ui_draw.
    rewrite trace_bind, check_arguments_trace, Hc. cbn [app fst snd].
    rewrite trace_bind, Hl.
    rewrite (proj2 (runs_load_image w filename) _ Hl).
    rewrite trace_emit_bind. unfold imshow. rewrite trace_emit_bind.
    rewrite trace_bind.
    rewrite (draw_curves_empty_session w keys 0 no_curves)
      by (exists i; split; assumption).
    rewrite (trace_draw_curves_fail w keys 0 i no_curves Hi He Hn).
    now rewrite app_nil_r. }
  split; [exact E|]. rewrite E.
  rewrite !in_app_iff, in_map_iff.
  intros [H|[H|(k & H & _)]]; try discriminate.
  - destruct filename; simpl in H; intuition discriminate.
  - simpl in H. intuition discriminate.
Qed.

(** X3. A figure is created exactly when the arguments have passed the
    checks and reading the image has raised nothing. The image is then
    loaded, except when no filename is given and reading the clipboard
    returns [None]: the figure is then created with no image to show. *)
Theorem X3_figure_only_after_checks_and_image (w : world) (filename : pyval)
  (time_range value_range : option (Q * Q)) (data_keys data_units : pyval) :
  In EvFigure (trace (ui_draw interp w filename time_range value_range
                        data_keys data_units)) <->
  exists args,
    result (check_arguments filename data_keys data_units) = inr args /\
    ((exists img, result (load_image w filename) = inr (Some img)) \/
     (filename = PyNone /\ grabclipboard w = GrabNone /\
      result (load_image w filename) = inr None)).
Proof.
  unfold ui_draw. rewrite trace_bind, check_arguments_trace.
  destruct (result (check_arguments filename data_keys data_units))
    as [e|args] eqn:Hc.
  { split; [intros []|]. intros (args & E & _). discriminate. }
  cbn [app]. rewrite trace_bind.
  destruct (result (load_image w filename)) as [e|img] eqn:El.
  - rewrite app_nil_r. split.
    + intros H. exfalso.
      destruct (runs_load_image w filename) as [(rest & Hp) _].
      assert (Hin : In EvFigure (load_event filename)).
      { rewrite Hp. apply in_app_iff. now left. }
      destruct filename; simpl in Hin; intuition discriminate.
    + intros (args' & _ & [(img & E)|(_ & _ & E)]); discriminate.
  - split.
    + intros _. exists args. split; [reflexivity|].
      destruct img as [img|]; [left; eauto|]. right.
      apply check_arguments_filename in Hc as [->|(f & ->)].
      * split; [reflexivity|]. split; [|reflexivity].
        unfold load_image in El. rewrite result_emit in El.
        unfold result in El.
        destruct (grabclipboard w); simpl in El; congruence.
      * exfalso. unfold load_image in El. rewrite result_emit in El.
        unfold result in El.
        destruct (image_open w f); simpl in El; congruence.
    + intros _. apply in_app_iff. right. rewrite trace_emit_bind.
      now left.
Qed.

End Events.

(** ** Errors *)

Lemma all_str_inv (l : list pyval) (ss : list string) :
  all_str l = Some ss -> l = map PyStr ss.
Proof.
  revert ss. induction l as [|v r IH]; intros ss H; simpl in H.
  - injection H as <-. reflexivity.
  - destruct v as [| |s|]; try discriminate.
    destruct (all_str r) as [ss'|]; [|discriminate].
    simpl in H. injection H as <-. simpl. f_equal. now apply IH.
Qed.

Lemma result_bind_inl {A B : Type} (m : M A) (k : A -> M B) (e : exn) :
  result (bind m k) = inl e ->
  result m = inl e \/ exists a, result m = inr a /\ result (k a) = inl e.
Proof.
  unfold result. destruct m as [t [e'|a]]; simpl; intros H.
  - left. injection H as ->. reflexivity.
  - right. eauto.
Qed.

Lemma draw_curves_error (w : world) (data_keys : list string) (i : nat)
  (st : curves) (e : exn) :
  result (draw_curves w i data_keys st) = inl e -> e = IndexError.
Proof.
  revert i st. induction data_keys as [|k r IH]; intros i st H;
    [discriminate|].
  rewrite draw_curves_cons in H.
  apply result_bind_inl in H as [H|(st' & _ & H)]; [|now apply IH in H].
  destruct (draw_curve_result w i k st) as [[_ E]|(_ & st' & E & _)];
    congruence.
Qed.

Lemma index_error {A : Type} (l : list A) (i : nat) (e : exn) :
  result (index l i) = inl e -> e = IndexError.
Proof.
  unfold index, result. destruct (nth_error l i); simpl; congruence.
Qed.

Lemma subscript_error {A : Type} (o : option A) (e : exn) :
  result (subscript o) = inl e -> e = TypeErrorNone.
Proof. unfold result. destruct o; simpl; congruence. Qed.

Lemma get_time_range_error (w : world) (tr : option (Q * Q)) (st : curves)
  (e : exn) :
  result (get_time_range w tr st) = inl e -> e = IndexError.
Proof.
  unfold get_time_range, result. destruct tr; [|discriminate].
  destruct (firstn 2 (ginput_time w)); simpl; congruence.
Qed.

Lemma get_value_range_error (w : world) (vr : option (Q * Q)) (st : curves)
  (e : exn) :
  result (get_value_range w vr st) = inl e -> e = IndexError.
Proof.
  unfold get_value_range, result. destruct vr; [|discriminate].
  destruct (firstn 2 (ginput_value w)); simpl; congruence.
Qed.

Lemma scale_time_error (tr : option (Q * Q)) (trp : list npfloat)
  (out : TimeSeries) (e : exn) :
  result (scale_time tr trp out) = inl e ->
  e = IndexError \/ e = TypeErrorNone.
Proof.
  unfold scale_time. intros H.
  apply result_bind_inl in H as [H|(p0 & _ & H)];
    [left; now apply index_error in H|].
  apply result_bind_inl in H as [H|(r & _ & H)];
    [right; now apply subscript_error in H|].
  apply result_bind_inl in H as [H|(p1 & _ & H)];
    [left; now apply index_error in H|].
  discriminate.
Qed.

Lemma check_list_str_error (name : string) (v : pyval) (e : exn) :
  result (check_list_str name v) = inl e -> e = InvalidArgument name.
Proof.
  unfold result. destruct v as [| | |l]; simpl; try congruence.
  destruct (all_str l); simpl; congruence.
Qed.

Lemma check_arguments_error (filename data_keys data_units : pyval)
  (e : exn) :
  result (check_arguments filename data_keys data_units) = inl e ->
  exists name, e = InvalidArgument name.
Proof.
  unfold check_arguments. intros H.
  apply result_bind_inl in H as [H|(u & _ & H)].
  { unfold result in H. destruct filename; simpl in H;
      try discriminate; injection H as <-; eauto. }
  apply result_bind_inl in H as [H|(ks & _ & H)].
  { apply check_list_str_error in H. eauto. }
  apply result_bind_inl in H as [H|(us & _ & H)]; [|discriminate].
  destruct data_units as [| |u0|l]; try discriminate.
  - unfold result in H. simpl in H. injection H as <-. eauto.
  - apply result_bind_inl in H as [H|(x & _ & H)]; [|discriminate].
    apply check_list_str_error in H. eauto.
  - apply result_bind_inl in H as [H|(x & _ & H)]; [|discriminate].
    apply check_list_str_error in H. eauto.
Qed.

Section Errors.

Variable interp : list npfloat -> list npfloat -> npfloat -> npfloat.

Lemma scale_and_merge_error (st : curves) (vr : option (Q * Q))
  (vrp : list npfloat) (units : option (list string)) (i : nat) (k : string)
  (v : list Q) (out : TimeSeries) (e : exn) :
  In k (dict_keys (time_in_pixels_dict st)) ->
  result (scale_and_merge interp st vr vrp units i k v out) = inl e ->
  e = IndexError \/ e = TypeErrorNone \/
  (e = ValueError /\
   ((units <> None /\ k = "Time"%string) \/
    exists tpx, dict_get (time_in_pixels_dict st) k = Some tpx /\
                increasing (map Fin tpx) = false)).
Proof.
  intros Hk H. unfold scale_and_merge in H.
  apply result_bind_inl in H as [H|(tpx & Ht & H)].
  { destruct (dict_get_key (time_in_pixels_dict st) k Hk) as (t & Et).
    rewrite Et in H. discriminate. }
  apply result_of_option in Ht.
  apply result_bind_inl in H as [H|(p0 & _ & H)];
    [left; now apply index_error in H|].
  apply result_bind_inl in H as [H|(r & _ & H)];
    [right; left; now apply subscript_error in H|].
  apply result_bind_inl in H as [H|(p1 & _ & H)];
    [left; now apply index_error in H|].
  apply result_bind_inl in H as [H|(temp & Ha & H)].
  - destruct units as [us|]; [|discriminate].
    apply result_bind_inl in H as [H|(u & _ & H)];
      [left; now apply index_error in H|].
    right. right.
    match type of H with
    | result (add_info (new_TimeSeries ?t ?d) _ _ _) = _ =>
        destruct (add_info_new t d k u) as [[Ek E]|[_ E]]
    end; [|congruence].
    split; [congruence|]. left. split; [discriminate|exact Ek].
  - apply annotate_ok in Ha as (Et & _ & _).
    unfold merge in H. rewrite Et in H.
    apply result_bind_inl in H as [H|(ch & _ & H)]; [|discriminate].
    destruct (same_time (time out) (map Fin tpx)); [discriminate|].
    destruct (increasing (map Fin tpx)) eqn:Einc; [discriminate|].
    unfold result in H. simpl in H. injection H as <-.
    right. right. split; [reflexivity|]. right. eauto.
Qed.

Lemma merge_curves_error (st : curves) (vr : option (Q * Q))
  (vrp : list npfloat) (units : option (list string))
  (items : list (string * list Q)) (i : nat) (out : TimeSeries) (e : exn) :
  (forall kv, In kv items ->
     In (fst kv) (dict_keys (time_in_pixels_dict st))) ->
  result (merge_curves interp st vr vrp units i items out) = inl e ->
  e = IndexError \/ e = TypeErrorNone \/
  (e = ValueError /\
   exists kv, In kv items /\
     ((units <> None /\ fst kv = "Time"%string) \/
      exists tpx, dict_get (time_in_pixels_dict st) (fst kv) = Some tpx /\
                  increasing (map Fin tpx) = false)).
Proof.
  revert i out. induction items as [|[k v] items IH]; intros i out Hk H;
    [discriminate|].
  cbn [merge_curves] in H.
  apply result_bind_inl in H as [H|(out' & _ & H)].
  - apply scale_and_merge_error in H as [->|[->|[-> H]]]; auto.
    + right. right. split; [reflexivity|]. exists (k, v). split; [now left|].
      exact H.
    + apply (Hk (k, v)). now left.
  - apply (IH (S i) out') in H as [->|[->|[-> (kv & Hin & H)]]]; auto.
    + right. right. split; [reflexivity|]. exists kv. split; [now right|].
      exact H.
    + intros kv Hin. apply Hk. now right.
Qed.

(** X4. The exceptions a call can end with: the error of an argument
    check, raised before anything has happened (no event); the errors of
    the image and display libraries; IndexError; the TypeError of a
    subscripted [None]; and the ValueError of the container library, which
    is raised only when a curve is named "Time", or when two clicks of a
    kept curve have the same x. The [min] and [max]
    of lines 149-160 never see an empty sequence, and the dict lookups of
    lines 198-199 never miss their key. *)
Theorem X4_possible_errors (w : world) (filename : pyval)
  (time_range value_range : option (Q * Q)) (data_keys data_units : pyval)
  (e : exn) :
  result (ui_draw interp w filename time_range value_range data_keys
            data_units) = inl e ->
  match e with
  | InvalidArgument _ =>
      trace (ui_draw interp w filename time_range value_range data_keys
               data_units) = []
  | KeyError => False
  | ValueError =>
      exists keys units,
        result (check_arguments filename data_keys data_units)
          = inr (keys, units) /\
        (In "Time"%string keys \/
         exists k clicks,
           captured_curve w keys k clicks /\
           ~ NoDupA (key_eq fst) clicks)
  | _ => True
  end.
Proof.
  intros H. unfold ui_draw in *.
  apply result_bind_inl in H as [H|([keys units] & Hc & H)].
  { pose proof (check_arguments_error _ _ _ _ H) as (name & ->).
    rewrite trace_bind, check_arguments_trace, H. reflexivity. }
  cbn [fst snd] in H.
  apply result_bind_inl in H as [H|(img & Hl & H)].
  { apply check_arguments_filename in Hc as [->|(f & ->)].
    - unfold load_image in H. rewrite result_emit in H.
      unfold result in H. destruct (grabclipboard w); simpl in H;
        try discriminate; injection H as <-; exact I.
    - unfold load_image in H. rewrite result_emit in H.
      unfold result in H. destruct (image_open w f); simpl in H;
        try discriminate; injection H as <-; exact I. }
  rewrite result_emit in H.
  apply result_bind_inl in H as [H|(u & _ & H)].
  { unfold result in H. destruct img; simpl in H; [discriminate|].
    injection H as <-. exact I. }
  apply result_bind_inl in H as [H|(st & Hd & H)].
  { apply draw_curves_error in H. subst e. exact I. }
  apply result_bind_inl in H as [H|(trp & _ & H)].
  { apply get_time_range_error in H. subst e. exact I. }
  apply result_bind_inl in H as [H|(vrp & _ & H)].
  { apply get_value_range_error in H. subst e. exact I. }
  rewrite result_emit in H.
  apply result_bind_inl in H as [H|(out1 & _ & H)].
  { pose proof (stored_curves w keys st Hd) as Hst.
    apply merge_curves_error in H as [->|[->|[-> (kv & Hin & H)]]];
      try exact I.
    - destruct (Hst kv Hin) as (Hk & clicks & Hcap & Hget).
      exists keys, units. split; [exact Hc|].
      destruct H as [[Hu Ek]|(tpx & Et & Einc)].
      + left. now rewrite <- Ek.
      + right. exists (fst kv), clicks. split; [exact Hcap|].
        intros Hnd. apply xs_of_increasing in Hnd. congruence.
    - intros kv Hin. destruct (Hst kv Hin) as (_ & clicks & _ & Hget).
      clear - Hget.
      induction (time_in_pixels_dict st) as [|[k' v'] d IH];
        simpl in *; [discriminate|].
      destruct (String.eqb k' (fst kv)) eqn:E; [|right; now apply IH].
      left. now apply String.eqb_eq. }
  apply scale_time_error in H as [->| ->]; exact I.
Qed.

End Errors.

(** ** Order of the clicks *)


Lemma bind_ext {A B : Type} (m : M A) (k k' : A -> M B) :
  (forall a, k a = k' a) -> bind m k = bind m k'.
Proof. intros H. destruct m as [t [e|a]]; simpl; [reflexivity|]. now rewrite H. Qed.

Lemma draw_curves_ext (w w' : world) :
  (forall i k st, draw_curve w i k st = draw_curve w' i k st) ->
  forall data_keys i st,
    draw_curves w i data_keys st = draw_curves w' i data_keys st.
Proof.
  intros H data_keys. induction data_keys as [|k r IH]; intros i st;
    [reflexivity|].
  rewrite !draw_curves_cons, H. apply bind_ext. intros st'. apply IH.
Qed.

Lemma sorted_swap (x y : Q) : ~ x == y -> sorted [x; y] = sorted [y; x].
Proof.
  intros H. unfold sorted, sort_by. simpl.
  destruct (Qltb x y) eqn:E1, (Qltb y x) eqn:E2; try reflexivity.
  - apply Qltb_true in E1, E2. lra.
  - apply Qltb_false in E1, E2. exfalso. apply H. lra.
Qed.

Section ClickOrder.

Variable interp : list npfloat -> list npfloat -> npfloat -> npfloat.

(** Two worlds in which every stage reads the same give the same call. *)
Lemma ui_draw_ext (w w' : world) (filename : pyval)
  (time_range value_range : option (Q * Q)) (data_keys data_units : pyval) :
  (forall fn, load_image w fn = load_image w' fn) ->
  (forall i k st, draw_curve w i k st = draw_curve w' i k st) ->
  (forall tr st, get_time_range w tr st = get_time_range w' tr st) ->
  (forall vr st, get_value_range w vr st = get_value_range w' vr st) ->
  ui_draw interp w filename time_range value_range data_keys data_units =
  ui_draw interp w' filename time_range value_range data_keys data_units.
Proof.
  intros Hl Hd Ht Hv. unfold ui_draw.
  apply bind_ext. intros args. rewrite Hl.
  apply bind_ext. intros img. apply bind_ext. intros _.
  apply bind_ext. intros _.
  rewrite (draw_curves_ext w w' Hd). apply bind_ext. intros st.
  rewrite Ht. apply bind_ext. intros trp. rewrite Hv. reflexivity.
Qed.

(** X5. The two calibration clicks of an axis can be made in either
    order: with the two time-axis clicks exchanged (their x being
    different), or the two value-axis clicks exchanged (their y being
    different), the call performs the same events and gives the same
    result. *)
Theorem X5_calibration_clicks_in_any_order (w : world) (filename : pyval)
  (time_range value_range : option (Q * Q)) (data_keys data_units : pyval)
  (c1 c2 : Q * Q) :
  (ginput_time w = [c1; c2] -> ~ fst c1 == fst c2 ->
   ui_draw interp (with_time_clicks w [c2; c1]) filename time_range
     value_range data_keys data_units =
   ui_draw interp w filename time_range value_range data_keys data_units)
  /\
  (ginput_value w = [c1; c2] -> ~ snd c1 == snd c2 ->
   ui_draw interp (with_value_clicks w [c2; c1]) filename time_range
     value_range data_keys data_units =
   ui_draw interp w filename time_range value_range data_keys data_units).
Proof.
  split; intros Hc Hne; apply ui_draw_ext; try reflexivity.
  - intros tr st. unfold get_time_range. destruct tr; [|reflexivity].
    rewrite Hc. cbn [with_time_clicks ginput_time firstn map].
    rewrite (sorted_swap (fst c2) (fst c1)); [reflexivity|].
    intros E. apply Hne. now symmetry.
  - intros vr st. unfold get_value_range. destruct vr; [|reflexivity].
    rewrite Hc. cbn [with_value_clicks ginput_value firstn map].
    rewrite (sorted_swap (- snd c2) (- snd c1)); [reflexivity|].
    intros E. apply Hne. lra.
Qed.

(** X6. The points of a curve can be clicked in any order: when in every
    capture session the clicks are the same up to their order, and have
    pairwise different x, the call performs the same events and gives
    the same result. *)
Theorem X6_curve_clicks_in_any_order (w : world)
  (clicks : nat -> list (Q * Q)) (filename : pyval)
  (time_range value_range : option (Q * Q)) (data_keys data_units : pyval) :
  (forall i, Permutation (ginput_curve w i) (clicks i)) ->
  (forall i, NoDupA (key_eq fst) (ginput_curve w i)) ->
  ui_draw interp (with_curve_clicks w clicks) filename time_range
    value_range data_keys data_units =
  ui_draw interp w filename time_range value_range data_keys data_units.
Proof.
  intros Hp Hd. apply ui_draw_ext; try reflexivity.
  intros i k st. unfold draw_curve.
  cbn [with_curve_clicks ginput_curve].
  apply bind_ext. intros _.
  assert (Es : sort_points (clicks i) = sort_points (ginput_curve w i)).
  { symmetry. apply sort_by_order_free; [apply Hd|apply Hp]. }
  specialize (Hp i).
  destruct (ginput_curve w i) as [|c cs] eqn:E1, (clicks i) as [|c' cs'] eqn:E2.
  - reflexivity.
  - apply Permutation_nil in Hp. discriminate.
  - apply Permutation_sym, Permutation_nil in Hp. discriminate.
  - rewrite Es. reflexivity.
Qed.

End ClickOrder.

(** ** The default pixel extent *)

Lemma iter_min_spec (l : list Q) (t : Q) :
  iter_min l = Some t -> In t l /\ forall x, In x l -> t <= x.
Proof.
  destruct l as [|a r]; simpl; [discriminate|]. intros H. injection H as <-.
  assert (G : forall r m,
    (fold_left (fun m y => if Qltb y m then y else m) r m = m \/
     In (fold_left (fun m y => if Qltb y m then y else m) r m) r) /\
    fold_left (fun m y => if Qltb y m then y else m) r m <= m /\
    forall x, In x r ->
      fold_left (fun m y => if Qltb y m then y else m) r m <= x).
  { clear. induction r as [|y r IH]; intros m; simpl.
    - split; [now left|]. split; [lra|]. intros x [].
    - destruct (IH (if Qltb y m then y else m)) as (H1 & H2 & H3).
      destruct (Qltb y m) eqn:E.
      + apply Qltb_true in E.
        split; [destruct H1 as [H1|H1]; right; [left; now rewrite H1|now right]|].
        split; [lra|].
        intros x [->|Hx]; [exact H2|now apply H3].
      + apply Qltb_false in E. split; [tauto|]. split; [exact H2|].
        intros x [->|Hx]; [lra|now apply H3]. }
  destruct (G r a) as (H1 & H2 & H3).
  split; [destruct H1 as [H1|H1]; [left; now rewrite H1|now right]|].
  intros x [->|Hx]; [exact H2|now apply H3].
Qed.

Lemma iter_max_spec (l : list Q) (t : Q) :
  iter_max l = Some t -> In t l /\ forall x, In x l -> x <= t.
Proof.
  destruct l as [|a r]; simpl; [discriminate|]. intros H. injection H as <-.
  assert (G : forall r m,
    (fold_left (fun m y => if Qltb m y then y else m) r m = m \/
     In (fold_left (fun m y => if Qltb m y then y else m) r m) r) /\
    m <= fold_left (fun m y => if Qltb m y then y else m) r m /\
    forall x, In x r ->
      x <= fold_left (fun m y => if Qltb m y then y else m) r m).
  { clear. induction r as [|y r IH]; intros m; simpl.
    - split; [now left|]. split; [lra|]. intros x [].
    - destruct (IH (if Qltb m y then y else m)) as (H1 & H2 & H3).
      destruct (Qltb m y) eqn:E.
      + apply Qltb_true in E.
        split; [destruct H1 as [H1|H1]; right; [left; now rewrite H1|now right]|].
        split; [lra|].
        intros x [->|Hx]; [exact H2|now apply H3].
      + apply Qltb_false in E. split; [tauto|]. split; [exact H2|].
        intros x [->|Hx]; [lra|now apply H3]. }
  destruct (G r a) as (H1 & H2 & H3).
  split; [destruct H1 as [H1|H1]; [left; now rewrite H1|now right]|].
  intros x [->|Hx]; [exact H2|now apply H3].
Qed.

Lemma py_min_is_min (m : npfloat) (P : Q -> Prop) (l : list Q) (t : Q) :
  is_min m P -> In t l -> (forall x, In x l -> t <= x) ->
  is_min (py_min m (Fin t)) (fun x => P x \/ In x l).
Proof.
  intros [[-> Hn]|(q & -> & Hq & Hle)] Ht Hl; right.
  - exists t. split; [reflexivity|]. split; [now right|].
    intros x [Hx|Hx]; [now apply Hn in Hx|now apply Hl].
  - unfold py_min, Np.ltb. destruct (t ?= q) eqn:E.
    + apply Qeq_alt in E. exists q. split; [reflexivity|].
      split; [now left|]. intros x [Hx|Hx]; [now apply Hle|].
      specialize (Hl x Hx). lra.
    + apply Qlt_alt in E. exists t. split; [reflexivity|].
      split; [now right|]. intros x [Hx|Hx]; [|now apply Hl].
      specialize (Hle x Hx). lra.
    + apply Qgt_alt in E. exists q. split; [reflexivity|].
      split; [now left|]. intros x [Hx|Hx]; [now apply Hle|].
      specialize (Hl x Hx). lra.
Qed.

Lemma py_max_is_max (m : npfloat) (P : Q -> Prop) (l : list Q) (t : Q) :
  is_max m P -> In t l -> (forall x, In x l -> x <= t) ->
  is_max (py_max m (Fin t)) (fun x => P x \/ In x l).
Proof.
  intros [[-> Hn]|(q & -> & Hq & Hle)] Ht Hl; right.
  - exists t. split; [reflexivity|]. split; [now right|].
    intros x [Hx|Hx]; [now apply Hn in Hx|now apply Hl].
  - unfold py_max, Np.ltb. destruct (q ?= t) eqn:E.
    + apply Qeq_alt in E. exists q. split; [reflexivity|].
      split; [now left|]. intros x [Hx|Hx]; [now apply Hle|].
      specialize (Hl x Hx). lra.
    + apply Qlt_alt in E. exists t. split; [reflexivity|].
      split; [now right|]. intros x [Hx|Hx]; [|now apply Hl].
      specialize (Hle x Hx). lra.
    + apply Qgt_alt in E. exists q. split; [reflexivity|].
      split; [now left|]. intros x [Hx|Hx]; [now apply Hle|].
      specialize (Hl x Hx). lra.
Qed.

Lemma is_min_ext (m : npfloat) (P P' : Q -> Prop) :
  (forall x, P x <-> P' x) -> is_min m P -> is_min m P'.
Proof.
  intros H [[-> Hn]|(q & -> & Hq & Hle)].
  - left. split; [reflexivity|]. intros x Hx. apply (Hn x). now apply H.
  - right. exists q. split; [reflexivity|]. split; [now apply H|].
    intros x Hx. apply Hle. now apply H.
Qed.

Lemma is_max_ext (m : npfloat) (P P' : Q -> Prop) :
  (forall x, P x <-> P' x) -> is_max m P -> is_max m P'.
Proof.
  intros H [[-> Hn]|(q & -> & Hq & Hle)].
  - left. split; [reflexivity|]. intros x Hx. apply (Hn x). now apply H.
  - right. exists q. split; [reflexivity|]. split; [now apply H|].
    intros x Hx. apply Hle. now apply H.
Qed.

Lemma sorted_coordinate_In (g : Q * Q -> Q) (pts : list (Q * Q)) (x : Q) :
  In x (map g (sort_points pts)) <-> exists c, In c pts /\ x = g c.
Proof.
  rewrite in_map_iff. split.
  - intros (c & <- & H). exists c. split; [|reflexivity].
    exact (proj1 (sort_by_In fst c pts) H).
  - intros (c & H & ->). exists c. split; [reflexivity|].
    exact (proj2 (sort_by_In fst c pts) H).
Qed.

(** What one capture session does to the four running extremes. *)
Lemma draw_curve_extent (w : world) (i : nat) (k : string) (st st' : curves) :
  result (draw_curve w i k st) = inr st' ->
  exists tmin tmax vmin vmax,
    iter_min (map fst (sort_points (ginput_curve w i))) = Some tmin /\
    iter_max (map fst (sort_points (ginput_curve w i))) = Some tmax /\
    iter_min (map (fun p => - snd p) (sort_points (ginput_curve w i)))
      = Some vmin /\
    iter_max (map (fun p => - snd p) (sort_points (ginput_curve w i)))
      = Some vmax /\
    min_time_in_pixels st' = py_min (min_time_in_pixels st) (Fin tmin) /\
    max_time_in_pixels st' = py_max (max_time_in_pixels st) (Fin tmax) /\
    min_value_in_pixels st' = py_min (min_value_in_pixels st) (Fin vmin) /\
    max_value_in_pixels st' = py_max (max_value_in_pixels st) (Fin vmax).
Proof.
  unfold draw_curve. rewrite result_emit.
  destruct (ginput_curve w i) as [|c cs]; [discriminate|].
  intros H.
  apply result_bind_inr in H as (tmin & H1 & H).
  apply result_bind_inr in H as (tmax & H2 & H).
  apply result_bind_inr in H as (vmin & H3 & H).
  apply result_bind_inr in H as (vmax & H4 & H).
  apply result_of_option in H1, H2, H3, H4.
  unfold result in H. simpl in H. injection H as <-.
  exists tmin, tmax, vmin, vmax. simpl. repeat split; assumption.
Qed.

Lemma clicked_step (w : world) (i n : nat) (g : Q * Q -> Q)
  (P : Q -> Prop) (x : Q) :
  ((P x \/ In x (map g (sort_points (ginput_curve w i)))) \/
   exists j c, (j < n)%nat /\ In c (ginput_curve w (S i + j)) /\ x = g c)
  <->
  (P x \/
   exists j c, (j < S n)%nat /\ In c (ginput_curve w (i + j)) /\ x = g c).
Proof.
  rewrite sorted_coordinate_In. split.
  - intros [[H|(c & Hc & ->)]|(j & c & Hj & Hc & ->)].
    + now left.
    + right. exists 0%nat, c. rewrite Nat.add_0_r. repeat split; [lia|exact Hc].
    + right. exists (S j), c.
      replace (i + S j)%nat with (S i + j)%nat by lia.
      repeat split; [lia|exact Hc].
  - intros [H|([|j] & c & Hj & Hc & ->)].
    + left. now left.
    + left. right. exists c. rewrite Nat.add_0_r in Hc. tauto.
    + right. exists j, c.
      replace (S i + j)%nat with (i + S j)%nat by lia.
      repeat split; [lia|exact Hc].
Qed.

Lemma draw_curves_extent (w : world) (data_keys : list string) (i : nat)
  (st st' : curves) (Pt Pv : Q -> Prop) :
  result (draw_curves w i data_keys st) = inr st' ->
  is_min (min_time_in_pixels st) Pt -> is_max (max_time_in_pixels st) Pt ->
  is_min (min_value_in_pixels st) Pv -> is_max (max_value_in_pixels st) Pv ->
  let seen g P x :=
    P x \/ exists j c, (j < List.length data_keys)%nat /\
                       In c (ginput_curve w (i + j)) /\ x = g c in
  is_min (min_time_in_pixels st') (seen fst Pt) /\
  is_max (max_time_in_pixels st') (seen fst Pt) /\
  is_min (min_value_in_pixels st') (seen (fun p => - snd p) Pv) /\
  is_max (max_value_in_pixels st') (seen (fun p => - snd p) Pv).
Proof.
  revert i st Pt Pv.
  induction data_keys as [|k r IH]; intros i st Pt Pv H H1 H2 H3 H4 seen.
  - unfold result in H. simpl in H. injection H as <-.
    assert (E : forall g P x, P x <-> seen g P x).
    { intros g P x. unfold seen. simpl. split; [tauto|].
      intros [Hx|(j & c & Hj & _)]; [exact Hx|lia]. }
    repeat split;
      [eapply is_min_ext|eapply is_max_ext|eapply is_min_ext|eapply is_max_ext];
      try eassumption; apply E.
  - rewrite draw_curves_cons in H.
    apply result_bind_inr in H as (st1 & Hd & H).
    apply draw_curve_extent in Hd
      as (tmin & tmax & vmin & vmax & E1 & E2 & E3 & E4 & F1 & F2 & F3 & F4).
    apply iter_min_spec in E1 as [I1 L1]. apply iter_max_spec in E2 as [I2 L2].
    apply iter_min_spec in E3 as [I3 L3]. apply iter_max_spec in E4 as [I4 L4].
    pose proof (py_min_is_min _ _ _ _ H1 I1 L1) as G1.
    pose proof (py_max_is_max _ _ _ _ H2 I2 L2) as G2.
    pose proof (py_min_is_min _ _ _ _ H3 I3 L3) as G3.
    pose proof (py_max_is_max _ _ _ _ H4 I4 L4) as G4.
    rewrite <- F1 in G1. rewrite <- F2 in G2.
    rewrite <- F3 in G3. rewrite <- F4 in G4.
    destruct (IH (S i) st1 _ _ H G1 G2 G3 G4) as (K1 & K2 & K3 & K4).
    unfold seen. cbn [List.length].
    repeat split;
      [eapply is_min_ext; [|exact K1] | eapply is_max_ext; [|exact K2]
      |eapply is_min_ext; [|exact K3] | eapply is_max_ext; [|exact K4]];
      intros x; apply clicked_step.
Qed.

(** X7. When a range is omitted, no click is asked for its axis and the
    pixel side of its calibration is the observed extent: after the
    capture of at least one curve, the defaults are the least and the
    greatest x (resp. negated y) of the clicks of all the capture
    sessions, those of a curve drawn again under the same name
    included. *)
Theorem X7_default_pixel_extent (w : world) (data_keys : list string)
  (st : curves) :
  data_keys <> [] ->
  result (draw_curves w 0 data_keys no_curves) = inr st ->
  exists tlo thi vlo vhi,
    get_time_range w None st = ([], inr [Fin tlo; Fin thi]) /\
    get_value_range w None st = ([], inr [Fin vlo; Fin vhi]) /\
    clicked w (List.length data_keys) fst tlo /\
    clicked w (List.length data_keys) fst thi /\
    clicked w (List.length data_keys) (fun c => - snd c) vlo /\
    clicked w (List.length data_keys) (fun c => - snd c) vhi /\
    forall j c, (j < List.length data_keys)%nat -> In c (ginput_curve w j) ->
      tlo <= fst c <= thi /\ vlo <= - snd c <= vhi.
Proof.
  intros Hne H.
  pose proof (draw_curves_ok _ _ _ _ _ H) as (_ & _ & Hs).
  assert (Hex : forall g, exists x, clicked w (List.length data_keys) g x).
  { intros g. destruct data_keys as [|k r]; [congruence|].
    specialize (Hs 0%nat ltac:(simpl; lia)). simpl in Hs.
    destruct (ginput_curve w 0) as [|c cs] eqn:E; [congruence|].
    exists (g c), 0%nat, c. rewrite E. simpl. repeat split; [lia|tauto]. }
  destruct (draw_curves_extent w data_keys 0 no_curves st
              (fun _ => False) (fun _ => False) H)
    as (K1 & K2 & K3 & K4);
    try (left; split; [reflexivity|tauto]).
  assert (E : forall g x,
    ((fun _ : Q => False) x \/
     exists j c, (j < List.length data_keys)%nat /\
                 In c (ginput_curve w (0 + j)) /\ x = g c) <->
    clicked w (List.length data_keys) g x).
  { intros g x. unfold clicked. simpl. tauto. }
  apply (is_min_ext _ _ _ (E fst)) in K1.
  apply (is_max_ext _ _ _ (E fst)) in K2.
  apply (is_min_ext _ _ _ (E (fun p => - snd p))) in K3.
  apply (is_max_ext _ _ _ (E (fun p => - snd p))) in K4.
  destruct K1 as [[_ N]|(tlo & E1 & C1 & L1)];
    [destruct (Hex fst) as (x & Hx); now apply N in Hx|].
  destruct K2 as [[_ N]|(thi & E2 & C2 & L2)];
    [destruct (Hex fst) as (x & Hx); now apply N in Hx|].
  destruct K3 as [[_ N]|(vlo & E3 & C3 & L3)];
    [destruct (Hex (fun p => - snd p)) as (x & Hx); now apply N in Hx|].
  destruct K4 as [[_ N]|(vhi & E4 & C4 & L4)];
    [destruct (Hex (fun p => - snd p)) as (x & Hx); now apply N in Hx|].
  exists tlo, thi, vlo, vhi.
  unfold get_time_range, get_value_range. rewrite E1, E2, E3, E4.
  repeat split; try assumption.
  - apply L1. exists j, c. tauto.
  - apply L2. exists j, c. tauto.
  - apply L3. exists j, c. tauto.
  - apply L4. exists j, c. tauto.
Qed.

(** ** What is kept of a curve *)

Lemma dict_get_set_same {V : Type} (d : list (string * V)) (k : string)
  (v : V) : dict_get (dict_set d k v) k = Some v.
Proof.
  induction d as [|[k' v'] r IH]; simpl.
  - now rewrite String.eqb_refl.
  - destruct (String.eqb k' k) eqn:E; simpl; rewrite E; [reflexivity|exact IH].
Qed.

Lemma dict_get_set_other {V : Type} (d : list (string * V)) (k k' : string)
  (v : V) : k' <> k -> dict_get (dict_set d k v) k' = dict_get d k'.
Proof.
  intros Hne. induction d as [|[k0 v0] r IH]; simpl.
  - apply String.eqb_neq in Hne. rewrite String.eqb_sym in Hne.
    now rewrite Hne.
  - destruct (String.eqb k0 k) eqn:E; simpl.
    + apply String.eqb_eq in E. subst k0.
      assert (E' : String.eqb k k' = false).
      { apply String.eqb_neq. congruence. }
      now rewrite E'.
    + destruct (String.eqb k0 k'); [reflexivity|exact IH].
Qed.

Lemma combine_maps {A B C : Type} (f : A -> B) (g : A -> C) (l : list A) :
  combine (map f l) (map g l) = map (fun x => (f x, g x)) l.
Proof. induction l as [|a r IH]; simpl; [reflexivity|]. now rewrite IH. Qed.

(** X8. A capture session that succeeds stores, under the name of the
    curve, the x pixels of its clicks in ascending order and, at the same
    positions, their negated y pixels: the stored pairs are the clicks,
    rearranged. The curves stored under the other names are left as they
    were. *)
Theorem X8_capture_stores_sorted_clicks (w : world) (i : nat) (k : string)
  (st st' : curves) :
  result (draw_curve w i k st) = inr st' ->
  exists t v,
    dict_get (time_in_pixels_dict st') k = Some t /\
    dict_get (value_in_pixels_dict st') k = Some v /\
    StronglySorted Qle t /\
    Permutation (combine t v)
                (map (fun c => (fst c, - snd c)) (ginput_curve w i)) /\
    forall k', k' <> k ->
      dict_get (time_in_pixels_dict st') k' =
        dict_get (time_in_pixels_dict st) k' /\
      dict_get (value_in_pixels_dict st') k' =
        dict_get (value_in_pixels_dict st) k'.
Proof.
  intros H.
  destruct (draw_curve_result w i k st) as [[_ E]|(_ & st1 & E & Et & Ev)];
    [congruence|].
  assert (st1 = st') by congruence. subst st1.
  exists (xs_of (ginput_curve w i)), (vs_of (ginput_curve w i)).
  rewrite Et, Ev, !dict_get_set_same.
  split; [reflexivity|]. split; [reflexivity|]. split.
  { apply sorted_keys_map, sort_by_sorted. }
  split.
  { unfold xs_of, vs_of. rewrite combine_maps.
    apply Permutation_map, sort_by_perm. }
  intros k' Hne. now rewrite !dict_get_set_other.
Qed.

(** ** A single curve *)

Lemma rescaleQ_compat (x x' pl ph rl rh : Q) :
  x == x' -> rescaleQ x pl ph rl rh == rescaleQ x' pl ph rl rh.
Proof. intros E. unfold rescaleQ. now rewrite E. Qed.



Lemma set_add_all_fresh (l s : list Q) :
  NoDupA Qeq l -> (forall x, InA Qeq x l -> ~ InA Qeq x s) ->
  set_add_all s l = s ++ l.
Proof.
  revert s. induction l as [|a r IH]; intros s Hd Hs; simpl.
  - now rewrite app_nil_r.
  - inversion Hd as [|? ? Ha Hr]; subst.
    assert (E : mem a s = false).
    { destruct (mem a s) eqn:E; [|reflexivity].
      apply mem_InA in E. exfalso. apply (Hs a); [now constructor|exact E]. }
    rewrite E, IH; [now rewrite <- app_assoc|exact Hr|].
    intros x Hx. rewrite InA_app_iff, InA_cons, InA_nil.
    intros [H|[H|[]]].
    + apply (Hs x); [now constructor 2|exact H].
    + apply Ha. now rewrite <- H.
Qed.

Lemma sorted_id (l : list Q) : StronglySorted Qlt l -> sorted l = l.
Proof.
  unfold sorted. induction 1 as [|a r Hs IH Hall]; simpl; [reflexivity|].
  rewrite IH. destruct r as [|y r']; [reflexivity|]. simpl.
  inversion Hall as [|? ? Hy _]; subst.
  assert (E : Qltb y a = false) by (apply Qltb_false; lra).
  now rewrite E.
Qed.

Lemma strictly_sorted_NoDupA (l : list Q) :
  StronglySorted Qlt l -> NoDupA Qeq l.
Proof.
  induction 1 as [|a r Hs IH Hall]; constructor; [|exact IH].
  rewrite InA_alt. intros (y & E & Hy).
  rewrite Forall_forall in Hall. specialize (Hall y Hy). lra.
Qed.

Lemma new_time_single (k : string) (xs : list Q) :
  StronglySorted Qlt xs -> new_time [(k, xs)] = xs.
Proof.
  intros H. unfold new_time. cbn [fold_left snd]. unfold set_union, py_set.
  pose proof (strictly_sorted_NoDupA xs H) as Hd.
  rewrite (set_add_all_fresh xs []); [|exact Hd|intros x _ Hx; inversion Hx].
  cbn [app].
  rewrite (set_add_all_fresh xs []); [|exact Hd|intros x _ Hx; inversion Hx].
  cbn [app]. now apply sorted_id.
Qed.

Lemma same_time_refl (l : list Q) : same_time (map Fin l) (map Fin l) = true.
Proof.
  induction l as [|a r IH]; simpl; [reflexivity|].
  rewrite IH, andb_true_r. apply Qeq_eq_bool. reflexivity.
Qed.

Section SingleCurve.

Variable interp : list npfloat -> list npfloat -> npfloat -> npfloat.

(** The container of a single curve whose clicks have different x. *)
Lemma single_curve_container (w : world) (filename : pyval)
  (time_range value_range : option (Q * Q)) (data_keys data_units : pyval)
  (k : string) (units : option (list string)) (out : TimeSeries) :
  result (check_arguments filename data_keys data_units) = inr ([k], units) ->
  NoDupA (key_eq fst) (ginput_curve w 0) ->
  result (ui_draw interp w filename time_range value_range data_keys
            data_units) = inr out ->
  exists a b r c d rv,
    time_range = Some r /\ value_range = Some rv /\
    sorted (map fst (firstn 2 (ginput_time w))) = [a; b] /\
    sorted (map (fun p => - snd p) (firstn 2 (ginput_value w))) = [c; d] /\
    time out =
      map (fun p => rescale (Fin (fst p)) (Fin a) (Fin b)
                      (Fin (fst r)) (Fin (snd r)))
          (sort_points (ginput_curve w 0)) /\
    data out =
      [(k, map (fun p => rescale (Fin (- snd p)) (Fin c) (Fin d)
                           (Fin (fst rv)) (Fin (snd rv)))
               (sort_points (ginput_curve w 0)))] /\
    List.length (time out) = List.length (ginput_curve w 0).
Proof.
  intros Hc Hd H.
  destruct (returned_container interp _ _ _ _ _ _ _ _ _ Hc H)
    as (a & b & r & Er & Eab & Etime & _ & _ & Hdata).
  assert (Ecap : captured w [k] = [(k, ginput_curve w 0)]) by reflexivity.
  rewrite Ecap in Etime, Hdata. cbn [map] in Etime, Hdata.
  assert (Hs : StronglySorted Qlt (xs_of (ginput_curve w 0))).
  { apply strictly_sorted_keys_map, sort_by_strict. exact Hd. }
  unfold on_snd in Etime, Hdata. cbn [fst snd] in Etime, Hdata.
  rewrite (new_time_single k _ Hs) in Etime, Hdata.
  destruct Hdata as [[E _]|(c & d & rv & Erv & Ecd & Edata)]; [discriminate|].
  exists a, b, r, c, d, rv.
  split; [exact Er|]. split; [exact Erv|]. split; [exact Eab|].
  split; [exact Ecd|]. split.
  { rewrite Etime. unfold xs_of. now rewrite map_map. }
  split.
  { rewrite Edata. unfold curve_channel. cbn [fst snd].
    rewrite same_time_refl. unfold vs_of. now rewrite map_map. }
  rewrite Etime, length_map. apply xs_of_length.
Qed.

(** X9. With a single name in [data_keys] and clicks of pairwise
    different x, a returned container holds one sample per click and no
    interpolated value: its instants are the x pixels of the clicks in
    ascending order, each through the time calibration, and its one
    channel holds, at the same positions, their negated y pixels through
    the value calibration. *)
Theorem X9_single_curve_one_sample_per_click (w : world) (filename : pyval)
  (time_range value_range : option (Q * Q)) (data_keys data_units : pyval)
  (k : string) (units : option (list string)) (out : TimeSeries) :
  result (check_arguments filename data_keys data_units) = inr ([k], units) ->
  NoDupA (key_eq fst) (ginput_curve w 0) ->
  result (ui_draw interp w filename time_range value_range data_keys
            data_units) = inr out ->
  exists a b r c d rv,
    time_range = Some r /\ value_range = Some rv /\
    sorted (map fst (firstn 2 (ginput_time w))) = [a; b] /\
    sorted (map (fun p => - snd p) (firstn 2 (ginput_value w))) = [c; d] /\
    time out =
      map (fun p => rescale (Fin (fst p)) (Fin a) (Fin b)
                      (Fin (fst r)) (Fin (snd r)))
          (sort_points (ginput_curve w 0)) /\
    data out =
      [(k, map (fun p => rescale (Fin (- snd p)) (Fin c) (Fin d)
                           (Fin (fst rv)) (Fin (snd rv)))
               (sort_points (ginput_curve w 0)))] /\
    List.length (time out) = List.length (ginput_curve w 0).
Proof.
  exact (single_curve_container w filename time_range value_range data_keys
           data_units k units out).
Qed.



End SingleCurve.

(** ** The calibrated time base *)

Lemma new_time_captured (w : world) (keys : list string) (x : Q) :
  InA Qeq x (new_time (map (on_snd xs_of) (captured w keys))) <->
  exists k clicks c,
    captured_curve w keys k clicks /\ In c clicks /\ fst c == x.
Proof.
  rewrite new_time_InA. split.
  - intros (kv & Hin & Hx).
    apply in_map_iff in Hin as ([k pts] & <- & Hin).
    simpl in Hx. apply xs_of_InA in Hx as (c & Hc1 & Hc2).
    exists k, pts, c. split; [now apply captured_In|]. tauto.
  - intros (k & pts & c & Hcap & Hin & Hx).
    exists (on_snd xs_of (k, pts)). split.
    + apply in_map. now apply captured_In.
    + simpl. apply xs_of_InA. eauto.
Qed.

Lemma sorted_two_min_max (x y : Q) :
  ~ x == y ->
  exists a b,
    sorted [x; y] = [a; b] /\ a == Qmin x y /\ b == Qmax x y /\ a < b.
Proof.
  intros Hne. unfold sorted, sort_by. simpl.
  destruct (Qltb y x) eqn:E.
  - apply Qltb_true in E. exists y, x. split; [reflexivity|].
    rewrite (Q.min_r x y), (Q.max_l x y) by lra.
    repeat split; try reflexivity. exact E.
  - apply Qltb_false in E.
    assert (L : x < y).
    { destruct (Qlt_le_dec x y) as [L|L]; [exact L|].
      exfalso. apply Hne. lra. }
    exists x, y. split; [reflexivity|].
    rewrite (Q.min_l x y), (Q.max_r x y) by lra.
    repeat split; try reflexivity. exact L.
Qed.

Section TimeBase.

Variable interp : list npfloat -> list npfloat -> npfloat -> npfloat.

(** X10. When the two time-axis clicks have different x, every click
    of the captured curves lies between them and [time_range] is
    increasing, every finite instant of a returned time base lies between
    the instants that float64 gives to the two calibration pixels. *)
Theorem X10_time_base_within_range (w : world) (filename : pyval)
  (time_range value_range : option (Q * Q)) (data_keys data_units : pyval)
  (keys : list string) (units : option (list string)) (out : TimeSeries)
  (c1 c2 : Q * Q) (r : Q * Q) :
  result (check_arguments filename data_keys data_units) = inr (keys, units) ->
  result (ui_draw interp w filename time_range value_range data_keys
            data_units) = inr out ->
  time_range = Some r -> fst r <= snd r ->
  firstn 2 (ginput_time w) = [c1; c2] -> ~ fst c1 == fst c2 ->
  (forall k clicks c, captured_curve w keys k clicks -> In c clicks ->
     Qmin (fst c1) (fst c2) <= fst c <= Qmax (fst c1) (fst c2)) ->
  exists a b,
    sorted [fst c1; fst c2] = [a; b] /\
    forall v vlo vhi,
      In (Fin v) (time out) ->
      rescale (Fin a) (Fin a) (Fin b) (Fin (fst r)) (Fin (snd r)) = Fin vlo ->
      rescale (Fin b) (Fin a) (Fin b) (Fin (fst r)) (Fin (snd r)) = Fin vhi ->
      vlo <= v <= vhi.
Proof.
  intros Hc H Er Hr Hclicks Hne Hin.
  destruct (returned_container interp _ _ _ _ _ _ _ _ _ Hc H)
    as (a & b & r' & Er' & Eab & Etime & _).
  assert (r' = r) by congruence. subst r'.
  rewrite Hclicks in Eab. cbn [map] in Eab.
  destruct (sorted_two_min_max _ _ Hne) as (a' & b' & E & Ea & Eb & Lab).
  rewrite E in Eab. injection Eab as <- <-.
  exists a', b'. split; [exact E|].
  intros v vlo vhi Hv Hlo Hhi.
  rewrite Etime in Hv. apply in_map_iff in Hv as (x & Ex & Hx).
  assert (HA : InA Qeq x (new_time (map (on_snd xs_of) (captured w keys)))).
  { rewrite InA_alt. exists x. split; [reflexivity|exact Hx]. }
  apply new_time_captured in HA as (k & clicks & c & Hcap & Hcin & Ec).
  specialize (Hin k clicks c Hcap Hcin). rewrite <- Ea, <- Eb, Ec in Hin.
  split.
  - apply (rescale_mono a' x a' b' (fst r) (snd r) vlo v); try lra;
      assumption.
  - apply (rescale_mono x b' a' b' (fst r) (snd r) v vhi); try lra;
      assumption.
Qed.


End TimeBase.

(** ** Calls that stop after the capture *)

Section AfterCapture.

Variable interp : list npfloat -> list npfloat -> npfloat -> npfloat.

(** The result of a call whose arguments, image and capture sessions are
    in order is the result of its calibration and merge. *)
Lemma ui_draw_result_captured (w : world) (filename : pyval)
  (time_range value_range : option (Q * Q)) (data_keys data_units : pyval)
  (keys : list string) (units : option (list string)) (img : image)
  (st : curves) :
  result (check_arguments filename data_keys data_units) = inr (keys, units) ->
  result (load_image w filename) = inr (Some img) ->
  result (draw_curves w 0 keys no_curves) = inr st ->
  result (ui_draw interp w filename time_range value_range data_keys
            data_units) =
  result (trp <- get_time_range w time_range st ;;
          vrp <- get_value_range w value_range st ;;
          emit EvCloseFigure ;;;
          out1 <- merge_curves interp st value_range vrp units 0
                    (value_in_pixels_dict st)
                    (new_TimeSeries
                       (map Fin (new_time (time_in_pixels_dict st))) []) ;;
          scale_time time_range trp out1).
Proof.
  intros Hc Hl Hd. unfold ui_draw.
  rewrite (result_bind_ok _ _ _ Hc). cbn [fst snd].
  rewrite (result_bind_ok _ _ _ Hl), result_emit. unfold imshow.
  rewrite result_emit. now rewrite (result_bind_ok _ _ _ Hd).
Qed.

Lemma ui_draw_trace_calibrated (w : world) (filename : pyval)
  (time_range value_range : option (Q * Q)) (data_keys data_units : pyval)
  (keys : list string) (units : option (list string)) (img : image)
  (st : curves) (trp vrp : list npfloat) :
  result (check_arguments filename data_keys data_units) = inr (keys, units) ->
  result (load_image w filename) = inr (Some img) ->
  result (draw_curves w 0 keys no_curves) = inr st ->
  result (get_time_range w time_range st) = inr trp ->
  result (get_value_range w value_range st) = inr vrp ->
  trace (ui_draw interp w filename time_range value_range data_keys
           data_units) =
  protocol filename img keys time_range value_range.
Proof.
  intros Hc Hl Hd Ht Hv. unfold ui_draw, protocol.
  rewrite trace_bind, check_arguments_trace, Hc. cbn [app fst snd].
  rewrite trace_bind, Hl, (proj2 (runs_load_image w filename) _ Hl).
  rewrite trace_emit_bind. unfold imshow. rewrite trace_emit_bind.
  rewrite trace_bind, Hd, (proj2 (runs_draw_curves w keys 0 no_curves) _ Hd).
  rewrite trace_bind, Ht,
    (proj2 (runs_get_time_range w time_range st) _ Ht).
  rewrite trace_bind, Hv,
    (proj2 (runs_get_value_range w value_range st) _ Hv).
  rewrite trace_emit_bind, trace_bind, trace_merge_curves.
  assert (E : forall o : exn + TimeSeries,
            match o with
            | inr a => trace (scale_time time_range trp a)
            | inl _ => []
            end = []).
  { intros [e|a]; [reflexivity|apply trace_scale_time]. }
  rewrite E. reflexivity.
Qed.

Lemma scale_and_merge_units_error (st : curves) (vrp : list npfloat)
  (us : list string) (p0 p1 : npfloat) (r : Q * Q) (i : nat) (k : string)
  (v : list Q) (out : TimeSeries) :
  nth_error vrp 0 = Some p0 -> nth_error vrp 1 = Some p1 ->
  In k (dict_keys (time_in_pixels_dict st)) ->
  nth_error us i = None ->
  result (scale_and_merge interp st (Some r) vrp (Some us) i k v out)
  = inl IndexError.
Proof.
  intros H0 H1 Hk Hu.
  destruct (dict_get_key (time_in_pixels_dict st) k Hk) as (tpx & Et).
  unfold scale_and_merge.
  rewrite (result_bind_ok _ _ tpx) by (apply result_of_option; exact Et).
  rewrite (result_bind_ok _ _ p0) by (apply result_index; exact H0).
  rewrite (result_bind_ok _ _ r) by reflexivity.
  rewrite (result_bind_ok _ _ p1) by (apply result_index; exact H1).
  apply result_bind_err. apply result_bind_err.
  unfold index, result. now rewrite Hu.
Qed.

Lemma merge_curves_units_error (st : curves) (vrp : list npfloat)
  (us : list string) (p0 p1 : npfloat) (r : Q * Q)
  (items : list (string * list Q)) (i : nat) (out : TimeSeries) :
  nth_error vrp 0 = Some p0 -> nth_error vrp 1 = Some p1 ->
  (forall kv, In kv items ->
     exists tpx, dict_get (time_in_pixels_dict st) (fst kv) = Some tpx /\
                 increasing (map Fin tpx) = true) ->
  ~ In "Time"%string (dict_keys items) ->
  (i <= List.length us < i + List.length items)%nat ->
  result (merge_curves interp st (Some r) vrp (Some us) i items out)
  = inl IndexError.
Proof.
  intros H0 H1. revert i out.
  induction items as [|[k v] items IH]; intros i out Hk Hn Hl;
    [simpl in Hl; lia|].
  cbn [merge_curves].
  destruct (Hk (k, v) (or_introl eq_refl)) as (tpx & Et & Hinc).
  destruct (nth_error us i) as [u|] eqn:Eu.
  - assert (Hi : (i < List.length us)%nat).
    { apply nth_error_Some. congruence. }
    destruct (scale_and_merge_progress interp st vrp (Some us) p0 p1 r i k v
                tpx out H0 H1 Et Hinc) as (out2 & E2).
    { split; [eauto|]. intros E. apply Hn. left. exact E. }
    rewrite (result_bind_ok _ _ _ E2). apply IH.
    + intros kv Hin. apply Hk. now right.
    + intros Hin. apply Hn. now right.
    + simpl in Hl. lia.
  - apply result_bind_err.
    apply scale_and_merge_units_error with (p0 := p0) (p1 := p1);
      trivial.
    clear - Et. induction (time_in_pixels_dict st) as [|[k' v'] d IH];
      simpl in *; [discriminate|].
    destruct (String.eqb k' k) eqn:E; [|right; now apply IH].
    left. now apply String.eqb_eq.
Qed.

Lemma stored_value_keys (w : world) (keys : list string) (st : curves) :
  result (draw_curves w 0 keys no_curves) = inr st ->
  dict_keys (value_in_pixels_dict st) = first_occurrences [] keys /\
  forall kv, In kv (value_in_pixels_dict st) ->
    In (fst kv) (dict_keys (time_in_pixels_dict st)).
Proof.
  intros Hd. apply draw_curves_ok in Hd as (Et & Ev & _). simpl in Et, Ev.
  split; [now rewrite Ev, stored_keys|].
  intros kv Hin. rewrite Et, stored_keys.
  rewrite <- (stored_keys vs_of w keys 0 []), <- Ev.
  unfold dict_keys. now apply in_map.
Qed.

(** X12. When [data_units] is a list with fewer entries than there are
    distinct names in [data_keys], a call in which everything else is in
    order (no curve is named "Time", and the clicks of a curve have
    pairwise different x) ends with IndexError, and only once the user
    has drawn every curve and calibrated both axes and the figure has
    been closed. *)
Theorem X12_too_few_units (w : world) (filename : pyval) (r rv : Q * Q)
  (data_keys data_units : pyval) (keys us : list string) (img : image)
  (c1 c2 d1 d2 : Q * Q) :
  result (check_arguments filename data_keys data_units)
    = inr (keys, Some us) ->
  result (load_image w filename) = inr (Some img) ->
  (forall j, (j < List.length keys)%nat -> ginput_curve w j <> []) ->
  (forall j, (j < List.length keys)%nat ->
     NoDupA (key_eq fst) (ginput_curve w j)) ->
  ~ In "Time"%string keys ->
  firstn 2 (ginput_time w) = [c1; c2] ->
  firstn 2 (ginput_value w) = [d1; d2] ->
  (List.length us < List.length (first_occurrences [] keys))%nat ->
  result (ui_draw interp w filename (Some r) (Some rv) data_keys data_units)
  = inl IndexError /\
  trace (ui_draw interp w filename (Some r) (Some rv) data_keys data_units)
  = protocol filename img keys (Some r) (Some rv).
Proof.
  intros Hc Hl Hs Hx Hn Ht Hv Hu.
  destruct (draw_curves_progress w keys 0 no_curves Hs) as (st & Hd).
  destruct (sorted_two (fst c1) (fst c2)) as (a & b & Eab & _).
  destruct (sorted_two (- snd d1) (- snd d2)) as (c & d & Ecd & _).
  assert (Htr : result (get_time_range w (Some r) st)
                = inr (map Fin [a; b])).
  { unfold get_time_range. rewrite Ht. cbv beta iota. cbn [map].
    now rewrite Eab. }
  assert (Hvr : result (get_value_range w (Some rv) st)
                = inr (map Fin [c; d])).
  { unfold get_value_range. rewrite Hv. cbv beta iota. cbn [map].
    now rewrite Ecd. }
  split.
  - rewrite (ui_draw_result_captured w filename (Some r) (Some rv) data_keys
               data_units keys (Some us) img st Hc Hl Hd).
    rewrite (result_bind_ok _ _ _ Htr), (result_bind_ok _ _ _ Hvr).
    rewrite result_emit. apply result_bind_err.
    destruct (stored_value_keys w keys st Hd) as (Ek & _).
    pose proof (stored_curves w keys st Hd) as Hst.
    apply merge_curves_units_error with (p0 := Fin c) (p1 := Fin d);
      try reflexivity.
    + intros kv Hin. destruct (Hst kv Hin) as (_ & clicks & Hcap & Hget).
      exists (xs_of clicks). split; [exact Hget|].
      apply xs_of_increasing. destruct Hcap as (j & Hj & -> & _).
      apply Hx. apply nth_error_Some. congruence.
    + rewrite Ek. intros Hin. apply Hn.
      now apply first_occurrences_In in Hin.
    + rewrite <- (length_map fst). fold (dict_keys (value_in_pixels_dict st)).
      rewrite Ek. lia.
  - exact (ui_draw_trace_calibrated w filename (Some r) (Some rv) data_keys
             data_units keys (Some us) img st _ _ Hc Hl Hd Htr Hvr).
Qed.

Lemma get_time_range_cases (w : world) (r : Q * Q) (st : curves) :
  match ginput_time w with
  | [] => result (get_time_range w (Some r) st) = inl IndexError
  | [t1] => result (get_time_range w (Some r) st) = inr [Fin (fst t1)]
  | t1 :: t2 :: _ =>
      exists a b, result (get_time_range w (Some r) st) = inr [Fin a; Fin b]
  end.
Proof.
  unfold get_time_range.
  destruct (ginput_time w) as [|t1 [|t2 ts]]; cbn [firstn];
    try reflexivity.
  destruct (sorted_two (fst t1) (fst t2)) as (a & b & Eab & _).
  exists a, b. rewrite result_emit. cbv beta iota. cbn [map].
  now rewrite Eab.
Qed.

Lemma get_value_range_cases (w : world) (r : Q * Q) (st : curves) :
  match ginput_value w with
  | [] => result (get_value_range w (Some r) st) = inl IndexError
  | [v1] => result (get_value_range w (Some r) st) = inr [Fin (- snd v1)]
  | v1 :: v2 :: _ =>
      exists a b, result (get_value_range w (Some r) st) = inr [Fin a; Fin b]
  end.
Proof.
  unfold get_value_range.
  destruct (ginput_value w) as [|v1 [|v2 vs]]; cbn [firstn];
    try reflexivity.
  destruct (sorted_two (- snd v1) (- snd v2)) as (a & b & Eab & _).
  exists a, b. rewrite result_emit. cbv beta iota. cbn [map].
  now rewrite Eab.
Qed.

Lemma merge_curves_one_value_click (st : curves) (p0 : npfloat) (r : Q * Q)
  (units : option (list string)) (k : string) (v : list Q)
  (items : list (string * list Q)) (i : nat) (out : TimeSeries) :
  In k (dict_keys (time_in_pixels_dict st)) ->
  result (merge_curves interp st (Some r) [p0] units i ((k, v) :: items) out)
  = inl IndexError.
Proof.
  intros Hk. cbn [merge_curves]. apply result_bind_err.
  destruct (dict_get_key (time_in_pixels_dict st) k Hk) as (tpx & Etp).
  unfold scale_and_merge.
  rewrite (result_bind_ok _ _ tpx) by (apply result_of_option; exact Etp).
  reflexivity.
Qed.

(** X13. When the clicks of an axis calibration are ended before the
    second one (the time axis, or the value axis with at least one curve
    requested), a call in which everything else is in order (the clicks
    of a curve have pairwise different x, no curve is named "Time" and,
    when units are given, there are enough of them) ends with
    IndexError. *)
Theorem X13_missing_calibration_click (w : world) (filename : pyval)
  (r rv : Q * Q) (data_keys data_units : pyval) (keys : list string)
  (units : option (list string)) (img : image) :
  result (check_arguments filename data_keys data_units) = inr (keys, units) ->
  result (load_image w filename) = inr (Some img) ->
  (forall j, (j < List.length keys)%nat -> ginput_curve w j <> []) ->
  (forall j, (j < List.length keys)%nat ->
     NoDupA (key_eq fst) (ginput_curve w j)) ->
  ~ In "Time"%string keys ->
  match units with
  | Some us => (List.length keys <= List.length us)%nat
  | None => True
  end ->
  (List.length (ginput_time w) < 2)%nat \/
  ((List.length (ginput_value w) < 2)%nat /\ keys <> []) ->
  result (ui_draw interp w filename (Some r) (Some rv) data_keys data_units)
  = inl IndexError.
Proof.
  intros Hc Hl Hs Hx Hn Hu0 Hshort.
  assert (Hu : match units with
               | Some us =>
                   (List.length keys <= List.length us)%nat /\
                   ~ In "Time"%string keys
               | None => True
               end).
  { destruct units as [us|]; [split; assumption|exact I]. }
  destruct (draw_curves_progress w keys 0 no_curves Hs) as (st & Hd).
  rewrite (ui_draw_result_captured w filename (Some r) (Some rv) data_keys
             data_units keys units img st Hc Hl Hd).
  destruct (stored_value_keys w keys st Hd) as (Ek & Hin).
  assert (Hitems : keys <> [] -> value_in_pixels_dict st <> []).
  { intros Hne E. rewrite E in Ek. destruct keys; [congruence|discriminate]. }
  pose proof (get_time_range_cases w r st) as Ct.
  pose proof (get_value_range_cases w rv st) as Cv.
  destruct (ginput_time w) as [|t1 [|t2 ts]].
  - now apply result_bind_err.
  - rewrite (result_bind_ok _ _ _ Ct).
    destruct (ginput_value w) as [|v1 [|v2 vs]].
    + now apply result_bind_err.
    + rewrite (result_bind_ok _ _ _ Cv), result_emit.
      destruct (value_in_pixels_dict st) as [|[k v] items]; [reflexivity|].
      apply result_bind_err, merge_curves_one_value_click.
      apply (Hin (k, v)). now left.
    + destruct Cv as (c & d & Cv).
      rewrite (result_bind_ok _ _ _ Cv), result_emit.
      destruct (merge_captured_progress interp w keys units st (Fin c)
                  (Fin d) rv
                  (new_TimeSeries
                     (map Fin (new_time (time_in_pixels_dict st))) [])
                  Hd Hx Hu) as (out1 & Hm).
      rewrite (result_bind_ok _ _ _ Hm). reflexivity.
  - destruct Hshort as [Hshort|[Hshort Hne]]; [simpl in Hshort; lia|].
    destruct Ct as (a & b & Ct). rewrite (result_bind_ok _ _ _ Ct).
    destruct (ginput_value w) as [|v1 [|v2 vs]].
    + now apply result_bind_err.
    + rewrite (result_bind_ok _ _ _ Cv), result_emit.
      specialize (Hitems Hne).
      destruct (value_in_pixels_dict st) as [|[k v] items]; [congruence|].
      apply result_bind_err, merge_curves_one_value_click.
      apply (Hin (k, v)). now left.
    + simpl in Hshort. lia.
Qed.

(** X14. With an empty list as [data_keys] no curve is asked for, and
    when the time axis is calibrated with two clicks the call returns an
    empty container: no instant, no channel, and the info that the
    container library gives to a new container (the unit of its time).
    The value axis needs one click at most, as no value is rescaled. *)
Theorem X14_no_curve_requested (w : world) (filename : pyval) (r : Q * Q)
  (value_range : option (Q * Q)) (data_keys data_units : pyval)
  (units : option (list string)) (img : image) (c1 c2 : Q * Q) :
  result (check_arguments filename data_keys data_units) = inr ([], units) ->
  result (load_image w filename) = inr (Some img) ->
  firstn 2 (ginput_time w) = [c1; c2] ->
  match value_range with
  | Some _ => ginput_value w <> []
  | None => True
  end ->
  result (ui_draw interp w filename (Some r) value_range data_keys data_units)
  = inr {| time := []; data := []; info := time_info |} /\
  trace (ui_draw interp w filename (Some r) value_range data_keys data_units)
  = protocol filename img [] (Some r) value_range.
Proof.
  intros Hc Hl Ht Hv.
  destruct (sorted_two (fst c1) (fst c2)) as (a & b & Eab & _).
  assert (Htr : result (get_time_range w (Some r) no_curves)
                = inr (map Fin [a; b])).
  { unfold get_time_range. rewrite Ht. cbv beta iota. cbn [map].
    now rewrite Eab. }
  assert (Hvr : exists vrp,
            result (get_value_range w value_range no_curves) = inr vrp).
  { unfold get_value_range. destruct value_range as [rv|]; [|eexists; reflexivity].
    destruct (ginput_value w) as [|v1 [|v2 vs]]; [congruence| |];
      eexists; reflexivity. }
  destruct Hvr as (vrp & Hvr).
  split.
  - rewrite (ui_draw_result_captured w filename (Some r) value_range
               data_keys data_units [] units img no_curves Hc Hl eq_refl).
    rewrite (result_bind_ok _ _ _ Htr), (result_bind_ok _ _ _ Hvr).
    reflexivity.
  - exact (ui_draw_trace_calibrated w filename (Some r) value_range data_keys
             data_units [] units img no_curves _ _ Hc Hl eq_refl Htr Hvr).
Qed.

End AfterCapture.

(** ** Independence of the two calibrations *)

Lemma stored_ext {V : Type} (f : list (Q * Q) -> V) (w w' : world) :
  (forall i, ginput_curve w i = ginput_curve w' i) ->
  forall keys i d, stored f w i keys d = stored f w' i keys d.
Proof.
  intros H keys. induction keys as [|k r IH]; intros i d; simpl;
    [reflexivity|].
  now rewrite H, IH.
Qed.

Section Independence.

Variable interp : list npfloat -> list npfloat -> npfloat -> npfloat.

(** X16. The time calibration is applied last, to the instants only:
    two calls that return and differ only in [time_range] and in the
    clicks on the time axis give the same channels (interpolation is
    done on pixel instants) and the same info. Likewise two calls that
    return and differ only in [value_range] and in the clicks on the
    value axis give the same time base. *)
Theorem X16_calibrations_are_independent (w : world) (filename : pyval)
  (time_range time_range' value_range value_range' : option (Q * Q))
  (data_keys data_units : pyval) (clicks : list (Q * Q))
  (out out' : TimeSeries) :
  result (ui_draw interp w filename time_range value_range data_keys
            data_units) = inr out ->
  (result (ui_draw interp (with_time_clicks w clicks) filename time_range'
             value_range data_keys data_units) = inr out' ->
   data out' = data out /\ info out' = info out) /\
  (result (ui_draw interp (with_value_clicks w clicks) filename time_range
             value_range' data_keys data_units) = inr out' ->
   time out' = time out).
Proof.
  intros H.
  pose proof (ui_draw_returns interp _ _ _ _ _ _ _ H)
    as (keys & units & _ & _ & _ & _ & _ & Hc & _).
  destruct (returned_container interp _ _ _ _ _ _ _ _ _ Hc H)
    as (a & b & r & Er & Eab & Etime & Einfo & _ & Hdata).
  split; intros H'.
  - destruct (returned_container interp _ _ _ _ _ _ _ _ _ Hc H')
      as (a' & b' & r' & _ & _ & _ & Einfo' & _ & Hdata').
    assert (Ecap : captured (with_time_clicks w clicks) keys
                   = captured w keys).
    { apply stored_ext. reflexivity. }
    rewrite Ecap in *. cbn [with_time_clicks ginput_value] in Hdata'.
    split; [|congruence].
    destruct Hdata as [[E0 Ed]|(c & d & rv & Erv & Ecd & Ed)],
             Hdata' as [[E0' Ed']|(c' & d' & rv' & Erv' & Ecd' & Ed')].
    + congruence.
    + rewrite Ed', Ed, E0. reflexivity.
    + rewrite Ed', Ed, E0'. reflexivity.
    + assert (rv' = rv) by congruence. subst rv'.
      rewrite Ecd in Ecd'. injection Ecd' as <- <-. congruence.
  - destruct (returned_container interp _ _ _ _ _ _ _ _ _ Hc H')
      as (a' & b' & r' & Er' & Eab' & Etime' & _).
    assert (Ecap : captured (with_value_clicks w clicks) keys
                   = captured w keys).
    { apply stored_ext. reflexivity. }
    rewrite Ecap in *. cbn [with_value_clicks ginput_time] in Eab'.
    assert (r' = r) by congruence. subst r'.
    rewrite Eab in Eab'. injection Eab' as <- <-. congruence.
Qed.

End Independence.

(** ** Linear interpolation *)

Lemma linear_interp_nonfinite (ts vs : list npfloat) (t : npfloat) :
  all_nonfinite vs -> Np.is_finite (linear_interp ts vs t) = false.
Proof.
  revert vs. induction ts as [|t0 ts IH]; intros vs Hv; [reflexivity|].
  destruct vs as [|v0 vs]; [reflexivity|].
  inversion Hv as [|? ? Hv0 Hvs]; subst.
  cbn [linear_interp].
  destruct (Np.ltb t t0); [reflexivity|].
  destruct (Np.eqb t t0); [exact Hv0|].
  destruct ts as [|t1 ts']; [reflexivity|].
  destruct vs as [|v1 vs']; [reflexivity|].
  destruct (Np.ltb t t1); [now apply add_nonfinite|].
  now apply IH.
Qed.

(** * The statements at concrete calls *)

Open Scope string_scope.



Lemma C1_witness :
  exists out,
    result (ui_draw linear_interp shared_instant (PyStr "plot.png")
              (Some (0, 1)) (Some (0, 1)) (PyList [PyStr "A"; PyStr "B"])
              PyNone) = inr out /\
    exists base ts,
      StronglySorted Qlt base /\
      count 20 base = 1%nat /\
      List.length (time out) = List.length base /\
      time out = map Fin ts /\ StronglySorted Qle ts.
Proof.
  destruct (result (ui_draw linear_interp shared_instant (PyStr "plot.png")
              (Some (0, 1)) (Some (0, 1)) (PyList [PyStr "A"; PyStr "B"])
              PyNone)) as [e|out] eqn:E; [vm_compute in E; discriminate|].
  exists out. split; [reflexivity|].
  destruct (C1_time_base linear_interp shared_instant (PyStr "plot.png")
              (Some (0, 1)) (Some (0, 1)) (PyList [PyStr "A"; PyStr "B"])
              PyNone ["A"; "B"] None out eq_refl E)
    as (base & a & b & r & Er & _ & _ & Et & Hs & _ & Hc & Hord).
  injection Er as <-.
  exists base, [0; 1 # 2; 3 # 4; 1].
  split; [exact Hs|]. split.
  { apply (Hc 20 "A" "B" (ginput_curve shared_instant 0)
              (ginput_curve shared_instant 1) (20, 40) (20, 45)).
    - exists 0%nat. split; [reflexivity|]. split; [reflexivity|].
      intros [|[|[|j]]] Hj; simpl; try discriminate; lia.
    - simpl. tauto.
    - reflexivity.
    - exists 1%nat. split; [reflexivity|]. split; [reflexivity|].
      intros [|[|[|j]]] Hj; simpl; try discriminate; lia.
    - simpl. tauto.
    - reflexivity. }
  split; [now rewrite Et, length_map|].
  assert (Ets : time out = map Fin [0; 1 # 2; 3 # 4; 1]).
  { vm_compute in E. injection E as <-. reflexivity. }
  split; [exact Ets|]. apply Hord; [unfold Qle; simpl; lia|exact Ets].
Defined.

(** Two clicks at neighbouring float64 x, 100.25 and 100.25 + 2^-46, on a
    picture whose time axis is clicked at x = 0 and x = 800 for the times
    0 and 10: the two pixel instants are different, the two returned
    instants are the same float64, 1.253125. *)
Lemma C1_counterexample :
  exists out t,
    result (ui_draw linear_interp neighbouring_clicks (PyStr "plot.png")
              (Some (0, 10)) (Some (0, 1)) (PyStr "data") PyNone) = inr out /\
    NoDupA (key_eq fst) (ginput_curve neighbouring_clicks 0) /\
    time out = [Fin t; Fin t].
Proof.
  destruct (result (ui_draw linear_interp neighbouring_clicks
              (PyStr "plot.png") (Some (0, 10)) (Some (0, 1)) (PyStr "data")
              PyNone)) as [e|out] eqn:E; [vm_compute in E; discriminate|].
  exists out, (5643573283048653 # 4503599627370496).
  split; [reflexivity|]. split.
  - simpl. repeat constructor; rewrite ?InA_cons, ?InA_nil;
      unfold key_eq, Qeq; simpl; lia.
  - vm_compute in E. injection E as <-. reflexivity.
Qed.

(** Two capture sessions under the same name leave one channel (the
    specification takes the names of a call to be different). *)
Example repeated_name_one_channel :
  exists out,
    result (ui_draw linear_interp scenario (PyStr "plot.png")
              (Some (0, 1)) (Some (0, 1)) (PyList [PyStr "A"; PyStr "A"])
              PyNone) = inr out /\
    List.length (data out) = 1%nat /\
    List.length [PyStr "A"; PyStr "A"] = 2%nat.
Proof.
  destruct (result (ui_draw linear_interp scenario (PyStr "plot.png")
              (Some (0, 1)) (Some (0, 1)) (PyList [PyStr "A"; PyStr "A"])
              PyNone)) as [e|out] eqn:E; [vm_compute in E; discriminate|].
  exists out. split; [reflexivity|]. split; [|reflexivity].
  vm_compute in E. injection E as <-. reflexivity.
Qed.

Lemma C4_witness :
  exists out,
    result (ui_draw linear_interp scenario (PyStr "plot.png")
              (Some (0, 1)) (Some (0, 1)) (PyList [PyStr "A"; PyStr "B"])
              PyNone) = inr out /\
    dict_keys (data out) = ["A"; "B"] /\
    forall k vs, In (k, vs) (data out) ->
      List.length vs = List.length (time out).
Proof.
  destruct (result (ui_draw linear_interp scenario (PyStr "plot.png")
              (Some (0, 1)) (Some (0, 1)) (PyList [PyStr "A"; PyStr "B"])
              PyNone)) as [e|out] eqn:E; [vm_compute in E; discriminate|].
  exists out. split; [reflexivity|].
  destruct (C4_channels_and_lengths linear_interp scenario (PyStr "plot.png")
              (Some (0, 1)) (Some (0, 1)) (PyList [PyStr "A"; PyStr "B"])
              PyNone ["A"; "B"] None out eq_refl E)
    as (Hk & _ & _ & Hl).
  split; [exact Hk|exact Hl].
Defined.

Lemma C5_witness :
  exists out,
    result (ui_draw linear_interp scenario (PyStr "plot.png")
              (Some (0, 1)) (Some (0, 1)) (PyStr "single") PyNone) = inr out /\
    dict_keys (data out) = ["single"].
Proof.
  destruct (result (ui_draw linear_interp scenario (PyStr "plot.png")
              (Some (0, 1)) (Some (0, 1)) (PyStr "single") PyNone))
    as [e|out] eqn:E; [vm_compute in E; discriminate|].
  exists out. split; [reflexivity|].
  exact (proj2 (C5_bare_string_key linear_interp scenario (PyStr "plot.png")
                  (Some (0, 1)) (Some (0, 1)) PyNone "single") out E).
Defined.


Lemma C7_witness :
  PyInt 5 <> PyNone /\ (forall s, PyInt 5 <> PyStr s) /\
  ui_draw linear_interp scenario (PyInt 5) None None (PyStr "data") PyNone
  = ([], inl (InvalidArgument "filename")).
Proof.
  assert (H1 : PyInt 5 <> PyNone) by discriminate.
  assert (H2 : forall s, PyInt 5 <> PyStr s) by discriminate.
  split; [exact H1|]. split; [exact H2|].
  exact (C7_filename_not_a_string linear_interp scenario (PyInt 5) None None
           (PyStr "data") PyNone H1 H2).
Defined.

Lemma C9_witness :
  exists out,
    result (ui_draw linear_interp degenerate PyNone (Some (0, 2))
              (Some (-100, 200)) (PyStr "force") (PyStr "N")) = inr out /\
    dict_keys (data out) = ["force"] /\
    List.length (time out) = 3%nat /\
    all_nonfinite (time out) /\
    forall k vs, In (k, vs) (data out) ->
      List.length vs = List.length (time out) /\ all_nonfinite vs.
Proof.
  destruct (C9_zero_pixel_span linear_interp degenerate PyNone (0, 2)
              (-100, 200) (PyStr "force") (PyStr "N") ["force"]
              (Some ["N"]) (Image 1) (12, 60) (12, 70) (5, 30) (6, 30)
              eq_refl eq_refl)
    as (out & E & Hk & Hl & Ht & Hv).
  - intros [|j] Hj; simpl in *; [discriminate|lia].
  - intros j _. simpl.
    repeat constructor; rewrite ?InA_cons, ?InA_nil; unfold key_eq, Qeq;
      simpl; lia.
  - reflexivity.
  - reflexivity.
  - simpl. intuition discriminate.
  - simpl. lia.
  - exact linear_interp_nonfinite.
  - exists out. split; [exact E|]. split; [exact Hk|].
    split; [rewrite Hl; reflexivity|].
    split; [exact (Ht (Qeq_refl 12))|exact (Hv (Qeq_refl 30))].
Defined.

Lemma C10_witness :
  ginput_curve scenario 2 = [] /\
  result (ui_draw linear_interp scenario (PyStr "plot.png") (Some (0, 1))
            (Some (0, 1)) (PyList [PyStr "A"; PyStr "B"; PyStr "C"]) PyNone)
  = inl IndexError.
Proof.
  split; [reflexivity|].
  refine (proj1 (C10_empty_capture_session linear_interp scenario
                   (PyStr "plot.png") (Some (0, 1)) (Some (0, 1))
                   (PyList [PyStr "A"; PyStr "B"; PyStr "C"]) PyNone
                   ["A"; "B"; "C"] None (Image 0) 2 eq_refl eq_refl _
                   eq_refl)).
  simpl. lia.
Defined.

(** The scenario of section 8: both curves on the union of their
    instants, calibrated to [0, 1]. *)
Example scenario_container :
  exists out,
    result (ui_draw linear_interp scenario (PyStr "plot.png")
              (Some (0, 1)) (Some (0, 1)) (PyList [PyStr "A"; PyStr "B"])
              (PyStr "N")) = inr out /\
    Forall2 (fun t q => match t with Fin x => x == q | _ => False end)
      (time out) [0; 1 # 4; 1 # 2; 3 # 4; 1] /\
    dict_keys (data out) = ["A"; "B"] /\
    unit_of out "A" = Some "N" /\ unit_of out "B" = Some "N".
Proof.
  destruct (result (ui_draw linear_interp scenario (PyStr "plot.png")
              (Some (0, 1)) (Some (0, 1)) (PyList [PyStr "A"; PyStr "B"])
              (PyStr "N"))) as [e|out] eqn:E;
    [vm_compute in E; discriminate|].
  exists out. split; [reflexivity|].
  vm_compute in E. injection E as <-.
  split; [|repeat split].
  repeat constructor.
Qed.

(** A single curve with a zero pixel span on the value axis: the channel
    holds the non-finite values themselves. *)
Example degenerate_container :
  exists out,
    result (ui_draw linear_interp degenerate PyNone (Some (0, 2))
              (Some (-100, 200)) (PyStr "force") PyNone) = inr out /\
    time out = [NegInf; PosInf; PosInf] /\
    data out = [("force", [NegInf; NegInf; NegInf])].
Proof.
  destruct (result (ui_draw linear_interp degenerate PyNone (Some (0, 2))
              (Some (-100, 200)) (PyStr "force") PyNone)) as [e|out] eqn:E;
    [vm_compute in E; discriminate|].
  exists out. split; [reflexivity|].
  vm_compute in E. injection E as <-. split; reflexivity.
Qed.

Lemma X1_witness :
  trace (ui_draw linear_interp scenario (PyStr "plot.png") (Some (0, 1))
           (Some (0, 1)) (PyList [PyStr "A"; PyStr "B"]) PyNone)
  = [EvImageOpen "plot.png"; EvFigure; EvImshow (Image 0);
     EvGinputCurve "A"; EvGinputCurve "B"; EvGinputTimeAxis;
     EvGinputValueAxis; EvCloseFigure].
Proof.
  destruct (result (ui_draw linear_interp scenario (PyStr "plot.png")
              (Some (0, 1)) (Some (0, 1)) (PyList [PyStr "A"; PyStr "B"])
              PyNone)) as [e|out] eqn:E; [vm_compute in E; discriminate|].
  exact (proj2 (X1_event_protocol linear_interp scenario (PyStr "plot.png")
                  (Some (0, 1)) (Some (0, 1))
                  (PyList [PyStr "A"; PyStr "B"]) PyNone ["A"; "B"] None
                  (Image 0) eq_refl eq_refl) out E).
Defined.

Lemma X2_witness :
  trace (ui_draw linear_interp scenario (PyStr "plot.png") (Some (0, 1))
           (Some (0, 1)) (PyList [PyStr "A"; PyStr "B"; PyStr "C"; PyStr "D"])
           PyNone)
  = [EvImageOpen "plot.png"; EvFigure; EvImshow (Image 0);
     EvGinputCurve "A"; EvGinputCurve "B"; EvGinputCurve "C"].
Proof.
  refine (proj1 (X2_capture_failure_leaves_figure_open linear_interp scenario
                   (PyStr "plot.png") (Some (0, 1)) (Some (0, 1))
                   (PyList [PyStr "A"; PyStr "B"; PyStr "C"; PyStr "D"])
                   PyNone ["A"; "B"; "C"; "D"] None (Image 0) 2
                   eq_refl eq_refl _ eq_refl _)).
  - simpl. lia.
  - intros [|[|j]] Hj; simpl; try discriminate. lia.
Defined.

(** With an empty clipboard the figure is created although there is no
    image to show. *)
Lemma X3_witness :
  In EvFigure (trace (ui_draw linear_interp empty_clipboard PyNone None None
                        (PyStr "data") PyNone)) /\
  exists args,
    result (check_arguments PyNone (PyStr "data") PyNone) = inr args /\
    ((exists img, result (load_image empty_clipboard PyNone)
                  = inr (Some img)) \/
     (PyNone = PyNone /\ grabclipboard empty_clipboard = GrabNone /\
      result (load_image empty_clipboard PyNone) = inr None)).
Proof.
  assert (H : In EvFigure
                (trace (ui_draw linear_interp empty_clipboard PyNone None
                          None (PyStr "data") PyNone))).
  { vm_compute. tauto. }
  split; [exact H|].
  exact (proj1 (X3_figure_only_after_checks_and_image linear_interp
                  empty_clipboard PyNone None None (PyStr "data") PyNone) H).
Defined.

(** Two clicks of a curve at the same x: the container library refuses to
    resample the curve. *)
Lemma X4_witness :
  result (ui_draw linear_interp doubled_click (PyStr "plot.png")
            (Some (0, 1)) (Some (0, 1)) (PyStr "data") PyNone)
  = inl ValueError /\
  exists keys units,
    result (check_arguments (PyStr "plot.png") (PyStr "data") PyNone)
      = inr (keys, units) /\
    (In "Time" keys \/
     exists k clicks,
       captured_curve doubled_click keys k clicks /\
       ~ NoDupA (key_eq fst) clicks).
Proof.
  assert (H : result (ui_draw linear_interp doubled_click (PyStr "plot.png")
                        (Some (0, 1)) (Some (0, 1)) (PyStr "data") PyNone)
              = inl ValueError) by (vm_compute; reflexivity).
  split; [exact H|].
  exact (X4_possible_errors linear_interp doubled_click (PyStr "plot.png")
           (Some (0, 1)) (Some (0, 1)) (PyStr "data") PyNone ValueError H).
Defined.

(** A curve named "Time" that is given a unit: the container library
    refuses the unit, as the time has one. *)
Example time_channel_with_unit :
  result (ui_draw linear_interp scenario (PyStr "plot.png")
            (Some (0, 1)) (Some (0, 1)) (PyStr "Time") (PyStr "s"))
  = inl ValueError.
Proof. vm_compute. reflexivity. Qed.

Lemma X5_witness :
  ui_draw linear_interp (with_time_clicks scenario [(10, 60); (30, 60)])
    (PyStr "plot.png") (Some (0, 1)) (Some (0, 1))
    (PyList [PyStr "A"; PyStr "B"]) PyNone =
  ui_draw linear_interp scenario (PyStr "plot.png") (Some (0, 1))
    (Some (0, 1)) (PyList [PyStr "A"; PyStr "B"]) PyNone.
Proof.
  refine (proj1 (X5_calibration_clicks_in_any_order linear_interp scenario
                   (PyStr "plot.png") (Some (0, 1)) (Some (0, 1))
                   (PyList [PyStr "A"; PyStr "B"]) PyNone (30, 60) (10, 60))
                eq_refl _).
  unfold Qeq. simpl. lia.
Defined.

Lemma X6_witness :
  ui_draw linear_interp
    (with_curve_clicks degenerate (fun _ => [(30, 45); (10, 50); (20, 40)]))
    PyNone (Some (0, 2)) (Some (-100, 200)) (PyStr "force") PyNone =
  ui_draw linear_interp degenerate PyNone (Some (0, 2)) (Some (-100, 200))
    (PyStr "force") PyNone.
Proof.
  apply (X6_curve_clicks_in_any_order linear_interp degenerate
           (fun _ => [(30, 45); (10, 50); (20, 40)])).
  - intros i. simpl.
    apply Permutation_sym, (Permutation_cons_app [(10, 50); (20, 40)] []).
    reflexivity.
  - intros i. simpl.
    repeat constructor; rewrite ?InA_cons, ?InA_nil; unfold key_eq, Qeq;
      simpl; lia.
Defined.

Lemma X7_witness :
  exists st tlo thi vlo vhi,
    result (draw_curves scenario 0 ["A"; "B"] no_curves) = inr st /\
    get_time_range scenario None st = ([], inr [Fin tlo; Fin thi]) /\
    get_value_range scenario None st = ([], inr [Fin vlo; Fin vhi]) /\
    tlo <= 15 <= thi /\ vlo <= - (45) <= vhi.
Proof.
  destruct (result (draw_curves scenario 0 ["A"; "B"] no_curves))
    as [e|st] eqn:E; [vm_compute in E; discriminate|].
  destruct (X7_default_pixel_extent scenario ["A"; "B"] st
              ltac:(discriminate) E)
    as (tlo & thi & vlo & vhi & Ht & Hv & _ & _ & _ & _ & Hb).
  exists st, tlo, thi, vlo, vhi.
  split; [reflexivity|]. split; [exact Ht|]. split; [exact Hv|].
  apply (Hb 1%nat (15, 45)); simpl; [lia|tauto].
Defined.

Lemma X8_witness :
  exists st' t v,
    result (draw_curve scenario 0 "A" no_curves) = inr st' /\
    dict_get (time_in_pixels_dict st') "A" = Some t /\
    dict_get (value_in_pixels_dict st') "A" = Some v /\
    StronglySorted Qle t /\
    Permutation (combine t v) [(20, - (40)); (10, - (50)); (30, - (30))].
Proof.
  destruct (result (draw_curve scenario 0 "A" no_curves)) as [e|st'] eqn:E;
    [vm_compute in E; discriminate|].
  destruct (X8_capture_stores_sorted_clicks scenario 0 "A" no_curves st' E)
    as (t & v & Ht & Hv & Hs & Hp & _).
  exists st', t, v. split; [reflexivity|]. repeat split; assumption.
Defined.

Lemma X9_witness :
  exists out,
    result (ui_draw linear_interp scenario (PyStr "plot.png") (Some (0, 1))
              (Some (0, 1)) (PyStr "A") PyNone) = inr out /\
    List.length (time out) = 3%nat.
Proof.
  destruct (result (ui_draw linear_interp scenario (PyStr "plot.png")
              (Some (0, 1)) (Some (0, 1)) (PyStr "A") PyNone))
    as [e|out] eqn:E; [vm_compute in E; discriminate|].
  exists out. split; [reflexivity|].
  destruct (X9_single_curve_one_sample_per_click linear_interp scenario
              (PyStr "plot.png") (Some (0, 1)) (Some (0, 1)) (PyStr "A")
              PyNone "A" None out eq_refl)
    as (a & b & r & c & d & rv & _ & _ & _ & _ & _ & _ & Hl).
  - simpl. repeat constructor; rewrite ?InA_cons, ?InA_nil; unfold key_eq, Qeq;
      simpl; lia.
  - exact E.
  - exact Hl.
Defined.

Lemma X10_witness :
  exists out,
    result (ui_draw linear_interp scenario (PyStr "plot.png")
              (Some (float_0_2, float_0_9)) (Some (0, 1)) (PyStr "A") PyNone)
    = inr out /\
    forall v, In (Fin v) (time out) ->
      float_0_2 <= v <= 2026619832316723 # 2251799813685248.
Proof.
  destruct (result (ui_draw linear_interp scenario (PyStr "plot.png")
              (Some (float_0_2, float_0_9)) (Some (0, 1)) (PyStr "A") PyNone))
    as [e|out] eqn:E; [vm_compute in E; discriminate|].
  exists out. split; [reflexivity|].
  destruct (X10_time_base_within_range linear_interp scenario
              (PyStr "plot.png") (Some (float_0_2, float_0_9)) (Some (0, 1))
              (PyStr "A") PyNone ["A"] None out (30, 60) (10, 60)
              (float_0_2, float_0_9) eq_refl E eq_refl)
    as (a & b & Eab & Hb).
  - unfold Qle. simpl. lia.
  - reflexivity.
  - unfold Qeq. simpl. lia.
  - intros k clicks c (i & Hi & -> & _) Hin.
    destruct i as [|[|i]]; simpl in Hi; try discriminate.
    simpl in Hin.
    destruct Hin as [<-|[<-|[<-|[]]]]; vm_compute; intuition discriminate.
  - vm_compute in Eab. injection Eab as <- <-.
    intros v Hv. apply (Hb v _ _ Hv); vm_compute; reflexivity.
Defined.


Lemma X12_witness :
  result (ui_draw linear_interp scenario (PyStr "plot.png") (Some (0, 1))
            (Some (0, 1)) (PyList [PyStr "A"; PyStr "B"])
            (PyList [PyStr "N"])) = inl IndexError.
Proof.
  refine (proj1 (X12_too_few_units linear_interp scenario (PyStr "plot.png")
                   (0, 1) (0, 1) (PyList [PyStr "A"; PyStr "B"])
                   (PyList [PyStr "N"]) ["A"; "B"] ["N"] (Image 0)
                   (30, 60) (10, 60) (5, 30) (5, 50)
                   eq_refl eq_refl _ _ _ eq_refl eq_refl _)).
  - intros [|[|j]] Hj; simpl in *; try discriminate. lia.
  - intros [|[|j]] Hj; simpl in *; try lia;
      repeat constructor; rewrite ?InA_cons, ?InA_nil; unfold key_eq, Qeq;
      simpl; lia.
  - simpl. intuition discriminate.
  - simpl. lia.
Defined.

Lemma X13_witness :
  result (ui_draw linear_interp (with_time_clicks scenario [(10, 60)])
            (PyStr "plot.png") (Some (0, 1)) (Some (0, 1))
            (PyList [PyStr "A"; PyStr "B"]) PyNone) = inl IndexError.
Proof.
  apply (X13_missing_calibration_click linear_interp
           (with_time_clicks scenario [(10, 60)]) (PyStr "plot.png")
           (0, 1) (0, 1) (PyList [PyStr "A"; PyStr "B"]) PyNone
           ["A"; "B"] None (Image 0) eq_refl eq_refl).
  - intros [|[|j]] Hj; simpl in *; try discriminate. lia.
  - intros [|[|j]] Hj; simpl in *; try lia;
      repeat constructor; rewrite ?InA_cons, ?InA_nil; unfold key_eq, Qeq;
      simpl; lia.
  - simpl. intuition discriminate.
  - exact I.
  - left. simpl. lia.
Defined.

Lemma X14_witness :
  result (ui_draw linear_interp scenario (PyStr "plot.png") (Some (0, 1))
            None (PyList []) PyNone)
  = inr {| time := []; data := []; info := [("Time", [("Unit", "s")])] |}.
Proof.
  exact (proj1 (X14_no_curve_requested linear_interp scenario
                  (PyStr "plot.png") (0, 1) None (PyList []) PyNone None
                  (Image 0) (30, 60) (10, 60) eq_refl eq_refl eq_refl I)).
Defined.


Lemma X16_witness :
  exists out out',
    result (ui_draw linear_interp scenario (PyStr "plot.png") (Some (0, 1))
              (Some (0, 1)) (PyList [PyStr "A"; PyStr "B"]) PyNone)
    = inr out /\
    result (ui_draw linear_interp
              (with_time_clicks scenario [(0, 60); (40, 60)])
              (PyStr "plot.png") (Some (5, 9)) (Some (0, 1))
              (PyList [PyStr "A"; PyStr "B"]) PyNone)
    = inr out' /\
    data out' = data out.
Proof.
  destruct (result (ui_draw linear_interp scenario (PyStr "plot.png")
              (Some (0, 1)) (Some (0, 1)) (PyList [PyStr "A"; PyStr "B"])
              PyNone)) as [e|out] eqn:E; [vm_compute in E; discriminate|].
  destruct (result (ui_draw linear_interp
              (with_time_clicks scenario [(0, 60); (40, 60)])
              (PyStr "plot.png") (Some (5, 9)) (Some (0, 1))
              (PyList [PyStr "A"; PyStr "B"]) PyNone))
    as [e|out'] eqn:E'; [vm_compute in E'; discriminate|].
  exists out, out'. split; [reflexivity|]. split; [reflexivity|].
  exact (proj1 (proj1 (X16_calibrations_are_independent linear_interp scenario
                         (PyStr "plot.png") (Some (0, 1)) (Some (5, 9))
                         (Some (0, 1)) (Some (0, 1))
                         (PyList [PyStr "A"; PyStr "B"]) PyNone
                         [(0, 60); (40, 60)] out out' E) E')).
Defined.
